(** * load_txt_to_SVG: markdown text flowed into SVG page layers

    A shallow embedding of [load_txt_to_SVG/load_txt_to_SVG.py] and the
    properties of its line wrapper, block parser, settings reader, flow
    engine and page provisioner. *)

From Stdlib Require Import List ZArith Lia Bool Arith Sorted.
From Stdlib Require Import Strings.String Strings.Ascii.
From Stdlib Require Import Numbers.DecimalString Numbers.DecimalNat.
Import ListNotations.

Set Warnings "-register-all".
Local Open Scope Z_scope.

(** ** Python strings

    A Python [str] is a sequence of Unicode code points; [ord] of a
    one-character string is the element itself. *)

Module PyStr.

Definition str := list Z.

(** ASCII literals, written as Rocq strings. *)
Definition lit (s : string) : str :=
  map (fun a => Z.of_N (N_of_ascii a)) (list_ascii_of_string s).

Definition NL : Z := 10.
Definition CR : Z := 13.
Definition SPACE : Z := 32.
Definition BACKSLASH : Z := 92.
Definition LT : Z := 60.

Fixpoint str_eqb (a b : str) : bool :=
  match a, b with
  | [], [] => true
  | x :: a', y :: b' => (x =? y) && str_eqb a' b'
  | _, _ => false
  end.

Definition is_empty (s : str) : bool :=
  match s with [] => true | _ => false end.

(** [str.isspace] on one character, which is also the class [\s] of [re]
    on [str] patterns. *)
Definition isspace (c : Z) : bool :=
  ((9 <=? c) && (c <=? 13)) || ((28 <=? c) && (c <=? 32))
  || (c =? 133) || (c =? 160) || (c =? 5760)
  || ((8192 <=? c) && (c <=? 8202))
  || (c =? 8232) || (c =? 8233) || (c =? 8239) || (c =? 8287) || (c =? 12288).

(** [s.lstrip()], [s.rstrip()], [s.strip()]. *)
Fixpoint lstrip (s : str) : str :=
  match s with
  | c :: s' => if isspace c then lstrip s' else s
  | [] => []
  end.

Fixpoint rstrip (s : str) : str :=
  match s with
  | [] => []
  | c :: s' =>
      match rstrip s' with
      | [] => if isspace c then [] else [c]
      | r => c :: r
      end
  end.

Definition strip (s : str) : str := lstrip (rstrip s).

(** [s.lstrip(chars)]. *)
Fixpoint lstrip_chars (chars s : str) : str :=
  match s with
  | c :: s' => if existsb (Z.eqb c) chars then lstrip_chars chars s' else s
  | [] => []
  end.

(** [s.startswith(p)]. *)
Fixpoint startswith (s p : str) {struct p} : bool :=
  match p, s with
  | [], _ => true
  | x :: p', y :: s' => (x =? y) && startswith s' p'
  | _ :: _, [] => false
  end.

(** [s.replace(old, new)] for a non-empty [old], as at every call site:
    occurrences are replaced from left to right and do not overlap.  The
    counter [skip] is the number of characters of a matched occurrence
    still to be passed over. *)
Fixpoint replace_from (old new : str) (skip : nat) (s : str) : str :=
  match s with
  | [] => []
  | c :: s' =>
      match skip with
      | S k => replace_from old new k s'
      | O =>
          if startswith s old
          then new ++ replace_from old new (pred (List.length old)) s'
          else c :: replace_from old new O s'
      end
  end.

Definition replace (old new s : str) : str := replace_from old new O s.

(** [s.split(sep)] for a one-character separator: never the empty list. *)
Fixpoint split (sep : Z) (s : str) : list str :=
  match s with
  | [] => [[]]
  | c :: s' =>
      if c =? sep then [] :: split sep s'
      else
        match split sep s' with
        | l :: ls => (c :: l) :: ls
        | [] => [[c]]
        end
  end.

(** [sep.join(parts)] for a one-character separator. *)
Fixpoint join (sep : Z) (parts : list str) : str :=
  match parts with
  | [] => []
  | [x] => x
  | x :: rest => x ++ sep :: join sep rest
  end.

(** [str(n)] of a non-negative integer. *)
Definition str_of_nat (n : nat) : str :=
  lit (NilEmpty.string_of_uint (Nat.to_uint n)).

End PyStr.
Import PyStr.

(** ** Width model and line wrapper *)

(** [is_fullwidth(ch)]. *)
Definition is_fullwidth (o : Z) : bool :=
  ((12288 <=? o) && (o <=? 12543))
  || ((13312 <=? o) && (o <=? 40959))
  || ((65281 <=? o) && (o <=? 65376))
  || ((65504 <=? o) && (o <=? 65510)).

Definition char_width (ch : Z) : Z := if is_fullwidth ch then 2 else 1.

(** The width sum of a line: 2 per wide character, 1 per narrow one. *)
Fixpoint line_width (l : str) : Z :=
  match l with
  | [] => 0
  | ch :: l' => char_width ch + line_width l'
  end.

(** The match of [\s*$] under [(?m)] on the text after a backslash:
    [Some k] when the greedy [\s*] ends up with [k] characters, [None] when
    the pattern does not match.  [$] holds at the end of the text and
    before a line feed; the greedy star gives characters back until it
    does. *)
Fixpoint ws_to_eol (r : str) : option nat :=
  match r with
  | [] => Some O
  | c :: r' =>
      if isspace c then
        match ws_to_eol r' with
        | Some k => Some (S k)
        | None => if c =? NL then Some O else None
        end
      else None
  end.

(** [re.sub(r"(?m)\\\s*$", "\n", text)]. *)
Fixpoint sub_trailing_backslash (skip : nat) (s : str) : str :=
  match s with
  | [] => []
  | c :: s' =>
      match skip with
      | S k => sub_trailing_backslash k s'
      | O =>
          if c =? BACKSLASH then
            match ws_to_eol s' with
            | Some k => NL :: sub_trailing_backslash k s'
            | None => c :: sub_trailing_backslash O s'
            end
          else c :: sub_trailing_backslash O s'
      end
  end.

(** The first three statements of [wrap_text_to_cols]. *)
Definition break_tokens (text : str) : str :=
  let text := replace (lit "<br>") [NL] text in
  let text := replace [BACKSLASH; BACKSLASH] [NL] text in
  sub_trailing_backslash O text.

(** The loop [for ch in para] with its variables [out], [line], [wsum];
    the result is [out] and [line] at the end of the loop. *)
Fixpoint wrap_chars (cols : Z) (para : str) (out : list str) (line : str) (wsum : Z)
  : list str * str :=
  match para with
  | [] => (out, line)
  | ch :: rest =>
      let w := if is_fullwidth ch then 2 else 1 in
      if wsum + w >? cols then
        if ch =? SPACE then wrap_chars cols rest (out ++ [line]) [] 0
        else wrap_chars cols rest (out ++ [line]) ([] ++ [ch]) (0 + w)
      else wrap_chars cols rest out (line ++ [ch]) (wsum + w)
  end.

(** The loop [for para in text.split("\n")]. *)
Fixpoint wrap_paras (cols : Z) (paras : list str) (out : list str) : list str :=
  match paras with
  | [] => out
  | para :: rest =>
      if is_empty para then wrap_paras cols rest (out ++ [[]])
      else
        let '(out', line) := wrap_chars cols para out [] 0 in
        wrap_paras cols rest (out' ++ [line])
  end.

Definition wrap_text_to_cols (text : str) (cols : Z) : list str :=
  wrap_paras cols (split NL (break_tokens text)) [].

(** One paragraph wrapped on its own: the lines the loop over its
    characters appends to [out]. *)
Definition wrap_para (cols : Z) (para : str) : list str :=
  let '(out, line) := wrap_chars cols para [] [] 0 in out ++ [line].

(** The wrapping rule in the words of the specification: characters are
    accumulated while the width sum stays within [cols]; the character that
    would exceed it closes the line, and is dropped when it is a plain
    space, carried to the new line otherwise.  [spec_wrap cols line rest ls]:
    with [line] accumulated and [rest] still to read, the lines produced
    are [ls]. *)
Inductive spec_wrap (cols : Z) : str -> str -> list str -> Prop :=
| sw_end : forall line, spec_wrap cols line [] [line]
| sw_accumulate : forall line ch rest ls,
    line_width (line ++ [ch]) <= cols ->
    spec_wrap cols (line ++ [ch]) rest ls ->
    spec_wrap cols line (ch :: rest) ls
| sw_drop_space : forall line rest ls,
    line_width (line ++ [SPACE]) > cols ->
    spec_wrap cols [] rest ls ->
    spec_wrap cols line (SPACE :: rest) (line :: ls)
| sw_carry : forall line ch rest ls,
    ch <> SPACE ->
    line_width (line ++ [ch]) > cols ->
    spec_wrap cols [ch] rest ls ->
    spec_wrap cols line (ch :: rest) (line :: ls).

(** A line respects the budget [cols], or is the degenerate line of one
    wide character in a budget of one column. *)
Definition line_ok (cols : Z) (l : str) : Prop :=
  line_width l <= cols
  \/ (exists ch, l = [ch] /\ is_fullwidth ch = true /\ cols = 1).

(** Text free of the characters that start a break token. *)
Definition plain (s : str) : bool :=
  forallb (fun c => negb (c =? LT) && negb (c =? BACKSLASH)) s.

Definition starts_visible (s : str) : bool :=
  match s with
  | c :: _ => negb (isspace c)
  | [] => false
  end.

(** ** Block parser *)

Inductive block_type := pagebreak | h2 | li | p.

(** A block [{"type": ..., "text": ...}]. *)
Record block := Block { type : block_type; text : str }.

Definition BULLET : Z := 12539.
Definition FULLWIDTH_SPACE : Z := 12288.

(** The character classes of [H2_RE] and [LI_RE]:
    ASCII and fullwidth number sign; ASCII and fullwidth digits; full
    stop, fullwidth full stop and closing parenthesis; the bullet glyphs
    hyphen, asterisk, their fullwidth forms, katakana middle dot, bullet. *)
Definition is_hash (c : Z) : bool := (c =? 35) || (c =? 65283).
Definition is_digit (c : Z) : bool :=
  ((48 <=? c) && (c <=? 57)) || ((65296 <=? c) && (c <=? 65305)).
Definition is_num_punct (c : Z) : bool := (c =? 46) || (c =? 65294) || (c =? 41).
Definition is_bullet (c : Z) : bool :=
  (c =? 45) || (c =? 42) || (c =? 65293) || (c =? 65290) || (c =? 12539) || (c =? 8226).

Fixpoint skip_digits (s : str) : str :=
  match s with
  | c :: s' => if is_digit c then skip_digits s' else s
  | [] => []
  end.

(** The alternative [[0-9０-９]+[\.．)]] of [H2_RE], then [\s*]: what is
    left of the line after the match. *)
Definition h2_numbered (s : str) : option str :=
  match s with
  | c :: _ =>
      if is_digit c then
        match skip_digits s with
        | q :: r => if is_num_punct q then Some (lstrip r) else None
        | [] => None
        end
      else None
  | [] => None
  end.

(** [H2_RE.match(line)] and, when it matches, [H2_RE.sub("", line)]: the
    pattern is anchored at the start of the line, so the substitution
    removes the one match there. *)
Definition H2_RE (line : str) : option str :=
  let s := lstrip line in
  match s with
  | c1 :: c2 :: r =>
      if is_hash c1 && is_hash c2 then Some (lstrip r) else h2_numbered s
  | _ => h2_numbered s
  end.

(** [LI_RE.match(line)] and its [group(1)], for a line without line feed
    (lines come from [src.split("\n")]). *)
Definition LI_RE (line : str) : option str :=
  match lstrip line with
  | c :: r => if is_bullet c then Some (lstrip r) else None
  | [] => None
  end.

(** The loop [while i < len(lines)] of [parse_markdown]; the inner
    function is the loop that gathers a paragraph up to a blank line. *)
Fixpoint parse_lines (pagebreak_marker : str) (lines : list str) : list block :=
  match lines with
  | [] => []
  | line :: rest =>
      if str_eqb (strip line) pagebreak_marker then
        Block pagebreak [] :: parse_lines pagebreak_marker rest
      else
        match H2_RE line with
        | Some text => Block h2 text :: parse_lines pagebreak_marker rest
        | None =>
            match LI_RE line with
            | Some (c :: g) =>
                Block li (BULLET :: rstrip (c :: g))
                :: parse_lines pagebreak_marker rest
            | _ =>
                (fix gather (para : list str) (ls : list str) {struct ls}
                   : list block :=
                   match ls with
                   | [] => [Block p (rstrip (join NL para))]
                   | l :: ls' =>
                       if is_empty (strip l) then
                         Block p (rstrip (join NL para))
                         :: Block p [] :: parse_lines pagebreak_marker ls'
                       else gather (para ++ [l]) ls'
                   end) [line] rest
            end
        end
  end.

Definition parse_markdown (src : str) (indent_fullwidth : bool)
    (pagebreak_marker : str) : list block :=
  let src := replace [CR] [NL] (replace [CR; NL] [NL] src) in
  let lines := split NL src in
  parse_lines pagebreak_marker lines.

(** Trailing blanks of a source line: whitespace other than the line
    terminators. *)
Definition blank_tail (ws : str) : bool :=
  forallb (fun c => isspace c && negb (c =? NL) && negb (c =? CR)) ws.

(** ** Exceptions *)

Inductive exn :=
| AbortExtension (msg : str)
| KeyError
| TypeError
| ValueError
| AttributeError
| IndexError
| OSError
| JSONDecodeError.

Inductive result (A : Type) : Type :=
| Ok (a : A)
| Raise (e : exn).
Arguments Ok {A} a.
Arguments Raise {A} e.

Definition bind {A B : Type} (r : result A) (k : A -> result B) : result B :=
  match r with
  | Ok a => k a
  | Raise e => Raise e
  end.

(** [try: body  except Exception: handler]. *)
Definition try_except {A : Type} (body : result A) (handler : exn -> result A)
  : result A :=
  match body with
  | Ok a => Ok a
  | Raise e => handler e
  end.

Declare Scope result_scope.
Delimit Scope result_scope with result.
Notation "x <- e ;; k" := (bind e (fun x => k))
  (at level 61, e at next level, right associativity) : result_scope.
Notation "' pat <- e ;; k" := (bind e (fun x => match x with pat => k end))
  (at level 61, pat pattern, e at next level, right associativity) : result_scope.
Local Open Scope result_scope.

(** ** Settings *)

(** A JSON document as [json.loads] returns it (numbers that are
    integers; [dict] as the list of its items, looked up from the front). *)
Inductive json :=
| JNull
| JBool (b : bool)
| JInt (n : Z)
| JStr (s : str)
| JList (l : list json)
| JDict (d : list (str * json)).

Fixpoint dict_lookup (d : list (str * json)) (k : str) : option json :=
  match d with
  | [] => None
  | (k', v) :: d' => if str_eqb k' k then Some v else dict_lookup d' k
  end.

(** [obj[key]]. *)
Definition getitem (obj : json) (key : str) : result json :=
  match obj with
  | JDict d =>
      match dict_lookup d key with
      | Some v => Ok v
      | None => Raise KeyError
      end
  | _ => Raise TypeError
  end.

(** [obj.get(key, default)]. *)
Definition dict_get (obj : json) (key : str) (default : json) : result json :=
  match obj with
  | JDict d =>
      match dict_lookup d key with
      | Some v => Ok v
      | None => Ok default
      end
  | _ => Raise AttributeError
  end.

(** The settings file as [read_settings] meets it: absent, present but
    [read_text] raises, or present with readable content. *)
Inductive settings_file :=
| Missing
| Unreadable
| Content (s : str).

Definition exists_ (f : settings_file) : bool :=
  match f with Missing => false | _ => true end.

Definition read_text (f : settings_file) : result str :=
  match f with
  | Content s => Ok s
  | _ => Raise OSError
  end.

Definition default_settings : json :=
  JDict
    [ (lit "lines_per_page", JDict [(lit "p1", JInt 21); (lit "default", JInt 30)]);
      (lit "cols_per_line", JDict [(lit "p1", JInt 86); (lit "default", JInt 48)]);
      (lit "style_defaults",
        JDict [(lit "fill", JStr (lit "#000000")); (lit "stroke", JStr (lit "#ffffff"))]) ].

Section Settings.

(** [json.loads], and [int] applied to a [str]. *)
Variable json_loads : str -> result json.
Variable int_of_str : str -> result Z.

Definition read_settings (path : settings_file) : result json :=
  match
    (if exists_ path then
       try_except
         (s <- read_text path ;; v <- json_loads s ;; Ok (Some v))
         (fun _ => Ok None)
     else Ok None)
  with
  | Ok (Some v) => Ok v
  | Ok None => Ok default_settings
  | Raise e => Raise e
  end.

(** [int(v)] on a JSON value. *)
Definition int (v : json) : result Z :=
  match v with
  | JInt n => Ok n
  | JBool b => Ok (if b then 1 else 0)
  | JStr s => int_of_str s
  | _ => Raise TypeError
  end.

(** The closure [limits] of [effect]. *)
Definition limits (settings : json) (idx : nat) : result (Z * Z) :=
  let page_lab := lit "p" ++ str_of_nat (idx + 1) in
  lpp <- getitem settings (lit "lines_per_page") ;;
  lpp' <- getitem settings (lit "lines_per_page") ;;
  dl <- dict_get lpp' (lit "default") (JInt 30) ;;
  lp <- dict_get lpp page_lab dl ;;
  cpl <- getitem settings (lit "cols_per_line") ;;
  cpl' <- getitem settings (lit "cols_per_line") ;;
  dc <- dict_get cpl' (lit "default") (JInt 48) ;;
  cp <- dict_get cpl page_lab dc ;;
  lp <- int lp ;;
  cp <- int cp ;;
  Ok (lp, cp).

End Settings.

(** ** Flow engine *)

(** One call of [add_line_text]: the page index and the counter [used]
    at the call, the line and the type of its block. *)
Record placement := Placement {
  pl_page : nat;
  pl_used : nat;
  pl_line : str;
  pl_type : block_type
}.

(** [wrap_text_to_cols(blk["text"], cols) or [""]]. *)
Definition wrapped_lines (text : str) (cols : Z) : list str :=
  match wrap_text_to_cols text cols with
  | [] => [[]]
  | ls => ls
  end.

Section FlowEngine.

Context {St Handle : Type}.

(** The capacity resolver, the page provisioner and the line sink the
    engine calls, and the option [indent_fullwidth]. *)
Variable limits_func : nat -> result (Z * Z).
Variable get_page : nat -> St -> result (Handle * St).
Variable add_line_text : Handle -> str -> block_type -> St -> St.
Variable indent_fullwidth : bool.

(** *** Estimation pass *)

(** The loop [for _ in lines] of [_estimate_required_pages]. *)
Fixpoint estimate_lines (lines : list str) (page_idx used : nat)
  : result (nat * nat) :=
  match lines with
  | [] => Ok (page_idx, used)
  | _ :: rest =>
      '(m, _) <- limits_func page_idx ;;
      if Z.of_nat used >=? m
      then estimate_lines rest (page_idx + 1) (0 + 1)
      else estimate_lines rest page_idx (used + 1)
  end.

(** The loop [for blk in blocks] of [_estimate_required_pages]. *)
Fixpoint estimate_blocks (blocks : list block) (page_idx used : nat)
  : result (nat * nat) :=
  match blocks with
  | [] => Ok (page_idx, used)
  | blk :: rest =>
      match type blk with
      | pagebreak => estimate_blocks rest (page_idx + 1) 0
      | _ =>
          '(_, cols) <- limits_func page_idx ;;
          '(page_idx, used) <-
            estimate_lines (wrapped_lines (text blk) cols) page_idx used ;;
          estimate_blocks rest page_idx used
      end
  end.

Definition _estimate_required_pages (blocks : list block) : result nat :=
  '(page_idx, _) <- estimate_blocks blocks 0 0 ;;
  Ok (page_idx + 1)%nat.

(** The same two loops, recording for every line the page index at which
    it is counted. *)
Fixpoint estimate_lines_on (lines : list str) (page_idx used : nat)
  : result (nat * nat * list nat) :=
  match lines with
  | [] => Ok (page_idx, used, [])
  | _ :: rest =>
      '(m, _) <- limits_func page_idx ;;
      if Z.of_nat used >=? m
      then
        '(pi, u, on) <- estimate_lines_on rest (page_idx + 1) (0 + 1) ;;
        Ok (pi, u, (page_idx + 1)%nat :: on)
      else
        '(pi, u, on) <- estimate_lines_on rest page_idx (used + 1) ;;
        Ok (pi, u, page_idx :: on)
  end.

Fixpoint estimate_blocks_on (blocks : list block) (page_idx used : nat)
  : result (nat * nat * list nat) :=
  match blocks with
  | [] => Ok (page_idx, used, [])
  | blk :: rest =>
      match type blk with
      | pagebreak => estimate_blocks_on rest (page_idx + 1) 0
      | _ =>
          '(_, cols) <- limits_func page_idx ;;
          '(page_idx, used, on1) <-
            estimate_lines_on (wrapped_lines (text blk) cols) page_idx used ;;
          '(pi, u, on2) <- estimate_blocks_on rest page_idx used ;;
          Ok (pi, u, on1 ++ on2)
      end
  end.

(** *** Commit pass *)

(** The rewriting of the wrapped lines of a block before they are placed:
    headings lose leading fullwidth and plain spaces; under
    [indent_fullwidth] other non-empty lines get a leading fullwidth space
    unless they start with one. *)
Definition prepare_lines (ty : block_type) (lines : list str) : list str :=
  match ty with
  | h2 => map (lstrip_chars [FULLWIDTH_SPACE; SPACE]) lines
  | _ =>
      if indent_fullwidth then
        map (fun ln =>
               if negb (is_empty ln) && negb (startswith ln [FULLWIDTH_SPACE])
               then FULLWIDTH_SPACE :: ln else ln)
            lines
      else lines
  end.

(** The loop [while i < len(lines)] of [effect]. *)
Fixpoint commit_lines (ty : block_type) (lines : list str)
    (page_idx used : nat) (st : St) : result (nat * nat * St) :=
  match lines with
  | [] => Ok (page_idx, used, st)
  | line :: rest =>
      '(m, _) <- limits_func page_idx ;;
      '(page_idx, used, st) <-
        (if Z.of_nat used >=? m then
           '(_, st) <- get_page (page_idx + 1) st ;;
           Ok ((page_idx + 1)%nat, O, st)
         else Ok (page_idx, used, st)) ;;
      '(el, st) <- get_page page_idx st ;;
      let st := add_line_text el line ty st in
      commit_lines ty rest page_idx (used + 1) st
  end.

(** The loop [for blk in blocks] of [effect]. *)
Fixpoint commit_blocks (blocks : list block) (page_idx used : nat) (st : St)
  : result (nat * nat * St) :=
  match blocks with
  | [] => Ok (page_idx, used, st)
  | blk :: rest =>
      match type blk with
      | pagebreak =>
          '(_, st) <- get_page (page_idx + 1) st ;;
          commit_blocks rest (page_idx + 1) 0 st
      | ty =>
          '(_, cols) <- limits_func page_idx ;;
          let lines := prepare_lines ty (wrapped_lines (text blk) cols) in
          '(page_idx, used, st) <- commit_lines ty lines page_idx used st ;;
          commit_blocks rest page_idx used st
      end
  end.

(** The same two loops, recording the calls of [add_line_text]. *)
Fixpoint commit_lines_rec (ty : block_type) (lines : list str)
    (page_idx used : nat) (st : St) : result (nat * nat * St * list placement) :=
  match lines with
  | [] => Ok (page_idx, used, st, [])
  | line :: rest =>
      '(m, _) <- limits_func page_idx ;;
      '(page_idx, used, st) <-
        (if Z.of_nat used >=? m then
           '(_, st) <- get_page (page_idx + 1) st ;;
           Ok ((page_idx + 1)%nat, O, st)
         else Ok (page_idx, used, st)) ;;
      '(el, st) <- get_page page_idx st ;;
      let st := add_line_text el line ty st in
      '(pi, u, st, placed) <- commit_lines_rec ty rest page_idx (used + 1) st ;;
      Ok (pi, u, st, Placement page_idx used line ty :: placed)
  end.

Fixpoint commit_blocks_rec (blocks : list block) (page_idx used : nat) (st : St)
  : result (nat * nat * St * list placement) :=
  match blocks with
  | [] => Ok (page_idx, used, st, [])
  | blk :: rest =>
      match type blk with
      | pagebreak =>
          '(_, st) <- get_page (page_idx + 1) st ;;
          commit_blocks_rec rest (page_idx + 1) 0 st
      | ty =>
          '(_, cols) <- limits_func page_idx ;;
          let lines := prepare_lines ty (wrapped_lines (text blk) cols) in
          '(page_idx, used, st, placed1) <-
            commit_lines_rec ty lines page_idx used st ;;
          '(pi, u, st, placed2) <- commit_blocks_rec rest page_idx used st ;;
          Ok (pi, u, st, placed1 ++ placed2)
      end
  end.

End FlowEngine.



(** ** Document model

    An element of the SVG tree: its tag, its attributes in document order
    and its children.  Tags and attribute names are written
    [prefix:local].  An element of the document is referred to by the
    path of child indices that leads to it from the root; the operations
    below only append children and set attributes, which leaves the paths
    of the elements already in the document in place. *)

Definition name := string.
Bind Scope string_scope with name.

Inductive element :=
| Element (tag : name) (attrib : list (name * str)) (children : list element).

Definition tag (e : element) : name :=
  match e with Element t _ _ => t end.
Definition attrib (e : element) : list (name * str) :=
  match e with Element _ a _ => a end.
Definition children (e : element) : list element :=
  match e with Element _ _ cs => cs end.

Definition path := list nat.

Definition SVG_G : name := "svg:g".
Definition SVG_TEXT : name := "svg:text".
Definition SVG_FLOWROOT : name := "svg:flowRoot".
Definition SODI_NAMEDVIEW : name := "sodipodi:namedview".
Definition INK_PAGE : name := "inkscape:page".
Definition INK_LABEL : name := "inkscape:label".
Definition INK_GROUPMODE : name := "inkscape:groupmode".
Definition INK_DOCUMENT_UNITS : name := "inkscape:document-units".

Fixpoint attr_get (a : list (name * str)) (k : name) : option str :=
  match a with
  | [] => None
  | (k', v) :: a' => if String.eqb k' k then Some v else attr_get a' k
  end.

Fixpoint attr_set (a : list (name * str)) (k : name) (v : str)
  : list (name * str) :=
  match a with
  | [] => [(k, v)]
  | (k', v') :: a' =>
      if String.eqb k' k then (k', v) :: a' else (k', v') :: attr_set a' k v
  end.

(** [el.get(k)], [el.get(k, default)], [el.set(k, v)], [el.append(c)]. *)
Definition el_get (e : element) (k : name) : option str := attr_get (attrib e) k.
Definition el_get_or (e : element) (k : name) (default : str) : str :=
  match attr_get (attrib e) k with
  | Some v => v
  | None => default
  end.
Definition el_set (k : name) (v : str) (e : element) : element :=
  Element (tag e) (attr_set (attrib e) k v) (children e).
Definition el_append (c : element) (e : element) : element :=
  Element (tag e) (attrib e) (children e ++ [c]).

(** [v == s] for an attribute value that may be absent. *)
Definition attr_is (v : option str) (s : str) : bool :=
  match v with
  | Some x => str_eqb x s
  | None => false
  end.

(** The element at a path. *)
Fixpoint get_at (e : element) (q : path) : option element :=
  match q with
  | [] => Some e
  | i :: q' =>
      match nth_error (children e) i with
      | Some c => get_at c q'
      | None => None
      end
  end.

Fixpoint update_nth {A : Type} (i : nat) (f : A -> A) (l : list A) : list A :=
  match l, i with
  | [], _ => []
  | x :: l', O => f x :: l'
  | x :: l', S i' => x :: update_nth i' f l'
  end.

(** The document after the element at a path has been changed in place. *)
Fixpoint update_at (f : element -> element) (e : element) (q : path) : element :=
  match q with
  | [] => f e
  | i :: q' =>
      Element (tag e) (attrib e)
        (update_nth i (fun c => update_at f c q') (children e))
  end.

(** The first element of a list of siblings, or below them, that
    satisfies [P], in document order; [i] is the index of the first
    sibling. *)
Fixpoint find_in (below : element -> option path) (P : element -> bool)
    (cs : list element) (i : nat) : option path :=
  match cs with
  | [] => None
  | c :: cs' =>
      if P c then Some [i]
      else
        match below c with
        | Some q => Some (i :: q)
        | None => find_in below P cs' (S i)
        end
  end.

(** The first descendant that satisfies [P], in document order. *)
Fixpoint find_desc (P : element -> bool) (e : element) {struct e} : option path :=
  match e with
  | Element _ _ cs => find_in (find_desc P) P cs 0
  end.

Definition is_layer_labelled (label : str) (g : element) : bool :=
  String.eqb (tag g) SVG_G
  && attr_is (el_get g INK_GROUPMODE) (lit "layer")
  && attr_is (el_get g INK_LABEL) label.

Definition is_text_labelled (label : str) (e : element) : bool :=
  attr_is (el_get e INK_LABEL) label
  && (String.eqb (tag e) SVG_TEXT || String.eqb (tag e) SVG_FLOWROOT).

Definition find_layer_by_label (root : element) (label : str) : option path :=
  find_desc (is_layer_labelled label) root.

Definition find_text_by_label (scope : element) (label : str) : option path :=
  find_desc (is_text_labelled label) scope.

(** [_namedview(root)]: the first [sodipodi:namedview] of the document. *)
Definition _namedview (root : element) : option path :=
  if String.eqb (tag root) SODI_NAMEDVIEW then Some []
  else find_desc (fun e => String.eqb (tag e) SODI_NAMEDVIEW) root.

Definition is_page (c : element) : bool := String.eqb (tag c) INK_PAGE.

(** [s.lower()], on ASCII letters. *)
Definition lower (s : str) : str :=
  map (fun c => if (65 <=? c) && (c <=? 90) then c + 32 else c) s.

Definition _doc_units (nv : element) : str :=
  lower (el_get_or nv INK_DOCUMENT_UNITS (lit "px")).

(** [_collect_ids(root)]. *)
Fixpoint _collect_ids (e : element) : list str :=
  match e with
  | Element _ a cs =>
      match attr_get a "id" with
      | Some i => if is_empty i then [] else [i]
      | None => []
      end
      ++ flat_map _collect_ids cs
  end.

Definition is_id_char (c : Z) : bool :=
  ((97 <=? c) && (c <=? 122)) || ((65 <=? c) && (c <=? 90))
  || ((48 <=? c) && (c <=? 57))
  || (c =? 95) || (c =? 46) || (c =? 58) || (c =? 45).

(** [re.sub(r"[^a-zA-Z0-9_.:-]", "_", base or "id")]. *)
Definition sanitize_id (base : str) : str :=
  map (fun c => if is_id_char c then c else 95)
      (if is_empty base then lit "id" else base).

(** The [i]-th candidate of [_gen_unique_id]: [base], then [f"{base}-{i}"]. *)
Definition id_candidate (base : str) (i : nat) : str :=
  match i with
  | O => base
  | S _ => base ++ lit "-" ++ str_of_nat i
  end.

(** The loop [while cand in used], entered with the candidate number [i];
    [fuel] bounds the number of candidates tried. *)
Fixpoint gen_loop (fuel : nat) (used : list str) (base : str) (i : nat) : str :=
  match fuel with
  | O => id_candidate base i
  | S fuel' =>
      if existsb (str_eqb (id_candidate base i)) used
      then gen_loop fuel' used base (i + 1)
      else id_candidate base i
  end.

(** [_gen_unique_id(used, base)]: the identifier and the set [used] after
    it.  One candidate more than [used] has members is enough. *)
Definition _gen_unique_id (used : list str) (base : str) : str * list str :=
  let base := sanitize_id base in
  let cand := gen_loop (List.length used) used base 0 in
  (cand, cand :: used).

(** The loop [for el in clone.iter()] of [clone_layer_as], which gives
    every element that has an [id] a fresh one: the element first, then
    its children in order, each with the set [used] the ones before left. *)
Fixpoint regen_each (regen : list str -> element -> list str * element)
    (used : list str) (cs : list element) : list str * list element :=
  match cs with
  | [] => (used, [])
  | c :: cs' =>
      let '(used, c) := regen used c in
      let '(used, cs') := regen_each regen used cs' in
      (used, c :: cs')
  end.

Fixpoint regen_ids (used : list str) (e : element) {struct e}
  : list str * element :=
  match e with
  | Element t a cs =>
      let '(used, a) :=
        match attr_get a "id" with
        | Some i =>
            let '(cand, used) := _gen_unique_id used i in
            (used, attr_set a "id" cand)
        | None => (used, a)
        end in
      let '(used, cs) := regen_each regen_ids used cs in
      (used, Element t a cs)
  end.

Definition has_label (label : str) (el : element) : bool :=
  attr_is (el_get el INK_LABEL) label.

(** The element [clone_layer_as(root, src_layer, new_name,
    text_label_old, text_label_new)] builds: a copy of [src_layer] with
    the label [new_name], the first labelled descendant that carries
    [text_label_old] relabelled, and fresh identifiers. *)
Definition cloned_layer (root src_layer : element)
    (new_name text_label_old text_label_new : str) : element :=
  let clone := src_layer in
  let clone := el_set INK_LABEL new_name clone in
  let clone :=
    match find_desc (has_label text_label_old) clone with
    | Some q => update_at (el_set INK_LABEL text_label_new) clone q
    | None => clone
    end in
  let used := _collect_ids root in
  snd (regen_ids used clone).

(** [clone_layer_as]: the document with the clone appended to the root,
    and the path of the clone. *)
Definition clone_layer_as (root src_layer : element)
    (new_name text_label_old text_label_new : str) : element * path :=
  let clone :=
    cloned_layer root src_layer new_name text_label_old text_label_new in
  (el_append clone root, [List.length (children root)]).

(** The state a run shares with [get_page]: the document and the list
    [pages] of labels and text elements. *)
Record run_state := RunState {
  doc : element;
  pages : list (str * path)
}.

Section Provisioner.

(** Floating-point numbers: [float(s)], [str(x)], the operations on them,
    the gap of 10 units between pages and [PX_PER_MM]. *)
Variable float : Type.
Variable float_of_str : str -> result float.
Variable str_of_float : float -> str.
Variables fadd fsub fmul : float -> float -> float.
Variables gap_units PX_PER_MM : float.

(** Style properties: whether a dictionary of them is empty, and the value
    [apply_style] computes for the [style] attribute from its old value. *)
Variable props : Type.
Variable props_empty : props -> bool.
Variable restyle : str -> props -> str.
Variable label_css : str -> option props.

(** The layer [p2], the pattern of the layers that are created. *)
Variable layer_p2 : path.

Definition page_geom := (float * float * float * float)%type.

(** [apply_style(el, props)]. *)
Definition apply_style (pr : props) (el : element) : element :=
  if props_empty pr then el
  else el_set "style" (restyle (el_get_or el "style" []) pr) el.

(** One tuple of [_list_pages], without the element. *)
Definition page_floats (pg : element) : result page_geom :=
  x <- float_of_str (el_get_or pg "x" (lit "0")) ;;
  y <- float_of_str (el_get_or pg "y" (lit "0")) ;;
  w <- float_of_str (el_get_or pg "width" (lit "0")) ;;
  h <- float_of_str (el_get_or pg "height" (lit "0")) ;;
  Ok (x, y, w, h).

Fixpoint list_pages_of (cs : list element) : result (list page_geom) :=
  match cs with
  | [] => Ok []
  | c :: cs' =>
      if is_page c then
        g <- page_floats c ;;
        out <- list_pages_of cs' ;;
        Ok (g :: out)
      else list_pages_of cs'
  end.

(** [_list_pages(nv)]. *)
Definition _list_pages (nv : element) : result (list page_geom) :=
  list_pages_of (children nv).

(** [_append_page_like(nv, last_page, gap_units)]: the tuple it returns
    and the page element it appends to [nv]. *)
Definition next_geom (last_page : page_geom) : page_geom :=
  let '(lx, ly, lw, lh) := last_page in
  (fadd (fadd lx lw) gap_units, ly, lw, lh).

Definition new_page (nv : element) (g : page_geom) : element :=
  let '(nx, ly, lw, lh) := g in
  Element INK_PAGE
    [ ("x"%string, str_of_float nx); ("y"%string, str_of_float ly);
      ("width"%string, str_of_float lw); ("height"%string, str_of_float lh);
      ("id"%string,
        lit "page"
        ++ str_of_nat (List.length (filter is_page (children nv)) + 1)) ]
    [].

Definition _append_page_like (g : page_geom) (nv : element) : element :=
  el_append (new_page nv g) nv.

(** The loop [while len(pgs) <= idx], which runs [idx + 1 - len(pgs)]
    times; [g0] stands for [pgs[-1]] of an empty list, which the loop
    never meets. *)
Fixpoint ensure_phys (n : nat) (nvp : path) (doc : element)
    (pgs : list page_geom) (g0 : page_geom) : element * list page_geom :=
  match n with
  | O => (doc, pgs)
  | S n' =>
      let g := next_geom (last pgs g0) in
      ensure_phys n' nvp (update_at (_append_page_like g) doc nvp) (pgs ++ [g]) g0
  end.

(** The element a reference leads to.  A path that leads to no element
    of the document has no counterpart in the program, where a reference
    is the element itself; it is made to raise. *)
Definition resolve (doc : element) (q : path) : result element :=
  match get_at doc q with
  | Some e => Ok e
  | None => Raise IndexError
  end.

(** The first part of [get_page]: the text labelled [pre_lab] in the
    first layer labelled [pre_lab]. *)
Definition find_pre_text (doc : element) (pre_lab : str) : option path :=
  match find_layer_by_label doc pre_lab with
  | Some lp =>
      match get_at doc lp with
      | Some pre_layer =>
          match find_text_by_label pre_layer pre_lab with
          | Some tp => Some (lp ++ tp)
          | None => None
          end
      | None => None
      end
  | None => None
  end.

(** The closure [get_page] of [effect]. *)
Definition get_page (idx : nat) (st : run_state) : result (path * run_state) :=
  let pre_lab := lit "p" ++ str_of_nat (idx + 1) in
  match find_pre_text (doc st) pre_lab with
  | Some pre_text =>
      let pages :=
        if (List.length (pages st) <=? idx)%nat
        then pages st ++ [(pre_lab, pre_text)]
        else pages st in
      Ok (pre_text, RunState (doc st) pages)
  | None =>
      match _namedview (doc st) with
      | None => Raise (AbortExtension (lit "sodipodi:namedview"))
      | Some nvp =>
          nv <- resolve (doc st) nvp ;;
          pgs <- _list_pages nv ;;
          match pgs with
          | [] => Raise (AbortExtension (lit "inkscape:page"))
          | g0 :: _ =>
              let '(doc1, pgs) :=
                ensure_phys (idx + 1 - List.length pgs) nvp (doc st) pgs g0 in
              match nth_error (pages st) idx with
              | Some (_, el) => Ok (el, RunState doc1 (pages st))
              | None =>
                  let new_lab := lit "p" ++ str_of_nat (idx + 1) in
                  src_layer <- resolve doc1 layer_p2 ;;
                  let '(doc2, new_layer) :=
                    clone_layer_as doc1 src_layer new_lab (lit "p2") new_lab in
                  clone <- resolve doc2 new_layer ;;
                  match find_text_by_label clone new_lab with
                  | None => Raise (AbortExtension new_lab)
                  | Some tp =>
                      let new_text := new_layer ++ tp in
                      let du := _doc_units nv in
                      let last_ :=
                        match idx with
                        | O => last pgs g0
                        | S k => nth k pgs g0
                        end in
                      let new_ := nth idx pgs g0 in
                      let dx_units :=
                        fsub (fst (fst (fst new_))) (fst (fst (fst last_))) in
                      let dx_px :=
                        if str_eqb du (lit "mm") then fmul dx_units PX_PER_MM
                        else dx_units in
                      let doc3 :=
                        update_at
                          (fun l =>
                             el_set "transform"
                               (strip (el_get_or l "transform" []
                                       ++ lit " translate("
                                       ++ str_of_float dx_px ++ lit ",0)"))
                               l)
                          doc2 new_layer in
                      let doc4 :=
                        match label_css new_lab with
                        | Some pr => update_at (apply_style pr) doc3 new_text
                        | None => doc3
                        end in
                      Ok (new_text,
                          RunState doc4 (pages st ++ [(new_lab, new_text)]))
                  end
              end
          end
      end
  end.

End Provisioner.

(** Predicates that look at the tag, the label and the group mode only;
    elements that agree on these; changes of an element that keep these
    and only add childless elements the predicate rejects. *)
Definition shape_pred (P : element -> bool) : Prop :=
  forall e e',
    tag e = tag e' ->
    el_get e INK_LABEL = el_get e' INK_LABEL ->
    el_get e INK_GROUPMODE = el_get e' INK_GROUPMODE ->
    P e = P e'.

Definition same_shape (e e' : element) : Prop :=
  tag e' = tag e
  /\ el_get e' INK_LABEL = el_get e INK_LABEL
  /\ el_get e' INK_GROUPMODE = el_get e INK_GROUPMODE.

Definition benign (P : element -> bool) (f : element -> element) : Prop :=
  forall x,
    same_shape x (f x)
    /\ exists extra,
         children (f x) = children x ++ extra
         /\ Forall (fun c => P c = false /\ children c = []) extra.

Definition rejects_pages (P : element -> bool) : Prop :=
  forall e, tag e = INK_PAGE -> P e = false.

Definition page_like (c : element) : Prop :=
  tag c = INK_PAGE /\ children c = [].

(** A change of one element that keeps its tag, label and group mode and
    adds at most childless page elements after its children. *)
Definition harmless (f : element -> element) : Prop :=
  forall x,
    same_shape x (f x)
    /\ exists extra,
         children (f x) = children x ++ extra /\ Forall page_like extra.

(** [grown e e']: [e'] is [e] after harmless changes of some of its
    elements. *)
Inductive grown : element -> element -> Prop :=
| grown_refl : forall e, grown e e
| grown_step : forall f q e e',
    harmless f -> grown (update_at f e q) e' -> grown e e'.

(** The reference [layer_p2] leads to a layer labelled [p2], as the one
    [effect] finds with [find_layer_by_label(doc, "p2")]. *)
Definition pattern_layer (layer_p2 : path) (d : element) : Prop :=
  exists src,
    get_at d layer_p2 = Some src /\ is_layer_labelled (lit "p2") src = true.

(** ** The commit pass on the document *)

Section Run.

Variable float : Type.
Variable float_of_str : str -> result float.
Variable str_of_float : float -> str.
Variables fadd fsub fmul : float -> float -> float.
Variables gap_units PX_PER_MM : float.
Variable props : Type.
Variable props_empty : props -> bool.
Variable restyle : str -> props -> str.
Variable label_css : str -> option props.
Variable layer_p2 : path.

(** What [add_line_text] makes of the document, given the element, the
    line and the type of the block whose style it applies. *)
Variable add_line_text : path -> str -> block_type -> element -> element.
Variable limits_func : nat -> result (Z * Z).
Variable indent_fullwidth : bool.

(** The loop [for blk in blocks] of [effect] with the page provisioner
    [provision]. *)
Definition run_commit
    (provision : nat -> run_state -> result (path * run_state))
    (blocks : list block) (st : run_state) : result (nat * nat * run_state) :=
  commit_blocks limits_func provision
    (fun el line ty st => RunState (add_line_text el line ty (doc st)) (pages st))
    indent_fullwidth blocks 0 0 st.

(** [get_page] behind a check that the index is at most the number of
    pages listed. *)
Definition get_page_in_range (idx : nat) (st : run_state)
  : result (path * run_state) :=
  if (idx <=? List.length (pages st))%nat then
    get_page float float_of_str str_of_float fadd fsub fmul gap_units PX_PER_MM
      props props_empty restyle label_css layer_p2 idx st
  else Raise IndexError.

End Run.

(** ** Scenario data *)

(** The source text and the page-break marker of the scenarios. *)
Definition scenario_src : str :=
  lit "## Title" ++ [NL; NL] ++ lit "Body text" ++ [NL]
  ++ lit "- item one" ++ [NL] ++ lit "- item two" ++ [NL].

Definition newpage_marker : str := lit "\newpage".

(** Settings that give every page 2 lines of 10 columns. *)
Definition scenario_settings : json :=
  JDict
    [ (lit "lines_per_page", JDict [(lit "default", JInt 2)]);
      (lit "cols_per_line", JDict [(lit "default", JInt 10)]) ].

Definition scenario_limits : nat -> result (Z * Z) :=
  limits (fun _ => Raise ValueError) scenario_settings.

(** A provisioner that hands out the page index as handle and keeps the
    lines it is given, page by page. *)
Definition sheets := list (nat * str).
Definition sheets_get_page (idx : nat) (st : sheets) : result (nat * sheets) :=
  Ok (idx, st).
Definition sheets_add_line_text (el : nat) (line : str) (ty : block_type)
    (st : sheets) : sheets :=
  st ++ [(el, line)].

(** A small document: numbers that are natural numbers written in
    decimal, a document with a named view of one page and the layers [p1]
    and [p2], each with its text, and the state of a run on it. *)

Fixpoint leading_digits (s : str) (acc : Z) : Z :=
  match s with
  | c :: s' =>
      if (48 <=? c) && (c <=? 57) then leading_digits s' (10 * acc + (c - 48))
      else acc
  | [] => acc
  end.

Definition nat_float_of_str (s : str) : result Z := Ok (leading_digits s 0).
Definition nat_str_of_float (x : Z) : str := str_of_nat (Z.to_nat x).

Definition layer (label : str) (content : list element) : element :=
  Element SVG_G
    [ (INK_GROUPMODE, lit "layer"); (INK_LABEL, label);
      ("id"%string, lit "layer-" ++ label) ]
    content.

Definition text_box (label : str) : element :=
  Element SVG_TEXT [ (INK_LABEL, label); ("id"%string, lit "text-" ++ label) ] [].

Definition small_doc : element :=
  Element "svg:svg" []
    [ Element SODI_NAMEDVIEW [ (INK_DOCUMENT_UNITS, lit "mm") ]
        [ Element INK_PAGE
            [ ("x"%string, lit "0"); ("y"%string, lit "0");
              ("width"%string, lit "210"); ("height"%string, lit "297");
              ("id"%string, lit "page1") ] [] ];
      layer (lit "p1") [text_box (lit "p1")];
      layer (lit "p2") [text_box (lit "p2")] ].

Definition small_state : run_state :=
  RunState small_doc [ (lit "p1", [1; 0]%nat); (lit "p2", [2; 0]%nat) ].

Definition small_get_page : nat -> run_state -> result (path * run_state) :=
  get_page Z nat_float_of_str nat_str_of_float Z.add Z.sub Z.mul 10 4
    unit (fun _ => true) (fun s _ => s) (fun _ => None) [2%nat].

(** A document in which a layer [p4] without text exists already. *)
Definition odd_state : run_state :=
  RunState (el_append (layer (lit "p4") []) small_doc)
    [ (lit "p1", [1; 0]%nat); (lit "p2", [2; 0]%nat) ].

(** ** Measures used in the properties of the wrapper and the engine *)

(** The characters of a text that wrapping may not lose: all but the
    plain space (dropped where a line overflows) and the line feed (which
    separates paragraphs). *)
Definition kept_char (c : Z) : bool := negb (c =? SPACE) && negb (c =? NL).

(** The number of page-break blocks. *)
Definition count_pagebreaks (blocks : list block) : nat :=
  List.length
    (filter (fun b => match type b with pagebreak => true | _ => false end)
       blocks).

(** ** Shapes used in the properties of the block parser *)

(** The paragraph loop of [parse_markdown] on its own: [para] holds the
    lines gathered so far, [ls] the lines still to read. *)
Fixpoint gather (pagebreak_marker : str) (para : list str) (ls : list str)
  : list block :=
  match ls with
  | [] => [Block p (rstrip (join NL para))]
  | l :: ls' =>
      if is_empty (strip l) then
        Block p (rstrip (join NL para))
        :: Block p [] :: parse_lines pagebreak_marker ls'
      else gather pagebreak_marker (para ++ [l]) ls'
  end.

Definition no_line_feed (s : str) : bool := forallb (fun c => negb (c =? NL)) s.
Definition no_carriage_return (s : str) : bool :=
  forallb (fun c => negb (c =? CR)) s.

(** What the text of a block looks like, by the type of the block: empty
    for a page break; one line without leading whitespace for a heading;
    the bullet glyph, then one line that starts with a visible character
    and has no trailing whitespace, for a list item; no trailing
    whitespace for a paragraph. *)
Definition block_shape (b : block) : Prop :=
  match type b with
  | pagebreak => text b = []
  | h2 => lstrip (text b) = text b /\ no_line_feed (text b) = true
  | li =>
      exists t,
        text b = BULLET :: t /\ starts_visible t = true
        /\ rstrip t = t /\ no_line_feed t = true
  | p => rstrip (text b) = text b
  end.

(** The lines the commit pass places for one block when every page has
    [cols] columns: none for a page break, the prepared wrapped lines of
    the text otherwise. *)
Definition block_lines (indent_fullwidth : bool) (cols : Z) (blk : block)
  : list str :=
  match type blk with
  | pagebreak => []
  | ty => prepare_lines indent_fullwidth ty (wrapped_lines (text blk) cols)
  end.

(** ** Fresh identifiers

    What [regen_ids] does to the set [used]: it grows by the identifiers
    [news], which are pairwise distinct and were not in use before. *)
Definition regen_spec (used used' : list str) (news : list str) : Prop :=
  used' = rev news ++ used
  /\ NoDup news
  /\ (forall x, In x news -> ~ In x used).

(** ** Inline bold *)

Definition STAR : Z := 42.

(** The group [(.+?)] of the pattern [\*\*(.+?)\*\*], read right after an
    opening [**]: the shortest non-empty run of characters other than line
    feed that is followed by [**]. *)
Fixpoint bold_body (s : str) : option str :=
  match s with
  | [] => None
  | c :: s' =>
      if c =? NL then None
      else if startswith s' [STAR; STAR] then Some [c]
      else
        match bold_body s' with
        | Some g => Some (c :: g)
        | None => None
        end
  end.

(** The match of [\*\*(.+?)\*\*] at the start of [s], as its group. *)
Definition bold_match (s : str) : option str :=
  match s with
  | c1 :: c2 :: r => if (c1 =? STAR) && (c2 =? STAR) then bold_body r else None
  | _ => None
  end.

(** The loop [for m in re.finditer(...)] of [split_inline_bold] and the
    statement after it: [buf] is the text since the end of the last match,
    [skip] the number of characters of a match still to be passed over. *)
Fixpoint bold_scan (skip : nat) (buf : str) (s : str) : list (str * bool) :=
  match s with
  | [] => if is_empty buf then [] else [(buf, false)]
  | c :: s' =>
      match skip with
      | S k => bold_scan k buf s'
      | O =>
          match bold_match s with
          | Some g =>
              (if is_empty buf then [] else [(buf, false)])
              ++ (g, true) :: bold_scan (List.length g + 3) [] s'
          | None => bold_scan O (buf ++ [c]) s'
          end
      end
  end.

(** [split_inline_bold(text)]. *)
Definition split_inline_bold (text : str) : list (str * bool) :=
  match bold_scan O [] text with
  | [] => [([], false)]
  | parts => parts
  end.

(** A segment written back as it was in the text. *)
Definition segment_source (seg : str * bool) : str :=
  if snd seg then [STAR; STAR] ++ fst seg ++ [STAR; STAR] else fst seg.

(** ** The start of a run *)

(** The paths of the elements of a tree, the root first. *)
Fixpoint paths_in (paths : element -> list path) (cs : list element) (i : nat)
  : list path :=
  match cs with
  | [] => []
  | c :: cs' => map (cons i) (paths c) ++ paths_in paths cs' (S i)
  end.

Fixpoint paths (e : element) {struct e} : list path :=
  match e with
  | Element _ _ cs => [] :: paths_in paths cs 0
  end.

(** The loop [while True] of [effect] that lists the text elements of the
    layers [p3], [p4], ... the document holds already; it ends at the
    first label without its layer or without its text.  [fuel] bounds the
    number of labels tried. *)
Fixpoint scan_pages (fuel : nat) (doc : element) (n : nat)
    (pages : list (str * path)) : list (str * path) :=
  match fuel with
  | O => pages
  | S fuel' =>
      let lab := lit "p" ++ str_of_nat n in
      match find_pre_text doc lab with
      | Some t => scan_pages fuel' doc (n + 1) (pages ++ [(lab, t)])
      | None => pages
      end
  end.

(** The statements of [effect] from [layer_p1 = ...] to the end of the
    loop [while True]: the reference to the layer [p2] and the list
    [pages].  As many labels as the document has elements are enough for
    the loop. *)
Definition start_pages (doc : element) : result (path * list (str * path)) :=
  match find_layer_by_label doc (lit "p1"), find_layer_by_label doc (lit "p2") with
  | Some lp1, Some lp2 =>
      layer_p1 <- resolve doc lp1 ;;
      layer_p2 <- resolve doc lp2 ;;
      match find_text_by_label layer_p1 (lit "p1"),
            find_text_by_label layer_p2 (lit "p2") with
      | Some t1, Some t2 =>
          Ok (lp2,
              scan_pages (List.length (paths doc)) doc 3
                [(lit "p1", lp1 ++ t1); (lit "p2", lp2 ++ t2)])
      | _, _ => Raise (AbortExtension (lit "label='p1','p2'"))
      end
  | _, _ => Raise (AbortExtension (lit "'p1' 'p2'"))
  end.

(** ** Page layers laid out side by side *)

Definition SODO_INSEN : name := "sodipodi:insensitive".

(** The labels of the format layer, with and without brackets. *)
Definition FORMAT_LABEL : str :=
  [91; 12501; 12457; 12540; 12510; 12483; 12488; 93].
Definition FORMAT_LABEL_BARE : str :=
  [12501; 12457; 12540; 12510; 12483; 12488].

Fixpoint remove_nth {A : Type} (i : nat) (l : list A) : list A :=
  match l, i with
  | [], _ => []
  | _ :: l', O => l'
  | x :: l', S i' => x :: remove_nth i' l'
  end.

(** [node.getparent().remove(node)] for the node at a path; the root has
    no parent and stays. *)
Fixpoint remove_at (e : element) (q : path) : element :=
  match q with
  | [] => e
  | i :: q' =>
      match q' with
      | [] => Element (tag e) (attrib e) (remove_nth i (children e))
      | _ :: _ =>
          Element (tag e) (attrib e)
            (update_nth i (fun c => remove_at c q') (children e))
      end
  end.

(** [_find_layer_by_labels(root, labels)]; [_find_layer_by_label] is
    [find_layer_by_label] under another name. *)
Fixpoint _find_layer_by_labels (root : element) (labels : list str)
  : option path :=
  match labels with
  | [] => None
  | lb :: rest =>
      match find_layer_by_label root lb with
      | Some node => Some node
      | None => _find_layer_by_labels root rest
      end
  end.

(** [_delete_layer_if_exists(root, label)]. *)
Definition _delete_layer_if_exists (root : element) (label : str) : element :=
  match find_layer_by_label root label with
  | Some node => remove_at root node
  | None => root
  end.

(** [_clone_children(dst_parent, src_parent)]. *)
Definition _clone_children (src_parent dst_parent : element) : element :=
  Element (tag dst_parent) (attrib dst_parent)
    (children dst_parent ++ children src_parent).

Section Horizontal.

(** [root.get_unique_id(prefix)] of the library, and the value the
    attribute [transform] of the new layer has after
    [page_layer.set('transform', f"translate({x},0)")] with
    [x = (n - 1) * step_px], for page [n]. *)
Variable get_unique_id : element -> str -> str.
Variable transform_text : nat -> str.

(** [_new_layer(root, label)]: the document and the path of the layer. *)
Definition _new_layer (root : element) (label : str) : element * path :=
  let g := Element SVG_G [] [] in
  let g := el_set INK_GROUPMODE (lit "layer") g in
  let g := el_set INK_LABEL label g in
  let g :=
    el_set "id" (get_unique_id root (replace [93] [] (replace [91] [] label))) g in
  (el_append g root, [List.length (children root)]).

(** [ensure_page_horizontal(self, n)]: the document it leaves. *)
Definition ensure_page_horizontal (n : nat) (root : element) : result element :=
  if (n <? 3)%nat then Ok root
  else
    let label := lit "p" ++ str_of_nat n in
    let root := _delete_layer_if_exists root label in
    let '(root, page_layer) := _new_layer root label in
    let root := update_at (el_set "transform" (transform_text n)) root page_layer in
    match _find_layer_by_labels root [FORMAT_LABEL; FORMAT_LABEL_BARE] with
    | None => Raise (AbortExtension FORMAT_LABEL)
    | Some fp =>
        fmt_root <- resolve root fp ;;
        match find_layer_by_label fmt_root (lit "f2") with
        | None => Raise (AbortExtension (lit "f2"))
        | Some f2p =>
            f2 <- resolve fmt_root f2p ;;
            let was_locked :=
              attr_is (el_get fmt_root SODO_INSEN) (lit "true") in
            let root :=
              if was_locked
              then update_at (el_set SODO_INSEN (lit "false")) root fp
              else root in
            let root := update_at (_clone_children f2) root page_layer in
            let root :=
              if was_locked
              then update_at (el_set SODO_INSEN (lit "true")) root fp
              else root in
            Ok root
        end
    end.

(** The loop [for n in range(3, max(3, total_pages + 1))], entered at
    [n] with [count] rounds to go. *)
Fixpoint ensure_pages_from (n count : nat) (root : element) : result element :=
  match count with
  | O => Ok root
  | S count' =>
      root <- ensure_page_horizontal n root ;;
      ensure_pages_from (n + 1) count' root
  end.

(** [ensure_pages_horizontal_from_p3(self, total_pages)]. *)
Definition ensure_pages_horizontal_from_p3 (total_pages : nat) (root : element)
  : result element :=
  ensure_pages_from 3 (Nat.max 3 (total_pages + 1) - 3) root.

(** The layer [ensure_page_horizontal] makes for page [n] in the document
    [root], holding [content]. *)
Definition horizontal_layer (root : element) (n : nat) (content : list element)
  : element :=
  Element SVG_G
    [ (INK_GROUPMODE, lit "layer");
      (INK_LABEL, lit "p" ++ str_of_nat n);
      ("id"%string,
        get_unique_id root
          (replace [93] [] (replace [91] [] (lit "p" ++ str_of_nat n))));
      ("transform"%string, transform_text n) ]
    content.

End Horizontal.

(** A document with a locked format layer that holds the layers [f1] and
    [f2], the latter with a frame, with sample identifiers of the
    library and sample values of the transforms. *)
Definition format_doc : element :=
  Element "svg:svg" []
    [ Element SODI_NAMEDVIEW [ (INK_DOCUMENT_UNITS, lit "mm") ]
        [ Element INK_PAGE
            [ ("x"%string, lit "0"); ("y"%string, lit "0");
              ("width"%string, lit "210"); ("height"%string, lit "297");
              ("id"%string, lit "page1") ] [] ];
      Element SVG_G
        [ (INK_GROUPMODE, lit "layer"); (INK_LABEL, FORMAT_LABEL);
          (SODO_INSEN, lit "true") ]
        [ layer (lit "f1") [];
          layer (lit "f2")
            [ Element "svg:rect" [ ("id"%string, lit "frame") ] [] ] ];
      layer (lit "p1") [text_box (lit "p1")];
      layer (lit "p2") [text_box (lit "p2")] ].

Definition sample_unique_id (root : element) (prefix : str) : str :=
  prefix ++ lit "1234".

Definition sample_transform_text (n : nat) : str :=
  lit "translate(" ++ str_of_nat ((n - 1) * 220) ++ lit ".0,0)".

(** ** The first physical page *)

(** [s.split()]: the words of [s] between runs of whitespace; [cur] is
    the word being read. *)
Fixpoint split_ws_from (cur : str) (s : str) : list str :=
  match s with
  | [] => if is_empty cur then [] else [cur]
  | c :: s' =>
      if isspace c then
        if is_empty cur then split_ws_from [] s'
        else cur :: split_ws_from [] s'
      else split_ws_from (cur ++ [c]) s'
  end.

Definition split_ws (s : str) : list str := split_ws_from [] s.

(** [l[i]]. *)
Definition index {A : Type} (l : list A) (i : nat) : result A :=
  match nth_error l i with
  | Some x => Ok x
  | None => Raise IndexError
  end.

Section FirstPage.

Variable float : Type.
Variable float_of_str : str -> result float.
Variable str_of_float : float -> str.

(** The page [_ensure_pages] makes from the width and the height. *)
Definition first_page (w h : float) : element :=
  Element INK_PAGE
    [ ("x"%string, lit "0"); ("y"%string, lit "0");
      ("width"%string, str_of_float w); ("height"%string, str_of_float h);
      ("id"%string, lit "page1") ]
    [].

(** [_ensure_pages(docroot)]: the document it leaves. *)
Definition _ensure_pages (docroot : element) : result element :=
  let '(docroot, nvp) :=
    match _namedview docroot with
    | Some nvp => (docroot, nvp)
    | None =>
        (Element (tag docroot) (attrib docroot)
           (Element SODI_NAMEDVIEW [] [] :: children docroot),
         [0%nat])
    end in
  nv <- resolve docroot nvp ;;
  pgs <- _list_pages float float_of_str nv ;;
  match pgs with
  | _ :: _ => Ok docroot
  | [] =>
      let vb :=
        split_ws
          match el_get docroot "viewBox" with
          | Some v => if is_empty v then lit "0 0 210 297" else v
          | None => lit "0 0 210 297"
          end in
      vb2 <- index vb 2 ;;
      w <- float_of_str (el_get_or docroot "width" vb2) ;;
      vb3 <- index vb 3 ;;
      h <- float_of_str (el_get_or docroot "height" vb3) ;;
      Ok (update_at (el_append (first_page w h)) docroot nvp)
  end.

End FirstPage.

(** A document without named view, with the given [viewBox] and a
    width and a height. *)
Definition bare_doc (viewbox : str) : element :=
  Element "svg:svg"
    [ ("viewBox"%string, viewbox); ("width"%string, lit "210");
      ("height"%string, lit "297") ]
    [ layer (lit "p1") [text_box (lit "p1")];
      layer (lit "p2") [text_box (lit "p2")] ].

(** ** Style attributes

    The attribute [style] is read and written as [etree.Element.get] and
    [set] do, without a wrapper class between the program and the
    attribute. *)

Definition COLON : Z := 58.
Definition SEMICOLON : Z := 59.

(** A dictionary of style properties, in insertion order. *)
Definition style_dict := list (str * str).


















Section ResetBoxStyle.

(** [f"{v}"] of a JSON value that is not a string. *)
Variable format_json : json -> str.




End ResetBoxStyle.

(** Keys and values that a style attribute gives back as they were
    written: without semicolon (and, for a key, without colon) and without
    whitespace at either end. *)
Definition no_char (x : Z) (s : str) : bool := forallb (fun c => negb (c =? x)) s.

Definition key_ok (k : str) : Prop :=
  no_char SEMICOLON k = true /\ no_char COLON k = true /\ strip k = k.

Definition val_ok (v : str) : Prop :=
  no_char SEMICOLON v = true /\ strip v = v.

(** A dictionary of properties with such keys and values. *)
Definition props_ok (props : style_dict) : Prop :=
  NoDup (map fst props)
  /\ Forall (fun kv => key_ok (fst kv) /\ val_ok (snd kv)) props.

(** A dictionary whose serialisation [parse_style] reads back key by
    key: distinct keys that are [key_ok], values without semicolon. *)
Definition style_wf (d : style_dict) : Prop :=
  NoDup (map fst d)
  /\ Forall (fun kv => key_ok (fst kv) /\ no_char SEMICOLON (snd kv) = true) d.




(* ================================================================= *)
(** * Properties *)

Example wrap_ABCDEFGH :
  wrap_text_to_cols (lit "ABCDEFGH") 5 = [lit "ABCDE"; lit "FGH"].
Proof. reflexivity. Qed.

Example wrap_wide_in_one_column :
  wrap_text_to_cols [12354; 97] 1 = [[]; [12354]; [97]].
Proof. reflexivity. Qed.

Example wrap_backslash_then_blank :
  wrap_text_to_cols (lit "A" ++ [BACKSLASH; SPACE; NL; NL] ++ lit "B") 5
  = [lit "A"; []; lit "B"].
Proof. reflexivity. Qed.

(** ** Strings *)

Lemma str_eqb_eq (a b : str) : str_eqb a b = true <-> a = b.
Proof.
  revert b; induction a as [|x a IH]; intros [|y b]; simpl; split;
    try congruence; try reflexivity.
  - intros H. apply andb_true_iff in H as [H1 H2].
    apply Z.eqb_eq in H1. apply IH in H2. congruence.
  - intros H. injection H as -> ->. rewrite Z.eqb_refl. simpl. now apply IH.
Qed.

Lemma str_eqb_refl (a : str) : str_eqb a a = true.
Proof. now apply str_eqb_eq. Qed.


Lemma startswith_head_ne (c0 c : Z) (old s : str) :
  c <> c0 -> startswith (c :: s) (c0 :: old) = false.
Proof. intros H. simpl. apply Z.eqb_neq in H. rewrite Z.eqb_sym in H. now rewrite H. Qed.

Section Replace.
Variables (c0 : Z) (old' new : str).
Let old := c0 :: old'.

Lemma replace_from_avoid (x s : str) :
  forallb (fun c => negb (c =? c0)) x = true ->
  replace_from old new O (x ++ s) = x ++ replace_from old new O s.
Proof.
  induction x as [|c x IH]; simpl; intros H; [reflexivity|].
  apply andb_true_iff in H as [Hc Hx].
  apply negb_true_iff in Hc.
  rewrite (Z.eqb_sym c0 c), Hc. simpl.
  now rewrite IH.
Qed.



Lemma replace_avoid (x : str) :
  forallb (fun c => negb (c =? c0)) x = true -> replace old new x = x.
Proof.
  intros H. unfold replace.
  rewrite <- (app_nil_r x) at 1. rewrite replace_from_avoid by exact H.
  simpl. apply app_nil_r.
Qed.

End Replace.

Lemma sub_trailing_backslash_avoid (x s : str) :
  forallb (fun c => negb (c =? BACKSLASH)) x = true ->
  sub_trailing_backslash O (x ++ s) = x ++ sub_trailing_backslash O s.
Proof.
  induction x as [|c x IH]; simpl; intros H; [reflexivity|].
  apply andb_true_iff in H as [Hc Hx].
  apply negb_true_iff in Hc. rewrite Hc. now rewrite IH.
Qed.


Lemma plain_no_lt (x : str) :
  plain x = true -> forallb (fun c => negb (c =? LT)) x = true.
Proof.
  unfold plain. induction x as [|c x IH]; simpl; [reflexivity|].
  intros H. apply andb_true_iff in H as [Hc Hx].
  apply andb_true_iff in Hc as [H1 H2]. rewrite H1. simpl. auto.
Qed.

Lemma plain_no_backslash (x : str) :
  plain x = true -> forallb (fun c => negb (c =? BACKSLASH)) x = true.
Proof.
  unfold plain. induction x as [|c x IH]; simpl; [reflexivity|].
  intros H. apply andb_true_iff in H as [Hc Hx].
  apply andb_true_iff in Hc as [H1 H2]. rewrite H2. simpl. auto.
Qed.


(** Text without break-token characters passes through the
    pre-processing unchanged. *)
Lemma break_tokens_plain (x : str) : plain x = true -> break_tokens x = x.
Proof.
  intros H. unfold break_tokens.
  change (lit "<br>") with (LT :: lit "br>").
  rewrite (replace_avoid LT (lit "br>") [NL] x (plain_no_lt x H)).
  rewrite (replace_avoid BACKSLASH [BACKSLASH] [NL] x (plain_no_backslash x H)).
  rewrite <- (app_nil_r x) at 1.
  rewrite sub_trailing_backslash_avoid by now apply plain_no_backslash.
  simpl. apply app_nil_r.
Qed.






(** ** The line wrapper *)

Lemma char_width_range (ch : Z) : 1 <= char_width ch <= 2.
Proof. unfold char_width. destruct (is_fullwidth ch); lia. Qed.

Lemma line_width_app (a b : str) :
  line_width (a ++ b) = line_width a + line_width b.
Proof. induction a as [|c a IH]; simpl; lia. Qed.

Lemma line_width_snoc (l : str) (ch : Z) :
  line_width (l ++ [ch]) = line_width l + char_width ch.
Proof. rewrite line_width_app. simpl. lia. Qed.

Lemma line_width_nonneg (l : str) : 0 <= line_width l.
Proof.
  induction l as [|c l IH]; simpl; [lia|].
  pose proof (char_width_range c). lia.
Qed.

(** The accumulator [out] is only ever appended to. *)
Lemma wrap_chars_out (cols : Z) (para : str) :
  forall out line wsum,
    wrap_chars cols para out line wsum
    = (out ++ fst (wrap_chars cols para [] line wsum),
       snd (wrap_chars cols para [] line wsum)).
Proof.
  induction para as [|ch rest IH]; intros out line wsum; simpl.
  - now rewrite app_nil_r.
  - destruct (wsum + (if is_fullwidth ch then 2 else 1) >? cols).
    + destruct (ch =? SPACE).
      * rewrite (IH (out ++ [line])), (IH [line]). simpl.
        now rewrite <- app_assoc.
      * rewrite (IH (out ++ [line])), (IH [line]). simpl.
        now rewrite <- app_assoc.
    + apply IH.
Qed.

Lemma wrap_paras_concat (cols : Z) (paras : list str) :
  forall out, wrap_paras cols paras out = out ++ List.concat (map (wrap_para cols) paras).
Proof.
  induction paras as [|para rest IH]; intros out; simpl.
  - now rewrite app_nil_r.
  - destruct para as [|c para']; simpl is_empty; cbv iota.
    + rewrite IH. now rewrite <- app_assoc.
    + rewrite wrap_chars_out.
      rewrite IH. unfold wrap_para.
      destruct (wrap_chars cols (c :: para') [] [] 0) as [o l]. simpl.
      now rewrite <- !app_assoc.
Qed.

Lemma wrap_text_to_cols_paras (text : str) (cols : Z) :
  wrap_text_to_cols text cols
  = List.concat (map (wrap_para cols) (split NL (break_tokens text))).
Proof. unfold wrap_text_to_cols. now rewrite wrap_paras_concat. Qed.

(** The loop keeps [wsum] equal to the width sum of [line], and every line
    it closes is within the budget or degenerate. *)
Lemma wrap_chars_line_ok (cols : Z) (para : str) :
  1 <= cols ->
  forall line,
    line_ok cols line ->
    Forall (line_ok cols)
      (fst (wrap_chars cols para [] line (line_width line))
       ++ [snd (wrap_chars cols para [] line (line_width line))]).
Proof.
  intros Hc. induction para as [|ch rest IH]; intros line Hl; simpl.
  - now constructor.
  - fold (char_width ch).
    destruct (Z.gtb_spec (line_width line + char_width ch) cols) as [Hgt|Hle].
    + destruct (ch =? SPACE).
      * rewrite wrap_chars_out. simpl. constructor; [exact Hl|].
        apply (IH []). left. simpl. lia.
      * rewrite wrap_chars_out. simpl. constructor; [exact Hl|].
        pose proof (IH [ch]) as IH'. simpl line_width in IH'.
        rewrite Z.add_0_r in IH'. apply IH'.
        unfold line_ok. simpl. unfold char_width.
        destruct (is_fullwidth ch) eqn:Hf.
        -- destruct (Z.eq_dec cols 1) as [->|Hne].
           ++ right. exists ch. auto.
           ++ left. lia.
        -- left. lia.
    + rewrite <- line_width_snoc. apply IH.
      left. rewrite line_width_snoc. exact Hle.
Qed.

Lemma wrap_para_line_ok (cols : Z) (para : str) :
  1 <= cols -> Forall (line_ok cols) (wrap_para cols para).
Proof.
  intros Hc. unfold wrap_para.
  pose proof (wrap_chars_line_ok cols para Hc []) as H.
  simpl in H.
  destruct (wrap_chars cols para [] [] 0) as [o l].
  apply H. left. simpl. lia.
Qed.

(** C2. For every string [s] and every column budget [c >= 1], every line
    of [wrap_text_to_cols s c] has a width sum (2 per wide character, 1 per
    narrow one, by [is_fullwidth]) of at most [c], except the degenerate
    line that holds a single wide character alone when [c] is 1. *)
Theorem wrap_text_to_cols_width (s : str) (c : Z) :
  1 <= c -> Forall (line_ok c) (wrap_text_to_cols s c).
Proof.
  intros Hc. rewrite wrap_text_to_cols_paras.
  induction (split NL (break_tokens s)) as [|para paras IH]; simpl.
  - constructor.
  - apply Forall_app. split; [now apply wrap_para_line_ok | exact IH].
Qed.

Lemma wrap_text_to_cols_width_witness :
  Forall (line_ok 1) (wrap_text_to_cols [12354; 97; 32; 98] 1).
Proof. apply wrap_text_to_cols_width. lia. Defined.

(** The loop over the characters of a paragraph follows the wrapping rule
    of the specification, from any line accumulated so far. *)
Lemma wrap_chars_spec_wrap (cols : Z) (para : str) :
  forall line,
    spec_wrap cols line para
      (fst (wrap_chars cols para [] line (line_width line))
       ++ [snd (wrap_chars cols para [] line (line_width line))]).
Proof.
  induction para as [|ch rest IH]; intros line; simpl.
  - constructor.
  - fold (char_width ch).
    destruct (Z.gtb_spec (line_width line + char_width ch) cols) as [Hgt|Hle].
    + destruct (Z.eqb_spec ch SPACE) as [->|Hne].
      * rewrite wrap_chars_out. simpl.
        apply sw_drop_space; [rewrite line_width_snoc; lia|].
        apply (IH []).
      * rewrite wrap_chars_out. simpl.
        apply sw_carry; [exact Hne | rewrite line_width_snoc; lia |].
        pose proof (IH [ch]) as IH'. simpl line_width in IH'.
        rewrite Z.add_0_r in IH'. exact IH'.
    + apply sw_accumulate; [rewrite line_width_snoc; lia|].
      rewrite <- line_width_snoc. apply IH.
Qed.

(** The wrapping rule determines the lines. *)
Lemma spec_wrap_functional (cols : Z) (line para : str) (ls ls' : list str) :
  spec_wrap cols line para ls -> spec_wrap cols line para ls' -> ls = ls'.
Proof.
  intros H. revert ls'.
  induction H as [line | line ch rest ls Hle H IH | line rest ls Hgt H IH
                 | line ch rest ls Hne Hgt H IH]; intros ls' H';
    inversion H'; subst; try lia; try congruence; auto.
  - f_equal. auto.
  - f_equal. auto.
Qed.

(** C6. Within one paragraph [wrap_text_to_cols] accumulates characters
    while the width sum stays within [cols]; the character that would
    exceed the budget closes the line and opens a new one, dropped when it
    is a plain space and carried as the first character of the new line
    otherwise; and [wrap_text_to_cols "ABCDEFGH" 5] is ["ABCDE"; "FGH"]. *)
Theorem wrap_text_to_cols_greedy :
  (forall text cols,
      wrap_text_to_cols text cols
      = List.concat (map (wrap_para cols) (split NL (break_tokens text))))
  /\ (forall cols para ls, spec_wrap cols [] para ls <-> ls = wrap_para cols para)
  /\ wrap_text_to_cols (lit "ABCDEFGH") 5 = [lit "ABCDE"; lit "FGH"].
Proof.
  split; [exact wrap_text_to_cols_paras|]. split; [|reflexivity].
  intros cols para ls.
  assert (Hw : spec_wrap cols [] para (wrap_para cols para)).
  { pose proof (wrap_chars_spec_wrap cols para []) as H. simpl in H.
    unfold wrap_para. now destruct (wrap_chars cols para [] [] 0). }
  split.
  - intros H. exact (spec_wrap_functional _ _ _ _ _ H Hw).
  - intros ->. exact Hw.
Qed.

Lemma wrap_text_to_cols_greedy_witness :
  spec_wrap 5 [] (lit "AB CDEFGH") [lit "AB CD"; lit "EFGH"].
Proof.
  apply (proj2 (proj1 (proj2 wrap_text_to_cols_greedy) 5 (lit "AB CDEFGH") _)).
  reflexivity.
Defined.



(** ** The block parser *)

Lemma is_bullet_cases (b : Z) :
  is_bullet b = true ->
  b = 45 \/ b = 42 \/ b = 65293 \/ b = 65290 \/ b = 12539 \/ b = 8226.
Proof.
  unfold is_bullet. rewrite !orb_true_iff, !Z.eqb_eq. tauto.
Qed.

Lemma rstrip_blank (ws : str) : forallb isspace ws = true -> rstrip ws = [].
Proof.
  induction ws as [|c ws IH]; simpl; [reflexivity|].
  intros H. apply andb_true_iff in H as [Hc Hw].
  now rewrite (IH Hw), Hc.
Qed.

Lemma lstrip_blank (ws : str) : forallb isspace ws = true -> lstrip ws = [].
Proof.
  induction ws as [|c ws IH]; simpl; [reflexivity|].
  intros H. apply andb_true_iff in H as [Hc Hw]. rewrite Hc. auto.
Qed.

Lemma split_no_sep (sep : Z) (s : str) :
  forallb (fun c => negb (c =? sep)) s = true -> split sep s = [s].
Proof.
  induction s as [|c s IH]; simpl; [reflexivity|].
  intros H. apply andb_true_iff in H as [Hc Hs].
  apply negb_true_iff in Hc. now rewrite Hc, (IH Hs).
Qed.

Lemma blank_tail_split (ws : str) :
  blank_tail ws = true ->
  forallb isspace ws = true
  /\ forallb (fun c => negb (c =? NL)) ws = true
  /\ forallb (fun c => negb (c =? CR)) ws = true.
Proof.
  unfold blank_tail. induction ws as [|c ws IH]; simpl; [auto|].
  intros H. apply andb_true_iff in H as [Hc Hw].
  apply andb_true_iff in Hc as [Hc H3]. apply andb_true_iff in Hc as [H1 H2].
  destruct (IH Hw) as (I1 & I2 & I3).
  now rewrite H1, H2, H3, I1, I2, I3.
Qed.

(** A line that is a bullet glyph followed by blanks only is a paragraph
    whose text is the glyph. *)
Lemma parse_markdown_bare_bullet (b : Z) (ws marker : str) (indent : bool) :
  is_bullet b = true -> blank_tail ws = true -> marker <> [b] ->
  parse_markdown (b :: ws) indent marker = [Block p [b]].
Proof.
  intros Hb Hws Hm.
  destruct (blank_tail_split ws Hws) as (Hsp & Hnl & Hcr).
  assert (Hbs : isspace b = false /\ is_hash b = false /\ is_digit b = false
                /\ (b =? NL) = false /\ (b =? CR) = false).
  { destruct (is_bullet_cases b Hb) as [->|[->|[->|[->|[->| ->]]]]];
      repeat split; reflexivity. }
  destruct Hbs as (Hb1 & Hb2 & Hb3 & Hb4 & Hb5).
  unfold parse_markdown.
  rewrite (replace_avoid CR [NL] [NL] (b :: ws)) by (simpl; now rewrite Hb5).
  rewrite (replace_avoid CR [] [NL] (b :: ws)) by (simpl; now rewrite Hb5).
  rewrite split_no_sep by (simpl; now rewrite Hb4).
  assert (Hr : rstrip (b :: ws) = [b]).
  { simpl. now rewrite (rstrip_blank ws Hsp), Hb1. }
  assert (Hs : strip (b :: ws) = [b]).
  { unfold strip. rewrite Hr. simpl. now rewrite Hb1. }
  assert (Hh : H2_RE (b :: ws) = None).
  { unfold H2_RE. simpl lstrip. rewrite Hb1.
    unfold h2_numbered. rewrite Hb2, Hb3. simpl. now destruct ws. }
  assert (Hl : LI_RE (b :: ws) = Some []).
  { unfold LI_RE. simpl lstrip. rewrite Hb1, Hb. now rewrite lstrip_blank. }
  cbn [parse_lines]. rewrite Hs, Hh, Hl.
  destruct (str_eqb [b] marker) eqn:E.
  - apply str_eqb_eq in E. congruence.
  - cbn [join]. now rewrite Hr.
Qed.

(** C5. [parse_markdown] makes a line that is a bullet glyph with nothing
    but blanks after it (such as ["- "]) a paragraph block, not a list
    item, and makes ["- hello"] a list item with text ["・hello"]: the
    bullet replaced by the canonical glyph, trailing whitespace trimmed. *)
Theorem parse_markdown_list_item_guard (b : Z) (ws marker : str) (indent : bool) :
  is_bullet b = true -> blank_tail ws = true -> marker <> [b] ->
  parse_markdown (b :: ws) indent marker = [Block p [b]]
  /\ parse_markdown (lit "- ") indent newpage_marker = [Block p (lit "-")]
  /\ parse_markdown (lit "- hello") indent newpage_marker
     = [Block li (BULLET :: lit "hello")]
  /\ parse_markdown (lit "* hello  ") indent newpage_marker
     = [Block li (BULLET :: lit "hello")].
Proof.
  intros Hb Hws Hm.
  split; [now apply parse_markdown_bare_bullet|].
  repeat split; reflexivity.
Qed.

Lemma parse_markdown_list_item_guard_witness :
  parse_markdown (8226 :: [SPACE; 9; FULLWIDTH_SPACE]) false newpage_marker
  = [Block p [8226]].
Proof.
  apply (parse_markdown_list_item_guard 8226 [SPACE; 9; FULLWIDTH_SPACE]
           newpage_marker false); [reflexivity | reflexivity | discriminate].
Defined.

(** ** Settings *)

Lemma lit_inj (a b : string) : lit a = lit b -> a = b.
Proof.
  revert b. induction a as [|x a IH]; intros [|y b]; simpl; try discriminate.
  - reflexivity.
  - intros H. injection H as H1 H2. f_equal; [|now apply IH].
    apply N2Z.inj in H1.
    rewrite <- (ascii_N_embedding x), <- (ascii_N_embedding y). now f_equal.
Qed.

Lemma str_of_nat_inj (n m : nat) : str_of_nat n = str_of_nat m -> n = m.
Proof.
  unfold str_of_nat. intros H. apply lit_inj in H.
  assert (E : Nat.to_uint n = Nat.to_uint m).
  { apply (f_equal NilEmpty.uint_of_string) in H.
    rewrite !NilEmpty.usu in H. now injection H. }
  apply (f_equal Nat.of_uint) in E.
  now rewrite !DecimalNat.Unsigned.of_to in E.
Qed.





(** ** The flow engine *)

Lemma bind_Ok_inv {A B : Type} (r : result A) (k : A -> result B) (b : B) :
  bind r k = Ok b -> exists a, r = Ok a /\ k a = Ok b.
Proof. destruct r as [a|e]; simpl; intros H; [eauto | discriminate]. Qed.

Ltac inv_bind H :=
  let x := fresh "x" in
  let Hx := fresh "Hx" in
  apply bind_Ok_inv in H as (x & Hx & H).



Section FlowEngineProps.

Context {St Handle : Type}.
Variable limits_func : nat -> result (Z * Z).
Variable get_page : nat -> St -> result (Handle * St).
Variable add_line_text : Handle -> str -> block_type -> St -> St.
Variable indent_fullwidth : bool.

Local Arguments prepare_lines : simpl never.

Lemma prepare_lines_length (ty : block_type) (lines : list str) :
  List.length (prepare_lines indent_fullwidth ty lines) = List.length lines.
Proof.
  unfold prepare_lines.
  destruct ty; try (destruct indent_fullwidth); now rewrite ?length_map.
Qed.

(** *** The recording loops compute what the plain loops compute *)

Lemma estimate_lines_on_erase (lines : list str) :
  forall page_idx used,
    estimate_lines limits_func lines page_idx used
    = bind (estimate_lines_on limits_func lines page_idx used)
        (fun '(pi, u, _) => Ok (pi, u)).
Proof.
  induction lines as [|l lines IH]; intros page_idx used; simpl; [reflexivity|].
  destruct (limits_func page_idx) as [[m c]|e]; simpl; [|reflexivity].
  destruct (Z.of_nat used >=? m); rewrite IH;
    match goal with
    | |- context [estimate_lines_on ?f ?l ?a ?b] =>
        destruct (estimate_lines_on f l a b) as [[[pi u] on]|e]
    end; reflexivity.
Qed.

Lemma estimate_blocks_on_erase (blocks : list block) :
  forall page_idx used,
    estimate_blocks limits_func blocks page_idx used
    = bind (estimate_blocks_on limits_func blocks page_idx used)
        (fun '(pi, u, _) => Ok (pi, u)).
Proof.
  induction blocks as [|blk blocks IH]; intros page_idx used; simpl;
    [reflexivity|].
  destruct (type blk);
    [ rewrite IH;
      destruct (estimate_blocks_on limits_func blocks (page_idx + 1) 0)
        as [[[pi u] on]|e]; reflexivity | | | ];
    (destruct (limits_func page_idx) as [[m c]|e]; simpl; [|reflexivity];
     rewrite estimate_lines_on_erase;
     destruct (estimate_lines_on limits_func (wrapped_lines (text blk) c)
                 page_idx used) as [[[pi u] on]|e]; simpl; [|reflexivity];
     rewrite IH;
     destruct (estimate_blocks_on limits_func blocks pi u)
       as [[[pi' u'] on']|e]; reflexivity).
Qed.

Lemma commit_lines_rec_erase (ty : block_type) (lines : list str) :
  forall page_idx used st,
    commit_lines limits_func get_page add_line_text ty lines page_idx used st
    = bind (commit_lines_rec limits_func get_page add_line_text ty lines
              page_idx used st)
        (fun '(pi, u, st', _) => Ok (pi, u, st')).
Proof.
  induction lines as [|l lines IH]; intros page_idx used st; simpl;
    [reflexivity|].
  destruct (limits_func page_idx) as [[m c]|e]; simpl; [|reflexivity].
  destruct (Z.of_nat used >=? m); simpl.
  - destruct (get_page (page_idx + 1)%nat st) as [[h st1]|e]; simpl;
      [|reflexivity].
    destruct (get_page (page_idx + 1)%nat st1) as [[el st2]|e]; simpl;
      [|reflexivity].
    rewrite IH.
    match goal with
    | |- context [commit_lines_rec ?f ?g ?a ?t ?l ?x ?y ?z] =>
        destruct (commit_lines_rec f g a t l x y z) as [[[[pi u] st'] pl]|e]
    end; reflexivity.
  - destruct (get_page page_idx st) as [[el st2]|e]; simpl; [|reflexivity].
    rewrite IH.
    match goal with
    | |- context [commit_lines_rec ?f ?g ?a ?t ?l ?x ?y ?z] =>
        destruct (commit_lines_rec f g a t l x y z) as [[[[pi u] st'] pl]|e]
    end; reflexivity.
Qed.

Lemma commit_blocks_rec_erase (blocks : list block) :
  forall page_idx used st,
    commit_blocks limits_func get_page add_line_text indent_fullwidth
      blocks page_idx used st
    = bind (commit_blocks_rec limits_func get_page add_line_text
              indent_fullwidth blocks page_idx used st)
        (fun '(pi, u, st', _) => Ok (pi, u, st')).
Proof.
  induction blocks as [|blk blocks IH]; intros page_idx used st; simpl;
    [reflexivity|].
  destruct (type blk);
    [ destruct (get_page (page_idx + 1)%nat st) as [[h st1]|e]; simpl;
      [apply IH | reflexivity] | | | ];
    (destruct (limits_func page_idx) as [[m c]|e]; simpl; [|reflexivity];
     rewrite commit_lines_rec_erase;
     match goal with
     | |- context [commit_lines_rec ?f ?g ?a ?t ?l ?x ?y ?z] =>
         destruct (commit_lines_rec f g a t l x y z) as [[[[pi u] st'] pl]|e]
     end; simpl; [|reflexivity];
     rewrite IH;
     match goal with
     | |- context [commit_blocks_rec ?f ?g ?a ?i ?l ?x ?y ?z] =>
         destruct (commit_blocks_rec f g a i l x y z) as [[[[pi' u'] st''] pl']|e]
     end; reflexivity).
Qed.

Lemma commit_blocks_recorded (blocks : list block) (st st' : St)
    (page_idx used pi u : nat) :
  commit_blocks limits_func get_page add_line_text indent_fullwidth
    blocks page_idx used st = Ok (pi, u, st') ->
  exists placed,
    commit_blocks_rec limits_func get_page add_line_text indent_fullwidth
      blocks page_idx used st = Ok (pi, u, st', placed).
Proof.
  rewrite commit_blocks_rec_erase. intros H.
  destruct (commit_blocks_rec _ _ _ _ _ _ _ _) as [[[[a b] c] d]|e];
    simpl in H; [|discriminate].
  injection H as -> -> ->. now exists d.
Qed.

(** *** The two passes follow the same cursor *)

Lemma commit_lines_rec_estimate (ty : block_type) (lines : list str) :
  forall lines0 page_idx used st pi u st' placed,
    List.length lines0 = List.length lines ->
    commit_lines_rec limits_func get_page add_line_text ty lines
      page_idx used st = Ok (pi, u, st', placed) ->
    estimate_lines_on limits_func lines0 page_idx used
    = Ok (pi, u, map pl_page placed).
Proof.
  induction lines as [|l lines IH];
    intros [|l0 lines0] page_idx used st pi u st' placed Hlen H;
    simpl in Hlen; try discriminate.
  - simpl in H. injection H as <- <- <- <-. reflexivity.
  - injection Hlen as Hlen. simpl in H |- *.
    destruct (limits_func page_idx) as [[m c]|e]; simpl in H |- *;
      [|discriminate].
    destruct (Z.of_nat used >=? m); simpl in H.
    + destruct (get_page (page_idx + 1)%nat st) as [[h st1]|e]; simpl in H;
        [|discriminate].
      destruct (get_page (page_idx + 1)%nat st1) as [[el st2]|e]; simpl in H;
        [|discriminate].
      inv_bind H. destruct x as [[[a b] c'] d].
      injection H as <- <- <- <-.
      rewrite (IH _ _ _ _ _ _ _ _ Hlen Hx). reflexivity.
    + destruct (get_page page_idx st) as [[el st2]|e]; simpl in H;
        [|discriminate].
      inv_bind H. destruct x as [[[a b] c'] d].
      injection H as <- <- <- <-.
      rewrite (IH _ _ _ _ _ _ _ _ Hlen Hx). reflexivity.
Qed.

Lemma commit_blocks_rec_estimate (blocks : list block) :
  forall page_idx used st pi u st' placed,
    commit_blocks_rec limits_func get_page add_line_text indent_fullwidth
      blocks page_idx used st = Ok (pi, u, st', placed) ->
    estimate_blocks_on limits_func blocks page_idx used
    = Ok (pi, u, map pl_page placed).
Proof.
  induction blocks as [|blk blocks IH];
    intros page_idx used st pi u st' placed H; simpl in H |- *.
  - injection H as <- <- <- <-. reflexivity.
  - destruct (type blk) eqn:Ety.
    1:{ inv_bind H. destruct x as [h st1]. eauto. }
    all: inv_bind H; destruct x as [m c]; rewrite Hx; simpl;
      inv_bind H; destruct x as [[[pi1 u1] st1] placed1];
      inv_bind H; destruct x as [[[pi2 u2] st2] placed2];
      injection H as <- <- <- <-;
      rewrite (commit_lines_rec_estimate _ _ (wrapped_lines (text blk) c)
                 _ _ _ _ _ _ _ (eq_sym (prepare_lines_length _ _)) Hx0);
      simpl; rewrite (IH _ _ _ _ _ _ _ Hx1); simpl;
      now rewrite map_app.
Qed.

(** With a provisioner that does not fail, the commit pass completes
    wherever the estimation does. *)
Lemma estimate_lines_on_commit (ty : block_type) (lines0 : list str) :
  (forall idx s, exists h s', get_page idx s = Ok (h, s')) ->
  forall lines page_idx used st pi u on,
    List.length lines = List.length lines0 ->
    estimate_lines_on limits_func lines0 page_idx used = Ok (pi, u, on) ->
    exists st' placed,
      commit_lines_rec limits_func get_page add_line_text ty lines
        page_idx used st = Ok (pi, u, st', placed).
Proof.
  intros Hgp.
  induction lines0 as [|l0 lines0 IH];
    intros [|l lines] page_idx used st pi u on Hlen H;
    simpl in Hlen; try discriminate.
  - simpl in H |- *. injection H as <- <- <-. eauto.
  - injection Hlen as Hlen. simpl in H |- *.
    destruct (limits_func page_idx) as [[m c]|e]; simpl in H |- *;
      [|discriminate].
    destruct (Z.of_nat used >=? m); simpl.
    + destruct (Hgp (page_idx + 1)%nat st) as (h & st1 & ->). simpl.
      destruct (Hgp (page_idx + 1)%nat st1) as (el & st2 & ->). simpl.
      inv_bind H. destruct x as [[a b] c']. injection H as <- <- <-.
      destruct (IH lines _ _ (add_line_text el l ty st2) _ _ _ Hlen Hx)
        as (st' & placed & ->).
      simpl. eauto.
    + destruct (Hgp page_idx st) as (el & st2 & ->). simpl.
      inv_bind H. destruct x as [[a b] c']. injection H as <- <- <-.
      destruct (IH lines _ _ (add_line_text el l ty st2) _ _ _ Hlen Hx)
        as (st' & placed & ->).
      simpl. eauto.
Qed.

Lemma estimate_blocks_on_commit (blocks : list block) :
  (forall idx s, exists h s', get_page idx s = Ok (h, s')) ->
  forall page_idx used st pi u on,
    estimate_blocks_on limits_func blocks page_idx used = Ok (pi, u, on) ->
    exists st' placed,
      commit_blocks_rec limits_func get_page add_line_text indent_fullwidth
        blocks page_idx used st = Ok (pi, u, st', placed).
Proof.
  intros Hgp.
  induction blocks as [|blk blocks IH];
    intros page_idx used st pi u on H; simpl in H |- *.
  - injection H as <- <- <-. eauto.
  - destruct (type blk) eqn:Ety.
    1:{ destruct (Hgp (page_idx + 1)%nat st) as (h & st1 & ->). simpl. eauto. }
    all: inv_bind H; destruct x as [m c]; rewrite Hx; simpl;
      inv_bind H; destruct x as [[pi1 u1] on1];
      inv_bind H; destruct x as [[pi2 u2] on2];
      injection H as <- <- <-;
      match goal with
      | |- context [commit_lines_rec _ _ _ ?ty ?ls _ _ _] =>
          destruct (estimate_lines_on_commit ty _ Hgp ls page_idx used st
                      _ _ _ (prepare_lines_length _ _) Hx0)
            as (st1 & placed1 & ->)
      end; simpl;
      destruct (IH _ _ st1 _ _ _ Hx1) as (st2 & placed2 & ->); simpl; eauto.
Qed.

(** C1. The estimation pass and the commit pass derive the same page
    boundaries: when the commit loop ends at [page_idx], the estimation
    returns [page_idx + 1] and counts every wrapped line on the page index
    at which the commit pass places it; and with a page provisioner that
    does not fail the commit loop ends wherever the estimation returns. *)
Theorem pass_agreement (blocks : list block) (st : St) :
  (forall pi u st',
      commit_blocks limits_func get_page add_line_text indent_fullwidth
        blocks 0 0 st = Ok (pi, u, st') ->
      _estimate_required_pages limits_func blocks = Ok (pi + 1)%nat
      /\ exists placed,
           commit_blocks_rec limits_func get_page add_line_text
             indent_fullwidth blocks 0 0 st = Ok (pi, u, st', placed)
           /\ estimate_blocks_on limits_func blocks 0 0
              = Ok (pi, u, map pl_page placed))
  /\ ((forall idx s, exists h s', get_page idx s = Ok (h, s')) ->
      forall n,
        _estimate_required_pages limits_func blocks = Ok n ->
        exists pi u st',
          commit_blocks limits_func get_page add_line_text indent_fullwidth
            blocks 0 0 st = Ok (pi, u, st')
          /\ n = (pi + 1)%nat).
Proof.
  split.
  - intros pi u st' H.
    destruct (commit_blocks_recorded _ _ _ _ _ _ _ H) as (placed & Hrec).
    pose proof (commit_blocks_rec_estimate _ _ _ _ _ _ _ _ Hrec) as Hest.
    split; [|eauto].
    unfold _estimate_required_pages.
    rewrite estimate_blocks_on_erase, Hest. reflexivity.
  - intros Hgp n H. unfold _estimate_required_pages in H.
    rewrite estimate_blocks_on_erase in H.
    destruct (estimate_blocks_on limits_func blocks 0 0)
      as [[[pi u] on]|e] eqn:Hest; simpl in H; [|discriminate].
    injection H as <-.
    destruct (estimate_blocks_on_commit blocks Hgp 0%nat 0%nat st _ _ _ Hest)
      as (st' & placed & Hrec).
    exists pi, u, st'. split; [|reflexivity].
    rewrite commit_blocks_rec_erase, Hrec. reflexivity.
Qed.

(** *** Page budgets in the commit pass *)








End FlowEngineProps.

(** ** Scenarios *)

Lemma scenario_limits_const (idx : nat) : scenario_limits idx = Ok (2, 10).
Proof.
  unfold scenario_limits, limits, scenario_settings.
  cbn [getitem dict_lookup dict_get bind].
  change (str_eqb (lit "lines_per_page") (lit "lines_per_page")) with true.
  change (str_eqb (lit "lines_per_page") (lit "cols_per_line")) with false.
  change (str_eqb (lit "cols_per_line") (lit "cols_per_line")) with true.
  cbn [bind dict_get dict_lookup].
  change (str_eqb (lit "default") (lit "default")) with true.
  change (lit "default") with (100 :: lit "efault").
  change (lit "p") with [112].
  cbn [bind dict_get dict_lookup str_eqb app Z.eqb Pos.eqb andb].
  reflexivity.
Qed.

Lemma pass_agreement_witness :
  _estimate_required_pages scenario_limits
    (parse_markdown scenario_src false newpage_marker) = Ok 3%nat.
Proof.
  refine (proj1 (proj1 (pass_agreement scenario_limits sheets_get_page
                          sheets_add_line_text false
                          (parse_markdown scenario_src false newpage_marker) [])
                   2%nat 2%nat
                   [(0%nat, lit "Title"); (0%nat, []);
                    (1%nat, lit "Body text"); (1%nat, lit "- item one");
                    (2%nat, lit "- item two"); (2%nat, [])] _)).
  vm_compute. reflexivity.
Defined.


Lemma scenario_blocks_not_five :
  parse_markdown scenario_src false newpage_marker
  <> [ Block h2 (lit "Title"); Block p []; Block p (lit "Body text");
       Block li (BULLET :: lit "item one"); Block li (BULLET :: lit "item two") ].
Proof. vm_compute. discriminate. Qed.

(** C3, amended. Parsing the scenario source with the marker [\newpage]
    yields three blocks: the heading ["Title"], one paragraph that starts
    at the blank line and runs to the end of the text (a line feed,
    ["Body text"] and the two bullet lines), and an empty paragraph for
    the final blank line; with 2 lines of 10 columns on every page the
    engine needs 3 pages, and placement moves to the next page each time
    a page has accumulated 2 lines. *)
Theorem scenario_blocks_and_flow (indent : bool) :
  parse_markdown scenario_src indent newpage_marker
  = [ Block h2 (lit "Title");
      Block p (NL :: lit "Body text" ++ NL :: lit "- item one"
                  ++ NL :: lit "- item two");
      Block p [] ]
  /\ _estimate_required_pages scenario_limits
       (parse_markdown scenario_src indent newpage_marker) = Ok 3%nat
  /\ commit_blocks_rec scenario_limits sheets_get_page sheets_add_line_text false
       (parse_markdown scenario_src indent newpage_marker) 0 0 []
     = Ok (2%nat, 2%nat,
           [(0%nat, lit "Title"); (0%nat, []);
            (1%nat, lit "Body text"); (1%nat, lit "- item one");
            (2%nat, lit "- item two"); (2%nat, [])],
           [ Placement 0 0 (lit "Title") h2; Placement 0 1 [] p;
             Placement 1 0 (lit "Body text") p;
             Placement 1 1 (lit "- item one") p;
             Placement 2 0 (lit "- item two") p; Placement 2 1 [] p ]).
Proof.
  assert (E : parse_markdown scenario_src indent newpage_marker
              = parse_markdown scenario_src false newpage_marker)
    by reflexivity.
  rewrite E. repeat split; vm_compute; reflexivity.
Qed.

Lemma empty_source_not_empty_blocks :
  parse_markdown [] false newpage_marker <> [].
Proof. vm_compute. discriminate. Qed.

(** C4, amended. For empty source text and a non-empty page-break marker
    [parse_markdown] returns the single block [Paragraph("")]; the
    estimation pass yields page count 1 with no line counted on an empty
    block sequence, and page count 1 with one empty line counted on page
    index 0 on the blocks of the empty source, when the first page has at
    least one line. *)
Theorem empty_source_one_page (limits_func : nat -> result (Z * Z))
    (marker : str) (indent : bool) (lp cp : Z) :
  marker <> [] -> limits_func 0%nat = Ok (lp, cp) -> 1 <= lp ->
  parse_markdown [] indent marker = [Block p []]
  /\ _estimate_required_pages limits_func [] = Ok 1%nat
  /\ estimate_blocks_on limits_func [] 0 0 = Ok (0%nat, 0%nat, [])
  /\ _estimate_required_pages limits_func (parse_markdown [] indent marker)
     = Ok 1%nat
  /\ estimate_blocks_on limits_func (parse_markdown [] indent marker) 0 0
     = Ok (0%nat, 1%nat, [0%nat]).
Proof.
  intros Hm Hl Hlp.
  assert (E : parse_markdown [] indent marker = [Block p []]).
  { unfold parse_markdown. cbn.
    destruct marker as [|c m]; [congruence | reflexivity]. }
  rewrite E.
  assert (Hest : estimate_blocks_on limits_func [Block p []] 0 0
                 = Ok (0%nat, 1%nat, [0%nat])).
  { cbn [estimate_blocks_on type text]. rewrite Hl. cbn [bind].
    change (wrapped_lines [] cp) with [@nil Z].
    cbn [estimate_lines_on]. rewrite Hl. cbn [bind].
    destruct (Z.geb_spec (Z.of_nat 0) lp) as [Hge|Hlt]; [simpl in Hge; lia|].
    reflexivity. }
  repeat split; try reflexivity.
  - unfold _estimate_required_pages.
    rewrite estimate_blocks_on_erase, Hest. reflexivity.
  - exact Hest.
Qed.

Lemma empty_source_one_page_witness :
  parse_markdown [] false newpage_marker = [Block p []]
  /\ _estimate_required_pages scenario_limits
       (parse_markdown [] false newpage_marker) = Ok 1%nat.
Proof.
  destruct (empty_source_one_page scenario_limits newpage_marker false 2 10)
    as (H1 & _ & _ & H4 & _);
    [discriminate | apply scenario_limits_const | lia |].
  split; assumption.
Defined.

(** ** The document model *)

Lemma nth_error_update_nth_same {A : Type} (f : A -> A) (l : list A) (i : nat) :
  nth_error (update_nth i f l) i = option_map f (nth_error l i).
Proof.
  revert i. induction l as [|x l IH]; intros [|i]; simpl; auto.
Qed.

Lemma nth_error_update_nth_other {A : Type} (f : A -> A) (l : list A) (i j : nat) :
  i <> j -> nth_error (update_nth i f l) j = nth_error l j.
Proof.
  revert i j. induction l as [|x l IH]; intros [|i] [|j] H; simpl; auto;
    congruence.
Qed.

Lemma update_nth_app_last {A : Type} (f : A -> A) (l : list A) (x : A) :
  update_nth (List.length l) f (l ++ [x]) = l ++ [f x].
Proof. induction l as [|y l IH]; simpl; [reflexivity | now rewrite IH]. Qed.

Lemma attr_get_set_same (a : list (name * str)) (k : name) (v : str) :
  attr_get (attr_set a k v) k = Some v.
Proof.
  induction a as [|[k' v'] a IH]; simpl.
  - now rewrite String.eqb_refl.
  - destruct (String.eqb k' k) eqn:E; simpl; now rewrite E.
Qed.

Lemma attr_get_set_other (a : list (name * str)) (k k0 : name) (v : str) :
  k <> k0 -> attr_get (attr_set a k v) k0 = attr_get a k0.
Proof.
  intros Hne. induction a as [|[k' v'] a IH]; simpl.
  - destruct (String.eqb_spec k k0); [congruence | reflexivity].
  - destruct (String.eqb_spec k' k) as [->|Hk]; simpl.
    + destruct (String.eqb_spec k k0); [congruence | reflexivity].
    + now rewrite IH.
Qed.

(** *** Searches *)

Lemma find_desc_children (P : element -> bool) (e : element) :
  find_desc P e = find_in (find_desc P) P (children e) 0.
Proof. now destruct e. Qed.

Lemma find_in_app (below : element -> option path) (P : element -> bool)
    (cs cs' : list element) :
  forall k,
    find_in below P (cs ++ cs') k
    = match find_in below P cs k with
      | Some r => Some r
      | None => find_in below P cs' (k + List.length cs)
      end.
Proof.
  induction cs as [|c cs IH]; intros k; simpl.
  - now rewrite Nat.add_0_r.
  - destruct (P c); [reflexivity|].
    destruct (below c); [reflexivity|].
    rewrite IH. now rewrite Nat.add_succ_comm.
Qed.

Lemma find_in_none (below : element -> option path) (P : element -> bool)
    (cs : list element) :
  Forall (fun c => P c = false /\ below c = None) cs ->
  forall k, find_in below P cs k = None.
Proof.
  induction 1 as [|c cs [H1 H2] _ IH]; intros k; simpl; [reflexivity|].
  now rewrite H1, H2.
Qed.

Lemma find_in_update_nth (below : element -> option path) (P : element -> bool)
    (g : element -> element) (cs : list element) :
  (forall c, P (g c) = P c /\ below (g c) = below c) ->
  forall i k, find_in below P (update_nth i g cs) k = find_in below P cs k.
Proof.
  intros Hg. induction cs as [|c cs IH]; intros [|i] k; simpl; auto.
  - destruct (Hg c) as [-> ->]. reflexivity.
  - now rewrite IH.
Qed.

Lemma find_in_some (below : element -> option path) (P : element -> bool)
    (cs : list element) :
  forall k r,
    find_in below P cs k = Some r ->
    exists i c q,
      r = (k + i)%nat :: q
      /\ nth_error cs i = Some c
      /\ ((q = [] /\ P c = true) \/ (P c = false /\ below c = Some q)).
Proof.
  induction cs as [|c cs IH]; intros k r H; simpl in H; [discriminate|].
  destruct (P c) eqn:HP.
  - injection H as <-. exists 0%nat, c, []. rewrite Nat.add_0_r. auto.
  - destruct (below c) as [q|] eqn:Hb.
    + injection H as <-. exists 0%nat, c, q. rewrite Nat.add_0_r. auto.
    + destruct (IH _ _ H) as (i & c' & q & -> & Hn & Hc).
      exists (S i), c', q. rewrite Nat.add_succ_comm. auto.
Qed.

Lemma find_desc_leaf (P : element -> bool) (c : element) :
  children c = [] -> find_desc P c = None.
Proof. intros H. now rewrite find_desc_children, H. Qed.

(** A path found by a search leads to an element that satisfies the
    predicate, and is not the empty path. *)
Lemma find_desc_some (P : element -> bool) :
  forall q e,
    find_desc P e = Some q ->
    q <> [] /\ exists x, get_at e q = Some x /\ P x = true.
Proof.
  induction q as [|i q IH]; intros e H;
    rewrite find_desc_children in H;
    destruct (find_in_some _ _ _ _ _ H) as (j & c & q' & E & Hn & Hc);
    [discriminate|].
  injection E as -> ->. simpl in *. split; [discriminate|].
  rewrite Hn.
  destruct Hc as [[-> HP]|[HP Hb]].
  - exists c. auto.
  - destruct (IH _ Hb) as (_ & x & Hx & HPx). eauto.
Qed.

(** *** Changes that leave the searches in place *)

Lemma same_shape_refl (e : element) : same_shape e e.
Proof. repeat split. Qed.

Lemma same_shape_trans (a b c : element) :
  same_shape a b -> same_shape b c -> same_shape a c.
Proof.
  intros (H1 & H2 & H3) (K1 & K2 & K3). repeat split; congruence.
Qed.

Lemma shape_pred_same (P : element -> bool) (e e' : element) :
  shape_pred P -> same_shape e e' -> P e' = P e.
Proof. intros HP (H1 & H2 & H3). now apply HP. Qed.

Lemma shape_pred_layer (label : str) : shape_pred (is_layer_labelled label).
Proof.
  intros e e' Ht Hl Hg. unfold is_layer_labelled. now rewrite Ht, Hl, Hg.
Qed.

Lemma shape_pred_text (label : str) : shape_pred (is_text_labelled label).
Proof.
  intros e e' Ht Hl Hg. unfold is_text_labelled. now rewrite Ht, Hl.
Qed.

Lemma shape_pred_namedview :
  shape_pred (fun e => String.eqb (tag e) SODI_NAMEDVIEW).
Proof. intros e e' Ht Hl Hg. now rewrite Ht. Qed.

Lemma update_at_same_shape (P : element -> bool) (f : element -> element) :
  benign P f -> forall q e, same_shape e (update_at f e q).
Proof.
  intros Hf [|i q] e; simpl.
  - apply Hf.
  - repeat split.
Qed.

(** A benign change anywhere in the tree leaves every search where it
    was. *)
Lemma find_desc_update_at (P : element -> bool) (f : element -> element) :
  shape_pred P -> benign P f ->
  forall q e, find_desc P (update_at f e q) = find_desc P e.
Proof.
  intros HP Hf. induction q as [|i q IH]; intros e; simpl.
  - rewrite !find_desc_children.
    destruct (Hf e) as (_ & extra & -> & Hex).
    rewrite find_in_app.
    destruct (find_in (find_desc P) P (children e) 0); [reflexivity|].
    apply find_in_none.
    eapply Forall_impl; [|exact Hex].
    intros c [H1 H2]. split; [exact H1 | now apply find_desc_leaf].
  - rewrite (find_desc_children P e). simpl.
    apply find_in_update_nth.
    intros c. split; [|apply IH].
    apply (shape_pred_same P c _ HP), (update_at_same_shape P f Hf).
Qed.

Lemma get_at_update_at (P : element -> bool) (f : element -> element) :
  benign P f ->
  forall q r e x,
    get_at e q = Some x ->
    exists x',
      get_at (update_at f e r) q = Some x'
      /\ (x' = x \/ exists r', x' = update_at f x r').
Proof.
  intros Hf. induction q as [|i q IH]; intros r e x H; simpl in H.
  - injection H as <-. exists (update_at f e r). split; [reflexivity|].
    right. now exists r.
  - destruct (nth_error (children e) i) as [c|] eqn:Hn; [|discriminate].
    destruct r as [|j r]; simpl.
    + destruct (Hf e) as (_ & extra & -> & _).
      rewrite nth_error_app1 by (apply nth_error_Some; congruence).
      rewrite Hn. exists x. auto.
    + destruct (Nat.eq_dec j i) as [->|Hne].
      * rewrite nth_error_update_nth_same, Hn. simpl. now apply IH.
      * rewrite nth_error_update_nth_other by exact Hne.
        rewrite Hn. exists x. auto.
Qed.

(** The layer [find_layer_by_label] finds under the label [p2] is a
    pattern layer. *)
Lemma find_layer_by_label_pattern (d : element) (q : path) :
  find_layer_by_label d (lit "p2") = Some q -> pattern_layer q d.
Proof.
  intros H. destruct (find_desc_some _ _ _ H) as (_ & x & Hx & HP).
  now exists x.
Qed.

Lemma get_at_update_at_same (f : element -> element) :
  forall q e x,
    get_at e q = Some x -> get_at (update_at f e q) q = Some (f x).
Proof.
  induction q as [|i q IH]; intros e x H; simpl in *.
  - now injection H as <-.
  - destruct (nth_error (children e) i) as [c|] eqn:Hn; [|discriminate].
    rewrite nth_error_update_nth_same, Hn. simpl. now apply IH.
Qed.

Lemma harmless_benign (P : element -> bool) (f : element -> element) :
  rejects_pages P -> harmless f -> benign P f.
Proof.
  intros HP Hf x. destruct (Hf x) as (Hs & extra & Hc & Hex).
  split; [exact Hs|]. exists extra. split; [exact Hc|].
  eapply Forall_impl; [|exact Hex].
  intros c [Ht Hch]. split; [now apply HP | exact Hch].
Qed.

Lemma rejects_pages_layer (label : str) : rejects_pages (is_layer_labelled label).
Proof. intros e He. unfold is_layer_labelled. now rewrite He. Qed.

Lemma rejects_pages_text (label : str) : rejects_pages (is_text_labelled label).
Proof.
  intros e He. unfold is_text_labelled. rewrite He. simpl.
  apply andb_false_r.
Qed.

Lemma rejects_pages_namedview :
  rejects_pages (fun e => String.eqb (tag e) SODI_NAMEDVIEW).
Proof. intros e He. now rewrite He. Qed.

Lemma harmless_el_set (k : name) (v : element -> str) :
  k <> INK_LABEL -> k <> INK_GROUPMODE -> harmless (fun l => el_set k (v l) l).
Proof.
  intros H1 H2 x. split.
  - repeat split; unfold el_get, el_set; simpl;
      now rewrite attr_get_set_other.
  - exists []. simpl. now rewrite app_nil_r.
Qed.

Lemma grown_trans (a b c : element) : grown a b -> grown b c -> grown a c.
Proof.
  induction 1 as [|f q e e' Hf H IH]; intros Hc; [exact Hc|].
  eapply grown_step; eauto.
Qed.

Lemma grown_one (f : element -> element) (q : path) (e : element) :
  harmless f -> grown e (update_at f e q).
Proof. intros Hf. eapply grown_step; [exact Hf | apply grown_refl]. Qed.

Lemma grown_same_shape (e e' : element) : grown e e' -> same_shape e e'.
Proof.
  induction 1 as [|f q e e' Hf H IH]; [apply same_shape_refl|].
  eapply same_shape_trans; [|exact IH].
  apply (update_at_same_shape (fun _ => false) f).
  apply harmless_benign; [easy | exact Hf].
Qed.

Lemma grown_find_desc (P : element -> bool) (e e' : element) :
  shape_pred P -> rejects_pages P -> grown e e' ->
  find_desc P e' = find_desc P e.
Proof.
  intros HP HR. induction 1 as [|f q e e' Hf H IH]; [reflexivity|].
  rewrite IH. apply find_desc_update_at; [exact HP|].
  now apply harmless_benign.
Qed.

Lemma grown_get_at (e e' : element) :
  grown e e' ->
  forall q x,
    get_at e q = Some x -> exists x', get_at e' q = Some x' /\ grown x x'.
Proof.
  induction 1 as [|f r e e' Hf H IH]; intros q x Hx.
  - exists x. split; [exact Hx | apply grown_refl].
  - destruct (get_at_update_at (fun _ => false) f
                (harmless_benign _ _ ltac:(easy) Hf) q r e x Hx)
      as (x1 & Hx1 & Hrel).
    destruct (IH _ _ Hx1) as (x' & Hx' & Hg).
    exists x'. split; [exact Hx'|].
    destruct Hrel as [->|(r' & ->)]; [exact Hg|].
    eapply grown_step; eauto.
Qed.

Lemma grown_find_pre_text (label : str) (e e' : element) :
  grown e e' -> find_pre_text e' label = find_pre_text e label.
Proof.
  intros H. unfold find_pre_text, find_layer_by_label, find_text_by_label.
  rewrite (grown_find_desc _ _ _ (shape_pred_layer label)
             (rejects_pages_layer label) H).
  destruct (find_desc (is_layer_labelled label) e) as [lp|] eqn:E;
    [|reflexivity].
  destruct (find_desc_some _ _ _ E) as (_ & x & Hx & _).
  destruct (grown_get_at _ _ H _ _ Hx) as (x' & Hx' & Hg).
  rewrite Hx, Hx'.
  now rewrite (grown_find_desc _ _ _ (shape_pred_text label)
                 (rejects_pages_text label) Hg).
Qed.

Lemma grown_namedview (e e' : element) :
  grown e e' -> _namedview e' = _namedview e.
Proof.
  intros H. unfold _namedview.
  destruct (grown_same_shape _ _ H) as (-> & _).
  now rewrite (grown_find_desc _ _ _ shape_pred_namedview
                 rejects_pages_namedview H).
Qed.

(** Appending an element to the root leaves the elements below the root
    where they were. *)
Lemma get_at_el_append (c e x : element) (q : path) :
  q <> [] -> get_at e q = Some x -> get_at (el_append c e) q = Some x.
Proof.
  destruct q as [|i q]; [congruence|]. intros _ H. simpl in *.
  destruct (nth_error (children e) i) as [y|] eqn:Hn; [|discriminate].
  rewrite nth_error_app1 by (apply nth_error_Some; congruence).
  now rewrite Hn.
Qed.

Lemma get_at_el_append_new (c e : element) :
  get_at (el_append c e) [List.length (children e)] = Some c.
Proof.
  simpl. rewrite nth_error_app2 by lia. now rewrite Nat.sub_diag.
Qed.

Lemma find_desc_el_append (P : element -> bool) (c e : element) :
  find_desc P (el_append c e)
  = match find_desc P e with
    | Some r => Some r
    | None =>
        if P c then Some [List.length (children e)]
        else
          match find_desc P c with
          | Some q => Some (List.length (children e) :: q)
          | None => None
          end
    end.
Proof.
  rewrite (find_desc_children P (el_append c e)), (find_desc_children P e).
  simpl. rewrite find_in_app.
  destruct (find_in (find_desc P) P (children e) 0); [reflexivity|].
  simpl. destruct (P c); [reflexivity|]. now destruct (find_desc P c).
Qed.

Lemma namedview_el_append (c e : element) (nvp : path) :
  _namedview e = Some nvp -> _namedview (el_append c e) = Some nvp.
Proof.
  unfold _namedview. simpl tag.
  destruct (String.eqb (tag e) SODI_NAMEDVIEW); [auto|].
  rewrite find_desc_el_append. now intros ->.
Qed.

Lemma update_at_el_append_new (f : element -> element) (c e : element) (q : path) :
  update_at f (el_append c e) (List.length (children e) :: q)
  = el_append (update_at f c q) e.
Proof.
  unfold el_append. simpl. now rewrite update_nth_app_last.
Qed.

(** *** The copy made of the pattern layer *)

Lemma regen_ids_root (used : list str) (e : element) :
  tag (snd (regen_ids used e)) = tag e
  /\ forall k, k <> "id"%string ->
       el_get (snd (regen_ids used e)) k = el_get e k.
Proof.
  destruct e as [t a cs]. simpl.
  destruct (attr_get a "id") as [i|]; simpl;
    match goal with
    | |- context [regen_each regen_ids ?u cs] =>
        destruct (regen_each regen_ids u cs) as [used'' cs']
    end; simpl; (split; [reflexivity|]).
  - intros k Hk. unfold el_get. simpl. apply attr_get_set_other. congruence.
  - reflexivity.
Qed.

Lemma cloned_layer_is_layer (root src : element) (new_name old new : str) :
  is_layer_labelled (lit "p2") src = true ->
  is_layer_labelled new_name (cloned_layer root src new_name old new) = true.
Proof.
  unfold is_layer_labelled. intros H.
  apply andb_true_iff in H as [H Hl]. apply andb_true_iff in H as [Ht Hg].
  unfold cloned_layer.
  set (c1 := el_set INK_LABEL new_name src).
  assert (H1 : tag c1 = tag src /\ el_get c1 INK_GROUPMODE = el_get src INK_GROUPMODE
               /\ el_get c1 INK_LABEL = Some new_name).
  { unfold c1, el_get, el_set. simpl. repeat split.
    - now rewrite attr_get_set_other.
    - apply attr_get_set_same. }
  set (c2 := match find_desc (has_label old) c1 with
             | Some q => update_at (el_set INK_LABEL new) c1 q
             | None => c1
             end).
  assert (H2 : tag c2 = tag c1 /\ el_get c2 INK_GROUPMODE = el_get c1 INK_GROUPMODE
               /\ el_get c2 INK_LABEL = el_get c1 INK_LABEL).
  { unfold c2. destruct (find_desc (has_label old) c1) as [q|] eqn:E; [|auto].
    destruct (find_desc_some _ _ _ E) as (Hq & _).
    destruct q as [|i q]; [congruence|]. simpl. auto. }
  destruct (regen_ids_root (_collect_ids root) c2) as (H3 & H4).
  destruct H1 as (A1 & A2 & A3), H2 as (B1 & B2 & B3).
  rewrite H3, !H4 by discriminate.
  rewrite B1, B2, B3, A1, A2, A3, Ht, Hg. simpl. apply str_eqb_refl.
Qed.

(** ** The page provisioner *)

Section ProvisionerProps.

Variable float : Type.
Variable float_of_str : str -> result float.
Variable str_of_float : float -> str.
Variables fadd fsub fmul : float -> float -> float.
Variables gap_units PX_PER_MM : float.
Variable props : Type.
Variable props_empty : props -> bool.
Variable restyle : str -> props -> str.
Variable label_css : str -> option props.
Variable layer_p2 : path.

(** What [str] prints of a float, [float] reads. *)
Hypothesis float_of_str_of_float :
  forall x, exists y, float_of_str (str_of_float x) = Ok y.

Local Abbreviation get_page' :=
  (get_page float float_of_str str_of_float fadd fsub fmul gap_units PX_PER_MM
     props props_empty restyle label_css layer_p2).
Local Abbreviation ensure_phys' := (ensure_phys float str_of_float fadd gap_units).
Local Abbreviation list_pages' := (_list_pages float float_of_str).

Lemma list_pages_of_app (cs cs' : list element) :
  list_pages_of float float_of_str (cs ++ cs')
  = bind (list_pages_of float float_of_str cs)
      (fun a => bind (list_pages_of float float_of_str cs')
                  (fun b => Ok (a ++ b))).
Proof.
  induction cs as [|c cs IH]; simpl.
  - now destruct (list_pages_of float float_of_str cs').
  - destruct (is_page c); [|exact IH].
    destruct (page_floats float float_of_str c) as [g|e]; simpl; [|reflexivity].
    rewrite IH.
    destruct (list_pages_of float float_of_str cs) as [a|e]; simpl;
      [|reflexivity].
    now destruct (list_pages_of float float_of_str cs').
Qed.

Lemma page_floats_new_page (nv : element) (g : page_geom float) :
  exists g', page_floats float float_of_str (new_page float str_of_float nv g)
             = Ok g'.
Proof.
  destruct g as [[[nx ly] lw] lh]. unfold page_floats, new_page, el_get_or.
  cbn [attrib attr_get String.eqb Ascii.eqb Bool.eqb].
  destruct (float_of_str_of_float nx) as (x & ->).
  destruct (float_of_str_of_float ly) as (y & ->).
  destruct (float_of_str_of_float lw) as (w & ->).
  destruct (float_of_str_of_float lh) as (h & ->).
  simpl. eauto.
Qed.

Lemma list_pages_append_page (nv : element) (g : page_geom float)
    (pgs : list (page_geom float)) :
  list_pages' nv = Ok pgs ->
  exists g',
    list_pages' (_append_page_like float str_of_float g nv) = Ok (pgs ++ [g']).
Proof.
  unfold _list_pages, _append_page_like. simpl. intros H.
  destruct (page_floats_new_page nv g) as (g' & Hg).
  exists g'. rewrite list_pages_of_app, H. simpl.
  assert (Hp : is_page (new_page float str_of_float nv g) = true)
    by (now destruct g as [[[nx ly] lw] lh]).
  now rewrite Hp, Hg.
Qed.

Lemma harmless_append_page (g : page_geom float) :
  harmless (_append_page_like float str_of_float g).
Proof.
  intros x. split; [repeat split|].
  exists [new_page float str_of_float x g]. split; [reflexivity|].
  constructor; [|constructor].
  destruct g as [[[nx ly] lw] lh]. split; reflexivity.
Qed.

Lemma harmless_id : harmless (fun x => x).
Proof.
  intros x. split; [apply same_shape_refl|].
  exists []. now rewrite app_nil_r.
Qed.

Lemma harmless_apply_style (pr : props) :
  harmless (apply_style props props_empty restyle pr).
Proof.
  intros x. unfold apply_style. destruct (props_empty pr).
  - apply harmless_id.
  - apply (harmless_el_set "style"
             (fun el => restyle (el_get_or el "style" []) pr));
      discriminate.
Qed.

(** The loop that adds physical pages leaves the searches in place, and
    the pages it adds are read back by [_list_pages]. *)
Lemma ensure_phys_spec (nvp : path) (g0 : page_geom float) (n : nat) :
  forall doc pgs pgs0 nv,
    get_at doc nvp = Some nv ->
    list_pages' nv = Ok pgs0 ->
    exists nv1 pgs1,
      get_at (fst (ensure_phys' n nvp doc pgs g0)) nvp = Some nv1
      /\ list_pages' nv1 = Ok pgs1
      /\ List.length pgs1 = (List.length pgs0 + n)%nat
      /\ grown doc (fst (ensure_phys' n nvp doc pgs g0)).
Proof.
  induction n as [|n IH]; intros doc pgs pgs0 nv Hget Hlp; simpl.
  - exists nv, pgs0. rewrite Nat.add_0_r. repeat split; auto. apply grown_refl.
  - set (g := next_geom float fadd gap_units (last pgs g0)).
    destruct (list_pages_append_page nv g pgs0 Hlp) as (g' & Hlp').
    destruct (IH (update_at (_append_page_like float str_of_float g) doc nvp)
                (pgs ++ [g]) (pgs0 ++ [g']) _
                (get_at_update_at_same _ _ _ _ Hget) Hlp')
      as (nv1 & pgs1 & H1 & H2 & H3 & H4).
    exists nv1, pgs1. repeat split; auto.
    + rewrite H3, length_app. simpl. lia.
    + eapply grown_step; [apply harmless_append_page | exact H4].
Qed.

(** A clone appended to the root is not a page, so the pages of the
    named view are what they were. *)
Lemma list_pages_el_append (c e nv : element) (nvp : path) :
  is_page c = false ->
  get_at e nvp = Some nv ->
  exists nv',
    get_at (el_append c e) nvp = Some nv' /\ list_pages' nv' = list_pages' nv.
Proof.
  intros Hc Hget. destruct nvp as [|i q].
  - simpl in Hget. injection Hget as <-.
    exists (el_append c e). split; [reflexivity|].
    unfold _list_pages. simpl. rewrite list_pages_of_app. simpl. rewrite Hc.
    destruct (list_pages_of float float_of_str (children e)); simpl;
      [now rewrite app_nil_r | reflexivity].
  - exists nv. split; [|reflexivity].
    apply get_at_el_append; [discriminate | exact Hget].
Qed.

(** After the clone has been appended, moved and styled, the document is
    the one before with one more child of the root, grown from the clone. *)
Lemma styled_clone (doc1 clone : element) (tp : path)
    (ft fs : element -> element) :
  harmless ft -> harmless fs ->
  let n := List.length (children doc1) in
  let doc3 := update_at ft (el_append clone doc1) [n] in
  exists c3 c4,
    doc3 = el_append c3 doc1
    /\ update_at fs doc3 ([n] ++ tp) = el_append c4 doc1
    /\ grown clone c3 /\ grown clone c4.
Proof.
  intros Hft Hfs n doc3.
  exists (ft clone), (update_at fs (ft clone) tp).
  assert (E : doc3 = el_append (ft clone) doc1)
    by apply (update_at_el_append_new ft clone doc1 []).
  split; [exact E|]. split.
  - rewrite E. apply (update_at_el_append_new fs (ft clone) doc1 tp).
  - split.
    + apply (grown_one ft [] clone Hft).
    + eapply grown_trans; [apply (grown_one ft [] clone Hft)|].
      apply (grown_one fs tp _ Hfs).
Qed.

(** The second of two calls of [get_page] on a document whose last
    child of the root is the layer the first call made. *)
Lemma get_page_after_clone (idx : nat) (doc1 c4 : element) (tp nvp : path)
    (pages0 : list (str * path)) (nv1 : element)
    (pgs1 : list (page_geom float)) :
  let lab := lit "p" ++ str_of_nat (idx + 1) in
  let n := List.length (children doc1) in
  find_pre_text doc1 lab = None ->
  _namedview doc1 = Some nvp ->
  get_at doc1 nvp = Some nv1 ->
  list_pages' nv1 = Ok pgs1 ->
  (idx + 1 <= List.length pgs1)%nat ->
  is_layer_labelled lab c4 = true ->
  find_text_by_label c4 lab = Some tp ->
  List.length pages0 = idx ->
  exists st2,
    get_page' idx
      (RunState (el_append c4 doc1) (pages0 ++ [(lab, [n] ++ tp)]))
    = Ok ([n] ++ tp, st2)
    /\ doc st2 = el_append c4 doc1.
Proof.
  intros lab n Hpre Hnv Hget Hlp Hlen Hlay Htp Hpages.
  unfold get_page. cbn [doc pages]. fold lab.
  unfold find_pre_text, find_layer_by_label in Hpre |- *.
  rewrite find_desc_el_append, Hlay.
  destruct (find_desc (is_layer_labelled lab) doc1) as [lp|] eqn:Hl1.
  - destruct (find_desc_some _ _ _ Hl1) as (Hne & x & Hx & _).
    rewrite Hx in Hpre.
    rewrite (get_at_el_append c4 doc1 x lp Hne Hx).
    destruct (find_text_by_label x lab); [discriminate|].
    rewrite (namedview_el_append c4 doc1 nvp Hnv).
    assert (Hc4 : is_page c4 = false).
    { unfold is_layer_labelled in Hlay.
      apply andb_true_iff in Hlay as [Hlay _].
      apply andb_true_iff in Hlay as [Ht _].
      apply String.eqb_eq in Ht. unfold is_page. now rewrite Ht. }
    destruct (list_pages_el_append c4 doc1 nv1 nvp Hc4 Hget)
      as (nv' & Hget' & Hlp').
    unfold resolve. rewrite Hget'. cbn [bind]. rewrite Hlp', Hlp. cbn [bind].
    destruct pgs1 as [|g1 pgs1']; [simpl in Hlen; lia|].
    replace (idx + 1 - List.length (g1 :: pgs1'))%nat with 0%nat by lia.
    cbn [ensure_phys].
    rewrite nth_error_app2 by lia.
    rewrite Hpages, Nat.sub_diag. simpl nth_error.
    eexists. split; reflexivity.
  - rewrite (get_at_el_append_new c4 doc1), Htp.
    eexists. split; reflexivity.
Qed.

(** C8. Within one run (where [get_page] is called with an index that is
    at most the number of pages listed, and the pattern layer is the layer
    found under the label [p2]), a second call of [get_page] with the same
    index returns the same text element as the first and leaves the
    document as the first call left it: it creates no layer and no text
    element. *)
Theorem get_page_idempotent (idx : nat) (st st1 : run_state) (h : path) :
  (idx <= List.length (pages st))%nat ->
  pattern_layer layer_p2 (doc st) ->
  get_page' idx st = Ok (h, st1) ->
  exists st2, get_page' idx st1 = Ok (h, st2) /\ doc st2 = doc st1.
Proof.
  intros Hidx (src & Hsrc & Hlayer) H.
  unfold get_page in H.
  set (lab := lit "p" ++ str_of_nat (idx + 1)) in *.
  destruct (find_pre_text (doc st) lab) as [pt|] eqn:Hpre.
  - (* the page layer exists with its text *)
    injection H as <- <-. unfold get_page. cbn [doc pages]. fold lab.
    rewrite Hpre. eexists. split; reflexivity.
  - destruct (_namedview (doc st)) as [nvp|] eqn:Hnv; [|discriminate].
    unfold resolve in H.
    destruct (get_at (doc st) nvp) as [nv|] eqn:Hget; [|discriminate].
    cbn [bind] in H.
    destruct (list_pages' nv) as [pgs0|e] eqn:Hlp; [|discriminate].
    cbn [bind] in H.
    destruct pgs0 as [|g0 pgs0']; [discriminate|].
    destruct (ensure_phys_spec nvp g0 (idx + 1 - List.length (g0 :: pgs0'))
                (doc st) (g0 :: pgs0') (g0 :: pgs0') nv Hget Hlp)
      as (nv1 & pgs1 & Hget1 & Hlp1 & Hlen1 & Hgrown).
    destruct (ensure_phys' (idx + 1 - List.length (g0 :: pgs0')) nvp (doc st)
                (g0 :: pgs0') g0) as [doc1 pgsx] eqn:Hens.
    cbn [fst] in Hget1, Hgrown.
    assert (Hpre1 : find_pre_text doc1 lab = None)
      by (now rewrite (grown_find_pre_text lab _ _ Hgrown)).
    assert (Hnv1 : _namedview doc1 = Some nvp)
      by (now rewrite (grown_namedview _ _ Hgrown)).
    assert (Hlen : (idx + 1 <= List.length pgs1)%nat) by lia.
    destruct (nth_error (pages st) idx) as [[lab' el]|] eqn:Hnth.
    + (* the page is listed: only physical pages were added *)
      injection H as <- <-. unfold get_page. cbn [doc pages]. fold lab.
      rewrite Hpre1, Hnv1. unfold resolve. rewrite Hget1. cbn [bind].
      rewrite Hlp1. cbn [bind].
      destruct pgs1 as [|g1 pgs1']; [simpl in Hlen; lia|].
      replace (idx + 1 - List.length (g1 :: pgs1'))%nat with 0%nat by lia.
      cbn [ensure_phys]. rewrite Hnth.
      eexists. split; reflexivity.
    + (* the layer was cloned from the pattern *)
      destruct (grown_get_at _ _ Hgrown _ _ Hsrc) as (src1 & Hsrc1 & Hg1).
      rewrite Hsrc1 in H. cbn [bind] in H.
      unfold clone_layer_as in H.
      set (clone := cloned_layer doc1 src1 lab (lit "p2") lab) in *.
      rewrite (get_at_el_append_new clone doc1) in H. cbn [bind] in H.
      destruct (find_text_by_label clone lab) as [tp|] eqn:Htp; [|discriminate].
      assert (Hcl : is_layer_labelled lab clone = true).
      { apply cloned_layer_is_layer.
        rewrite (shape_pred_same _ _ _ (shape_pred_layer (lit "p2"))
                   (grown_same_shape _ _ Hg1)).
        exact Hlayer. }
      assert (Hpages : List.length (pages st) = idx).
      { apply nth_error_None in Hnth. lia. }
      match type of H with
      | context [update_at ?f (el_append clone doc1) [?n]] =>
          assert (Hft : harmless f)
            by (apply (harmless_el_set "transform"); discriminate);
          set (ft := f) in *
      end.
      assert (Hshape : forall c, grown clone c ->
                is_layer_labelled lab c = true
                /\ find_text_by_label c lab = Some tp).
      { intros c Hc. split.
        - now rewrite (shape_pred_same _ _ _ (shape_pred_layer lab)
                         (grown_same_shape _ _ Hc)).
        - unfold find_text_by_label.
          now rewrite (grown_find_desc _ _ _ (shape_pred_text lab)
                         (rejects_pages_text lab) Hc). }
      destruct (label_css lab) as [pr|].
      * destruct (styled_clone doc1 clone tp ft
                    (apply_style props props_empty restyle pr) Hft
                    (harmless_apply_style pr))
          as (c3 & c4 & _ & E4 & _ & Hg4).
        cbv zeta in E4. rewrite E4 in H. injection H as <- <-.
        destruct (Hshape c4 Hg4) as (Hl4 & Ht4).
        cbn [doc pages].
        destruct (get_page_after_clone idx doc1 c4 tp nvp (pages st) nv1 pgs1
                    Hpre1 Hnv1 Hget1 Hlp1 Hlen Hl4 Ht4 Hpages)
          as (st2 & Hst2 & Hdoc).
        exists st2. split; assumption.
      * destruct (styled_clone doc1 clone tp ft (fun x => x) Hft harmless_id)
          as (c3 & c4 & E3 & _ & Hg3 & _).
        cbv zeta in E3. rewrite E3 in H. injection H as <- <-.
        destruct (Hshape c3 Hg3) as (Hl3 & Ht3).
        cbn [doc pages].
        destruct (get_page_after_clone idx doc1 c3 tp nvp (pages st) nv1 pgs1
                    Hpre1 Hnv1 Hget1 Hlp1 Hlen Hl3 Ht3 Hpages)
          as (st2 & Hst2 & Hdoc).
        exists st2. split; assumption.
Qed.

(** [get_page] keeps the pattern layer what it is. *)
Lemma get_page_keeps_pattern (idx : nat) (st st1 : run_state) (h : path) :
  pattern_layer layer_p2 (doc st) ->
  get_page' idx st = Ok (h, st1) ->
  pattern_layer layer_p2 (doc st1).
Proof.
  intros (src & Hsrc & Hlayer) H. unfold get_page in H.
  destruct (find_pre_text (doc st) _) as [pt|].
  { injection H as <- <-. now exists src. }
  destruct (_namedview (doc st)) as [nvp|]; [|discriminate].
  inv_bind H. inv_bind H.
  destruct x0 as [|g0 pgs0]; [discriminate|].
  unfold resolve in Hx.
  destruct (get_at (doc st) nvp) as [nv|] eqn:Hget; [|discriminate].
  injection Hx as <-.
  destruct (ensure_phys_spec nvp g0 (idx + 1 - List.length (g0 :: pgs0))
              (doc st) (g0 :: pgs0) (g0 :: pgs0) nv Hget Hx0)
    as (_ & _ & _ & _ & _ & Hgrown).
  destruct (ensure_phys' _ nvp (doc st) (g0 :: pgs0) g0) as [doc1 pgsx].
  cbn [fst] in Hgrown.
  destruct (grown_get_at _ _ Hgrown _ _ Hsrc) as (src1 & Hsrc1 & Hg1).
  assert (Hl1 : is_layer_labelled (lit "p2") src1 = true).
  { now rewrite (shape_pred_same _ _ _ (shape_pred_layer (lit "p2"))
                   (grown_same_shape _ _ Hg1)). }
  assert (Happ : forall c, pattern_layer layer_p2 (el_append c doc1)).
  { intros c. destruct layer_p2 as [|i q] eqn:El.
    - simpl in Hsrc1. injection Hsrc1 as <-.
      exists (el_append c doc1). split; [reflexivity | exact Hl1].
    - exists src1. split; [|exact Hl1].
      apply get_at_el_append; [discriminate | exact Hsrc1]. }
  destruct (nth_error (pages st) idx) as [[lab el]|].
  { injection H as <- <-. now exists src1. }
  unfold resolve in H. rewrite Hsrc1 in H. cbn [bind] in H.
  unfold clone_layer_as in H.
  set (clone := cloned_layer doc1 src1 _ (lit "p2") _) in *.
  rewrite (get_at_el_append_new clone doc1) in H. cbn [bind] in H.
  destruct (find_text_by_label clone _) as [tp|]; [|discriminate].
  match type of H with
  | context [update_at ?f (el_append clone doc1) [?n]] =>
      assert (Hft : harmless f)
        by (apply (harmless_el_set "transform"); discriminate);
      set (ft := f) in *
  end.
  destruct (label_css _) as [pr|].
  - destruct (styled_clone doc1 clone tp ft
                (apply_style props props_empty restyle pr) Hft
                (harmless_apply_style pr))
      as (c3 & c4 & _ & E4 & _ & _).
    cbv zeta in E4. rewrite E4 in H. injection H as <- <-. apply Happ.
  - destruct (styled_clone doc1 clone tp ft (fun x => x) Hft harmless_id)
      as (c3 & c4 & E3 & _ & _ & _).
    cbv zeta in E3. rewrite E3 in H. injection H as <- <-. apply Happ.
Qed.

End ProvisionerProps.

Lemma get_page_idempotent_witness :
  exists h st1 st2,
    small_get_page 2 small_state = Ok (h, st1)
    /\ small_get_page 2 st1 = Ok (h, st2)
    /\ doc st2 = doc st1.
Proof.
  destruct (small_get_page 2 small_state) as [[h st1]|e] eqn:E;
    [|vm_compute in E; discriminate].
  destruct (get_page_idempotent Z nat_float_of_str nat_str_of_float
              Z.add Z.sub Z.mul 10 4 unit (fun _ => true) (fun s _ => s)
              (fun _ => None) [2%nat]
              (fun x => ex_intro _ (leading_digits (nat_str_of_float x) 0)
                          eq_refl)
              2%nat small_state st1 h)
    as (st2 & H2 & Hd).
  - simpl. lia.
  - exists (layer (lit "p2") [text_box (lit "p2")]). split; reflexivity.
  - exact E.
  - exists h, st1, st2. auto.
Defined.

(** With an index beyond the pages listed and a layer of that label
    without text in the document, the two calls make two layers: the
    bound on the index cannot be dropped. *)
Lemma get_page_twice_beyond_pages :
  exists st1 st2,
    small_get_page 3 odd_state = Ok ([4; 0]%nat, st1)
    /\ small_get_page 3 st1 = Ok ([5; 0]%nat, st2)
    /\ List.length (children (doc st2)) = S (List.length (children (doc st1))).
Proof.
  destruct (small_get_page 3 odd_state) as [[h st1]|e] eqn:E;
    [|vm_compute in E; discriminate].
  destruct (small_get_page 3 st1) as [[h' st2]|e] eqn:E';
    [|vm_compute in E; injection E as <- <-; vm_compute in E'; discriminate].
  exists st1, st2.
  vm_compute in E. injection E as <- <-.
  vm_compute in E'. injection E' as <- <-.
  repeat split.
Qed.

(** *** Fresh identifiers *)

Lemma id_candidate_inj (base : str) (j k : nat) :
  id_candidate base j = id_candidate base k -> j = k.
Proof.
  destruct j as [|j], k as [|k]; simpl; intros H; try reflexivity.
  - apply (f_equal (@List.length Z)) in H. rewrite length_app in H.
    simpl in H. lia.
  - apply (f_equal (@List.length Z)) in H. rewrite length_app in H.
    simpl in H. lia.
  - apply app_inv_head in H. injection H as H.
    now apply str_of_nat_inj in H.
Qed.

Lemma NoDup_map_injective {A B : Type} (f : A -> B) (l : list A) :
  (forall x y, f x = f y -> x = y) -> NoDup l -> NoDup (map f l).
Proof.
  intros Hf. induction 1 as [|x l Hx Hl IH]; simpl; constructor; [|exact IH].
  intros Hin. apply in_map_iff in Hin as (y & E & Hy).
  apply Hf in E. now subst.
Qed.

Lemma existsb_str_eqb_In (s : str) (l : list str) :
  existsb (str_eqb s) l = true <-> In s l.
Proof.
  rewrite existsb_exists. split.
  - intros (x & Hx & E). apply str_eqb_eq in E. now subst.
  - intros H. exists s. split; [exact H | apply str_eqb_refl].
Qed.

Lemma gen_loop_used (used : list str) (base : str) (fuel : nat) :
  forall i,
    In (gen_loop fuel used base i) used ->
    forall j, (i <= j <= i + fuel)%nat -> In (id_candidate base j) used.
Proof.
  induction fuel as [|fuel IH]; intros i Hin j Hj; simpl in Hin.
  - replace j with i by lia. exact Hin.
  - destruct (existsb (str_eqb (id_candidate base i)) used) eqn:E.
    + destruct (Nat.eq_dec j i) as [->|Hne].
      * now apply existsb_str_eqb_In.
      * apply (IH (i + 1)%nat Hin). lia.
    + apply existsb_str_eqb_In in Hin. congruence.
Qed.

(** The loop of [_gen_unique_id] ends within the candidates it is given:
    the identifier it returns is not in [used]. *)
Lemma _gen_unique_id_fresh (used : list str) (base : str) :
  ~ In (fst (_gen_unique_id used base)) used.
Proof.
  unfold _gen_unique_id. simpl. intros Hin.
  pose proof (gen_loop_used used (sanitize_id base) (List.length used) 0 Hin)
    as Hall.
  assert (Hincl : incl (map (id_candidate (sanitize_id base))
                          (seq 0 (S (List.length used)))) used).
  { intros s Hs. apply in_map_iff in Hs as (j & <- & Hj).
    apply in_seq in Hj. apply Hall. lia. }
  assert (Hnd : NoDup (map (id_candidate (sanitize_id base))
                         (seq 0 (S (List.length used))))).
  { apply NoDup_map_injective; [|apply seq_NoDup].
    intros j k. apply id_candidate_inj. }
  pose proof (NoDup_incl_length Hnd Hincl) as Hlen.
  rewrite length_map, length_seq in Hlen. lia.
Qed.

(** ** The commit pass on the document *)

Section RunProps.

Variable float : Type.
Variable float_of_str : str -> result float.
Variable str_of_float : float -> str.
Variables fadd fsub fmul : float -> float -> float.
Variables gap_units PX_PER_MM : float.
Variable props : Type.
Variable props_empty : props -> bool.
Variable restyle : str -> props -> str.
Variable label_css : str -> option props.
Variable layer_p2 : path.
Variable add_line_text : path -> str -> block_type -> element -> element.
Variable limits_func : nat -> result (Z * Z).
Variable indent_fullwidth : bool.

Local Abbreviation get_page' :=
  (get_page float float_of_str str_of_float fadd fsub fmul gap_units PX_PER_MM
     props props_empty restyle label_css layer_p2).
Local Abbreviation get_page_in_range' :=
  (get_page_in_range float float_of_str str_of_float fadd fsub fmul gap_units
     PX_PER_MM props props_empty restyle label_css layer_p2).
Local Abbreviation place :=
  (fun (el : path) (line : str) (ty : block_type) (st : run_state) =>
     RunState (add_line_text el line ty (doc st)) (pages st)).

(** After [get_page idx] the page [idx] is listed. *)
Lemma get_page_lists_page (idx : nat) (st st1 : run_state) (h : path) :
  (idx <= List.length (pages st))%nat ->
  get_page' idx st = Ok (h, st1) ->
  (idx < List.length (pages st1))%nat.
Proof.
  intros Hidx H. unfold get_page in H.
  destruct (find_pre_text (doc st) _) as [pt|].
  - injection H as <- <-. cbn [pages].
    destruct (Nat.leb_spec (List.length (pages st)) idx);
      [rewrite length_app; simpl; lia | lia].
  - destruct (_namedview (doc st)) as [nvp|]; [|discriminate].
    inv_bind H. inv_bind H.
    destruct x0 as [|g0 pgs]; [discriminate|].
    destruct (ensure_phys _ _ _ _ _ _ _ _ _) as [doc1 pgs1].
    destruct (nth_error (pages st) idx) as [[lab el]|] eqn:Hnth.
    + injection H as <- <-. cbn [pages].
      apply nth_error_Some. congruence.
    + inv_bind H.
      destruct (clone_layer_as _ _ _ _ _) as [doc2 new_layer].
      inv_bind H.
      destruct (find_text_by_label _ _); [|discriminate].
      injection H as <- <-. cbn [pages]. rewrite length_app. simpl. lia.
Qed.

Lemma get_page_in_range_eq (idx : nat) (st : run_state) :
  (idx <= List.length (pages st))%nat ->
  get_page_in_range' idx st = get_page' idx st.
Proof.
  intros H. unfold get_page_in_range.
  now destruct (Nat.leb_spec idx (List.length (pages st))); [|lia].
Qed.

Lemma commit_lines_in_range (ty : block_type) (lines : list str) :
  forall page_idx used st,
    (page_idx < List.length (pages st))%nat ->
    commit_lines limits_func get_page_in_range' place ty lines page_idx used st
    = commit_lines limits_func get_page' place ty lines page_idx used st
    /\ forall pi u st',
         commit_lines limits_func get_page' place ty lines page_idx used st
         = Ok (pi, u, st') ->
         (pi < List.length (pages st'))%nat.
Proof.
  induction lines as [|l lines IH]; intros page_idx used st Hinv; simpl.
  - split; [reflexivity|]. intros pi u st' H. now injection H as <- <- <-.
  - destruct (limits_func page_idx) as [[m c]|e]; simpl;
      [|split; [reflexivity | discriminate]].
    destruct (Z.of_nat used >=? m); simpl.
    + rewrite get_page_in_range_eq by lia.
      destruct (get_page' (page_idx + 1)%nat st) as [[h st1]|e] eqn:E1; simpl;
        [|split; [reflexivity | discriminate]].
      assert (H1 : (page_idx + 1 < List.length (pages st1))%nat)
        by (eapply get_page_lists_page; [|exact E1]; lia).
      rewrite get_page_in_range_eq by lia.
      destruct (get_page' (page_idx + 1)%nat st1) as [[el st2]|e] eqn:E2; simpl;
        [|split; [reflexivity | discriminate]].
      assert (H2 : (page_idx + 1 < List.length (pages st2))%nat)
        by (eapply get_page_lists_page; [|exact E2]; lia).
      apply IH. exact H2.
    + rewrite get_page_in_range_eq by lia.
      destruct (get_page' page_idx st) as [[el st2]|e] eqn:E2; simpl;
        [|split; [reflexivity | discriminate]].
      assert (H2 : (page_idx < List.length (pages st2))%nat)
        by (eapply get_page_lists_page; [|exact E2]; lia).
      apply IH. exact H2.
Qed.

Lemma commit_blocks_in_range (blocks : list block) :
  forall page_idx used st,
    (page_idx < List.length (pages st))%nat ->
    commit_blocks limits_func get_page_in_range' place indent_fullwidth
      blocks page_idx used st
    = commit_blocks limits_func get_page' place indent_fullwidth
        blocks page_idx used st
    /\ forall pi u st',
         commit_blocks limits_func get_page' place indent_fullwidth
           blocks page_idx used st = Ok (pi, u, st') ->
         (pi < List.length (pages st'))%nat.
Proof.
  induction blocks as [|blk blocks IH]; intros page_idx used st Hinv; simpl.
  - split; [reflexivity|]. intros pi u st' H. now injection H as <- <- <-.
  - destruct (type blk).
    1:{ rewrite get_page_in_range_eq by lia.
        destruct (get_page' (page_idx + 1)%nat st) as [[h st1]|e] eqn:E1; simpl;
          [|split; [reflexivity | discriminate]].
        apply IH. eapply get_page_lists_page; [|exact E1]. lia. }
    all: destruct (limits_func page_idx) as [[m c]|e]; simpl;
      [|split; [reflexivity | discriminate]];
      match goal with
      | |- context [commit_lines _ get_page' _ ?bt ?ls _ _ _] =>
          destruct (commit_lines_in_range bt ls page_idx used st Hinv)
            as [-> Hpost];
          destruct (commit_lines limits_func get_page' place bt ls
                      page_idx used st) as [[[pi1 u1] st1]|e] eqn:E1; simpl;
          [|split; [reflexivity | discriminate]]
      end;
      apply IH; now apply (Hpost _ _ _ eq_refl).
Qed.

(** X18. In a run that starts with at least one page listed, every call
    of [get_page] by the commit loop has an index that is at most the
    number of pages listed at the call: behind a check of that bound,
    which raises when it fails, the loop runs as without it. *)
Lemma run_commit_in_range (blocks : list block) (st : run_state) :
  (0 < List.length (pages st))%nat ->
  run_commit add_line_text limits_func indent_fullwidth get_page_in_range'
    blocks st
  = run_commit add_line_text limits_func indent_fullwidth get_page' blocks st.
Proof.
  intros H. unfold run_commit.
  apply (commit_blocks_in_range blocks 0 0 st H).
Qed.

(** On the document too, the estimation returns the page count the
    commit pass ends with. *)
Lemma run_commit_estimate (blocks : list block) (st st' : run_state)
    (pi u : nat) :
  run_commit add_line_text limits_func indent_fullwidth get_page' blocks st
  = Ok (pi, u, st') ->
  _estimate_required_pages limits_func blocks = Ok (pi + 1)%nat.
Proof.
  unfold run_commit. intros H.
  destruct (commit_blocks_recorded _ _ _ _ _ _ _ _ _ _ _ H) as (placed & Hrec).
  pose proof (commit_blocks_rec_estimate _ _ _ _ _ _ _ _ _ _ _ _ Hrec) as Hest.
  unfold _estimate_required_pages.
  rewrite estimate_blocks_on_erase, Hest. reflexivity.
Qed.

End RunProps.

(* ================================================================= *)
(** * Further properties of the wrapper *)

Lemma split_not_nil (sep : Z) (s : str) : split sep s <> [].
Proof.
  induction s as [|c s IH]; simpl; [discriminate|].
  destruct (c =? sep); [discriminate|].
  destruct (split sep s); discriminate.
Qed.

Lemma wrap_para_length (cols : Z) (para : str) :
  (1 <= List.length (wrap_para cols para))%nat.
Proof.
  unfold wrap_para. destruct (wrap_chars cols para [] [] 0) as [o l].
  rewrite length_app. simpl. lia.
Qed.

Lemma concat_wrap_para_length (cols : Z) (paras : list str) :
  (List.length paras
   <= List.length (List.concat (map (wrap_para cols) paras)))%nat.
Proof.
  induction paras as [|para paras IH]; simpl; [lia|].
  rewrite length_app. pose proof (wrap_para_length cols para). lia.
Qed.

(** X1. [wrap_text_to_cols] returns at least one line for every paragraph
    of the text, hence never the empty list: the alternative of
    [wrap_text_to_cols(...) or [""]] in both passes is never taken. *)
Theorem wrap_text_to_cols_never_empty (text : str) (cols : Z) :
  (1 <= List.length (split NL (break_tokens text))
   <= List.length (wrap_text_to_cols text cols))%nat
  /\ wrapped_lines text cols = wrap_text_to_cols text cols.
Proof.
  assert (H : (1 <= List.length (split NL (break_tokens text))
               <= List.length (wrap_text_to_cols text cols))%nat).
  { split.
    - pose proof (split_not_nil NL (break_tokens text)).
      destruct (split NL (break_tokens text)); [congruence | simpl; lia].
    - rewrite wrap_text_to_cols_paras. apply concat_wrap_para_length. }
  split; [exact H|].
  unfold wrapped_lines.
  destruct (wrap_text_to_cols text cols); [simpl in H; lia | reflexivity].
Qed.

(** A paragraph that fits is accumulated on the line in one piece. *)
Lemma wrap_chars_fits (cols : Z) (para : str) :
  forall out line,
    line_width line + line_width para <= cols ->
    wrap_chars cols para out line (line_width line) = (out, line ++ para).
Proof.
  induction para as [|ch rest IH]; intros out line H; simpl.
  - now rewrite app_nil_r.
  - fold (char_width ch). simpl in H.
    pose proof (line_width_nonneg rest).
    destruct (Z.gtb_spec (line_width line + char_width ch) cols) as [Hgt|Hle];
      [lia|].
    rewrite <- line_width_snoc, IH.
    + now rewrite <- app_assoc.
    + rewrite line_width_snoc. lia.
Qed.

Lemma wrap_para_fits (cols : Z) (para : str) :
  line_width para <= cols -> wrap_para cols para = [para].
Proof.
  intros H. unfold wrap_para.
  change 0 with (line_width []).
  rewrite wrap_chars_fits by (simpl; lia). reflexivity.
Qed.

(** X2. When every paragraph of the text (after the break tokens have
    become line feeds) has a width sum within [cols], wrapping changes
    nothing: the lines are the paragraphs. *)
Theorem wrap_text_to_cols_fits (text : str) (cols : Z) :
  Forall (fun para => line_width para <= cols) (split NL (break_tokens text)) ->
  wrap_text_to_cols text cols = split NL (break_tokens text).
Proof.
  rewrite wrap_text_to_cols_paras.
  induction (split NL (break_tokens text)) as [|para paras IH]; intros H.
  - reflexivity.
  - inversion H as [|? ? Hp Hps]; subst. simpl.
    rewrite (wrap_para_fits _ _ Hp), (IH Hps). reflexivity.
Qed.

Lemma wrap_text_to_cols_fits_witness :
  wrap_text_to_cols (lit "ab<br>cd e") 5 = [lit "ab"; lit "cd e"].
Proof.
  apply (wrap_text_to_cols_fits (lit "ab<br>cd e") 5).
  repeat constructor; vm_compute; discriminate.
Defined.

Lemma filter_kept_space (s : str) :
  filter (fun c => negb (c =? SPACE)) (filter (fun c => negb (c =? NL)) s)
  = filter kept_char s.
Proof.
  induction s as [|c s IH]; simpl; [reflexivity|].
  unfold kept_char at 1.
  destruct (c =? NL) eqn:E1; destruct (c =? SPACE) eqn:E2; simpl;
    rewrite ?E2; simpl; now rewrite IH.
Qed.

Lemma concat_split (sep : Z) (s : str) :
  List.concat (split sep s) = filter (fun c => negb (c =? sep)) s.
Proof.
  induction s as [|c s IH]; simpl; [reflexivity|].
  destruct (c =? sep); simpl; [exact IH|].
  rewrite <- IH. destruct (split sep s) as [|l ls]; reflexivity.
Qed.

(** The loop over the characters of a paragraph keeps every character
    but plain spaces, in order. *)
Lemma wrap_chars_keeps (cols : Z) (para : str) :
  forall out line wsum,
    filter (fun c => negb (c =? SPACE))
      (List.concat (fst (wrap_chars cols para out line wsum))
       ++ snd (wrap_chars cols para out line wsum))
    = filter (fun c => negb (c =? SPACE)) (List.concat out ++ line ++ para).
Proof.
  induction para as [|ch rest IH]; intros out line wsum; simpl.
  - now rewrite app_nil_r.
  - destruct (wsum + (if is_fullwidth ch then 2 else 1) >? cols).
    + destruct (ch =? SPACE) eqn:E.
      * rewrite IH. rewrite concat_app. simpl.
        rewrite !filter_app. simpl. rewrite E. simpl.
        now rewrite !app_nil_r, <- app_assoc.
      * rewrite IH. rewrite concat_app. simpl.
        rewrite app_nil_r, <- !app_assoc. reflexivity.
    + rewrite IH. now rewrite <- !app_assoc.
Qed.

Lemma wrap_para_keeps (cols : Z) (para : str) :
  filter (fun c => negb (c =? SPACE)) (List.concat (wrap_para cols para))
  = filter (fun c => negb (c =? SPACE)) para.
Proof.
  unfold wrap_para.
  pose proof (wrap_chars_keeps cols para [] [] 0) as H. simpl in H.
  destruct (wrap_chars cols para [] [] 0) as [o l]. simpl in H.
  rewrite concat_app. simpl. now rewrite app_nil_r.
Qed.

(** X3. Wrapping loses nothing but plain spaces: the characters of the
    returned lines other than plain spaces are, in order, the characters
    of the text (after the break tokens have become line feeds) other than
    plain spaces and line feeds. *)
Theorem wrap_text_to_cols_keeps_text (text : str) (cols : Z) :
  filter (fun c => negb (c =? SPACE)) (List.concat (wrap_text_to_cols text cols))
  = filter kept_char (break_tokens text).
Proof.
  rewrite <- (filter_kept_space (break_tokens text)), <- (concat_split NL).
  rewrite wrap_text_to_cols_paras.
  induction (split NL (break_tokens text)) as [|para paras IH]; simpl.
  - reflexivity.
  - rewrite concat_app, !filter_app, IH, wrap_para_keeps. reflexivity.
Qed.

(* ================================================================= *)
(** * Further properties of the block parser *)

Lemma parse_lines_cons (marker line : str) (rest : list str) :
  parse_lines marker (line :: rest)
  = if str_eqb (strip line) marker then
      Block pagebreak [] :: parse_lines marker rest
    else
      match H2_RE line with
      | Some text => Block h2 text :: parse_lines marker rest
      | None =>
          match LI_RE line with
          | Some (c :: g) =>
              Block li (BULLET :: rstrip (c :: g)) :: parse_lines marker rest
          | _ => gather marker [line] rest
          end
      end.
Proof.
  simpl. destruct (str_eqb (strip line) marker); [reflexivity|].
  destruct (H2_RE line); [reflexivity|].
  destruct (LI_RE line) as [[|c g]|]; try reflexivity.
  all: generalize [line]; induction rest as [|l rest IH]; intros para; simpl;
    [reflexivity|]; destruct (is_empty (strip l)); [reflexivity | apply IH].
Qed.

(** Every block comes from one of the five places of the loop that make
    one: a property of the blocks made there is a property of all blocks. *)
Lemma parse_lines_Forall (G : block -> Prop) (L : str -> Prop) (marker : str) :
  G (Block pagebreak []) ->
  (forall line t, L line -> H2_RE line = Some t -> G (Block h2 t)) ->
  (forall line c g,
      L line -> LI_RE line = Some (c :: g) ->
      G (Block li (BULLET :: rstrip (c :: g)))) ->
  (forall para, Forall L para -> G (Block p (rstrip (join NL para)))) ->
  G (Block p []) ->
  forall lines, Forall L lines -> Forall G (parse_lines marker lines).
Proof.
  intros Gpb Gh2 Gli Gp Ge lines.
  enough (H : (Forall L lines -> Forall G (parse_lines marker lines))
              /\ (forall para, Forall L para -> Forall L lines ->
                               Forall G (gather marker para lines)))
    by apply H.
  induction lines as [|l lines [IH1 IH2]]; split.
  - constructor.
  - intros para Hp _. simpl. constructor; [now apply Gp | constructor].
  - intros HL. inversion HL as [|? ? Hl Hls]; subst.
    rewrite parse_lines_cons.
    destruct (str_eqb (strip l) marker); [constructor; auto|].
    destruct (H2_RE l) as [t|] eqn:Eh; [constructor; eauto|].
    destruct (LI_RE l) as [[|c g]|] eqn:El.
    + apply IH2; auto.
    + constructor; eauto.
    + apply IH2; auto.
  - intros para Hp HL. inversion HL as [|? ? Hl Hls]; subst. simpl.
    destruct (is_empty (strip l)).
    + constructor; [now apply Gp|]. constructor; [exact Ge | auto].
    + apply IH2; [|exact Hls]. apply Forall_app. split; auto.
Qed.

Lemma lstrip_starts (s : str) (c : Z) (r : str) :
  lstrip s = c :: r -> isspace c = false.
Proof.
  induction s as [|x s IH]; simpl; [discriminate|].
  destruct (isspace x) eqn:E; [exact IH|].
  intros H. injection H as <- _. exact E.
Qed.

Lemma lstrip_idem (s : str) : lstrip (lstrip s) = lstrip s.
Proof.
  destruct (lstrip s) as [|c r] eqn:E; [reflexivity|].
  simpl. now rewrite (lstrip_starts _ _ _ E).
Qed.

Lemma rstrip_idem (s : str) : rstrip (rstrip s) = rstrip s.
Proof.
  induction s as [|c s IH]; simpl; [reflexivity|].
  destruct (rstrip s) as [|x r] eqn:E.
  - destruct (isspace c) eqn:Ec; simpl; [reflexivity | now rewrite Ec].
  - simpl in *. rewrite IH. reflexivity.
Qed.

Lemma rstrip_visible_head (c : Z) (s : str) :
  isspace c = false -> exists r, rstrip (c :: s) = c :: r.
Proof.
  intros H. simpl. destruct (rstrip s) as [|x r]; [rewrite H|]; eauto.
Qed.

Section CharClass.

(** A class of characters [Q], and the strings that stay within it. *)
Variable Q : Z -> bool.

Lemma forallb_lstrip (s : str) :
  forallb Q s = true -> forallb Q (lstrip s) = true.
Proof.
  induction s as [|c s IH]; simpl; [auto|].
  intros H. destruct (isspace c); [|exact H].
  apply andb_true_iff in H as [_ H]. auto.
Qed.

Lemma forallb_rstrip (s : str) :
  forallb Q s = true -> forallb Q (rstrip s) = true.
Proof.
  induction s as [|c s IH]; simpl; [auto|].
  intros H. apply andb_true_iff in H as [Hc H]. specialize (IH H).
  destruct (rstrip s) as [|x r].
  - destruct (isspace c); simpl; [reflexivity | now rewrite Hc].
  - simpl in *. now rewrite Hc.
Qed.

Lemma forallb_skip_digits (s : str) :
  forallb Q s = true -> forallb Q (skip_digits s) = true.
Proof.
  induction s as [|c s IH]; simpl; [auto|].
  intros H. destruct (is_digit c); [|exact H].
  apply andb_true_iff in H as [_ H]. auto.
Qed.

Lemma forallb_h2_numbered (s t : str) :
  forallb Q s = true -> h2_numbered s = Some t -> forallb Q t = true.
Proof.
  intros H. unfold h2_numbered. destruct s as [|c s']; [discriminate|].
  destruct (is_digit c); [|discriminate].
  pose proof (forallb_skip_digits _ H) as Hs.
  destruct (skip_digits (c :: s')) as [|q r]; [discriminate|].
  destruct (is_num_punct q); [|discriminate].
  intros E. injection E as <-. apply forallb_lstrip.
  simpl in Hs. now apply andb_true_iff in Hs as [_ Hs].
Qed.

Lemma forallb_H2_RE (line t : str) :
  forallb Q line = true -> H2_RE line = Some t -> forallb Q t = true.
Proof.
  intros H. unfold H2_RE. pose proof (forallb_lstrip _ H) as Hs.
  destruct (lstrip line) as [|c1 [|c2 r]] eqn:E;
    try (now apply forallb_h2_numbered).
  destruct (is_hash c1 && is_hash c2); [|now apply forallb_h2_numbered].
  intros E'. injection E' as <-. apply forallb_lstrip.
  simpl in Hs. apply andb_true_iff in Hs as [_ Hs].
  now apply andb_true_iff in Hs as [_ Hs].
Qed.

Lemma forallb_LI_RE (line t : str) :
  forallb Q line = true -> LI_RE line = Some t -> forallb Q t = true.
Proof.
  intros H. unfold LI_RE. pose proof (forallb_lstrip _ H) as Hs.
  destruct (lstrip line) as [|c r]; [discriminate|].
  destruct (is_bullet c); [|discriminate].
  intros E. injection E as <-. apply forallb_lstrip.
  simpl in Hs. now apply andb_true_iff in Hs as [_ Hs].
Qed.

Lemma forallb_split (sep : Z) (s : str) :
  forallb Q s = true -> Forall (fun l => forallb Q l = true) (split sep s).
Proof.
  induction s as [|c s IH]; simpl; intros H; [repeat constructor|].
  apply andb_true_iff in H as [Hc H]. specialize (IH H).
  destruct (c =? sep); [constructor; auto|].
  destruct (split sep s) as [|l ls]; [repeat constructor; simpl; now rewrite Hc|].
  inversion IH; subst. constructor; [simpl; now rewrite Hc | assumption].
Qed.

Lemma forallb_join (sep : Z) (parts : list str) :
  Q sep = true ->
  Forall (fun l => forallb Q l = true) parts ->
  forallb Q (join sep parts) = true.
Proof.
  intros Hsep. induction 1 as [|x rest Hx Hrest IH]; [reflexivity|].
  destruct rest as [|y rest']; [exact Hx|].
  change (join sep (x :: y :: rest')) with (x ++ sep :: join sep (y :: rest')).
  rewrite forallb_app, Hx. cbn [forallb andb]. rewrite Hsep. exact IH.
Qed.

End CharClass.

Lemma split_no_line_feed (s : str) :
  Forall (fun l => no_line_feed l = true) (split NL s).
Proof.
  induction s as [|c s IH]; simpl; [repeat constructor|].
  destruct (c =? NL) eqn:E; [constructor; auto|].
  destruct (split NL s) as [|l ls]; [repeat constructor; simpl; now rewrite E|].
  inversion IH; subst. constructor; [|assumption].
  unfold no_line_feed in *. simpl. now rewrite E.
Qed.

(** X4. Whatever the source, the text of every block [parse_markdown]
    returns has the shape of its type: empty for a page break; a single
    line without leading whitespace for a heading; for a list item the
    glyph [BULLET] followed by a single line that starts with a visible
    character and has no trailing whitespace; no trailing whitespace for a
    paragraph. *)
Theorem parse_markdown_block_shapes (src : str) (indent : bool) (marker : str) :
  Forall block_shape (parse_markdown src indent marker).
Proof.
  unfold parse_markdown.
  apply (parse_lines_Forall block_shape (fun l => no_line_feed l = true)).
  - reflexivity.
  - intros line t Hl Ht. split.
    + unfold H2_RE in Ht. simpl.
      assert (Hn : forall s, h2_numbered s = Some t -> lstrip t = t).
      { intros s. unfold h2_numbered. destruct s as [|c s']; [discriminate|].
        destruct (is_digit c); [|discriminate].
        destruct (skip_digits (c :: s')) as [|q r]; [discriminate|].
        destruct (is_num_punct q); [|discriminate].
        intros E. injection E as <-. apply lstrip_idem. }
      destruct (lstrip line) as [|c1 [|c2 r]]; eauto.
      destruct (is_hash c1 && is_hash c2); eauto.
      injection Ht as <-. apply lstrip_idem.
    + exact (forallb_H2_RE _ _ _ Hl Ht).
  - intros line c g Hl Hg. exists (rstrip (c :: g)). split; [reflexivity|].
    assert (Hc : isspace c = false).
    { unfold LI_RE in Hg. destruct (lstrip line) as [|b r]; [discriminate|].
      destruct (is_bullet b); [|discriminate].
      injection Hg as Hg. exact (lstrip_starts _ _ _ Hg). }
    split; [|split].
    + destruct (rstrip_visible_head c g Hc) as (r & ->). simpl. now rewrite Hc.
    + apply rstrip_idem.
    + apply forallb_rstrip. exact (forallb_LI_RE _ _ _ Hl Hg).
  - intros para _. apply rstrip_idem.
  - reflexivity.
  - apply split_no_line_feed.
Qed.

Lemma replace_single (a b : Z) (s : str) :
  replace [a] [b] s = map (fun c => if c =? a then b else c) s.
Proof.
  unfold replace. induction s as [|c s IH]; simpl; [reflexivity|].
  rewrite (Z.eqb_sym a c). destruct (c =? a); simpl; now rewrite IH.
Qed.

(** X5. [parse_markdown] normalises line endings: no block text contains
    a carriage return, whatever the source. *)
Theorem parse_markdown_no_carriage_return (src : str) (indent : bool)
    (marker : str) :
  Forall (fun b => no_carriage_return (text b) = true)
    (parse_markdown src indent marker).
Proof.
  unfold parse_markdown.
  apply (parse_lines_Forall _ (fun l => no_carriage_return l = true)).
  - reflexivity.
  - intros line t Hl Ht. exact (forallb_H2_RE _ _ _ Hl Ht).
  - intros line c g Hl Hg.
    change (forallb (fun c => negb (c =? CR)) (rstrip (c :: g)) = true).
    apply forallb_rstrip. exact (forallb_LI_RE _ _ _ Hl Hg).
  - intros para Hp. simpl. apply forallb_rstrip. now apply forallb_join.
  - reflexivity.
  - apply forallb_split. rewrite replace_single.
    induction (replace [CR; NL] [NL] src) as [|c s IH]; simpl; [reflexivity|].
    rewrite IH, andb_true_r. destruct (c =? CR) eqn:E; [reflexivity|].
    now rewrite E.
Qed.

Lemma split_app_sep (sep : Z) (x s : str) :
  forallb (fun c => negb (c =? sep)) x = true ->
  split sep (x ++ sep :: s) = x :: split sep s.
Proof.
  induction x as [|c x IH]; simpl; intros H.
  - now rewrite Z.eqb_refl.
  - apply andb_true_iff in H as [Hc Hx]. apply negb_true_iff in Hc.
    now rewrite Hc, (IH Hx).
Qed.

(** [sep.join(parts).split(sep)] gives the parts back when none of them
    contains the separator. *)
Lemma split_join (sep : Z) (x : str) (rest : list str) :
  Forall (fun l => forallb (fun c => negb (c =? sep)) l = true) (x :: rest) ->
  split sep (join sep (x :: rest)) = x :: rest.
Proof.
  revert x. induction rest as [|y rest IH]; intros x H;
    inversion H as [|? ? Hx Hr]; subst.
  - now apply split_no_sep.
  - change (join sep (x :: y :: rest)) with (x ++ sep :: join sep (y :: rest)).
    rewrite (split_app_sep _ _ _ Hx), (IH _ Hr). reflexivity.
Qed.

(** The paragraph loop takes every line up to the first blank one. *)
Lemma gather_no_blank (marker : str) (ls : list str) :
  forall para,
    Forall (fun l => strip l <> []) ls ->
    gather marker para ls = [Block p (rstrip (join NL (para ++ ls)))].
Proof.
  induction ls as [|l ls IH]; intros para H; simpl.
  - now rewrite app_nil_r.
  - inversion H as [|? ? Hl Hls]; subst.
    destruct (strip l) as [|c r] eqn:E; [congruence|]. simpl.
    rewrite (IH _ Hls), <- app_assoc. reflexivity.
Qed.

(** X6. A paragraph runs to the next blank line whatever the lines in
    between look like: when a line opens a paragraph (it is not the
    page-break marker, not a heading and not a list item with text) and no
    line after it is blank, the whole source is one paragraph block, even
    if later lines are page-break markers, headings or list items. *)
Theorem parse_markdown_paragraph_runs_to_blank_line
    (line : str) (rest : list str) (indent : bool) (marker : str) :
  Forall (fun l => no_line_feed l = true /\ no_carriage_return l = true)
    (line :: rest) ->
  str_eqb (strip line) marker = false ->
  H2_RE line = None ->
  (LI_RE line = None \/ LI_RE line = Some []) ->
  Forall (fun l => strip l <> []) rest ->
  parse_markdown (join NL (line :: rest)) indent marker
  = [Block p (rstrip (join NL (line :: rest)))].
Proof.
  intros Hchars Hm Hh Hl Hrest.
  assert (Hnl : Forall (fun l => forallb (fun c => negb (c =? NL)) l = true)
                  (line :: rest)).
  { eapply Forall_impl; [|exact Hchars]. now intros l [H _]. }
  assert (Hcr : forallb (fun c => negb (c =? CR)) (join NL (line :: rest)) = true).
  { apply forallb_join; [reflexivity|].
    eapply Forall_impl; [|exact Hchars]. now intros l [_ H]. }
  unfold parse_markdown.
  rewrite (replace_avoid CR [NL] [NL] _ Hcr), (replace_avoid CR [] [NL] _ Hcr).
  rewrite (split_join _ _ _ Hnl), parse_lines_cons, Hm, Hh.
  destruct Hl as [-> | ->]; now rewrite gather_no_blank.
Qed.

Lemma parse_markdown_paragraph_runs_to_blank_line_witness :
  parse_markdown
    (join NL [lit "Intro"; lit "\newpage"; lit "## Heading"; lit "- item"])
    false newpage_marker
  = [Block p
       (rstrip
          (join NL [lit "Intro"; lit "\newpage"; lit "## Heading"; lit "- item"]))].
Proof.
  apply (parse_markdown_paragraph_runs_to_blank_line (lit "Intro")
           [lit "\newpage"; lit "## Heading"; lit "- item"] false newpage_marker).
  - repeat constructor.
  - reflexivity.
  - reflexivity.
  - left. reflexivity.
  - repeat constructor; vm_compute; discriminate.
Defined.

(* ================================================================= *)
(** * Further properties of the flow engine *)

Lemma StronglySorted_app {A : Type} (R : A -> A -> Prop) (a b : list A) :
  StronglySorted R a -> StronglySorted R b ->
  (forall x y, In x a -> In y b -> R x y) ->
  StronglySorted R (a ++ b).
Proof.
  induction a as [|x a IH]; intros Ha Hb Hab; simpl; [exact Hb|].
  inversion Ha as [|? ? Hsa Hx]; subst. constructor.
  - apply IH; [exact Hsa | exact Hb |]. intros; apply Hab; simpl; auto.
  - apply Forall_app. split; [exact Hx|].
    apply Forall_forall. intros y Hy. apply Hab; simpl; auto.
Qed.

Section FlowEngineOrder.

Context {St Handle : Type}.
Variable limits_func : nat -> result (Z * Z).
Variable get_page : nat -> St -> result (Handle * St).
Variable add_line_text : Handle -> str -> block_type -> St -> St.
Variable indent_fullwidth : bool.

Local Arguments prepare_lines : simpl never.

Local Abbreviation commit_lines_rec' :=
  (commit_lines_rec limits_func get_page add_line_text).
Local Abbreviation commit_blocks_rec' :=
  (commit_blocks_rec limits_func get_page add_line_text indent_fullwidth).

(** *** The estimation and forced page breaks *)

Lemma estimate_lines_advances (lines : list str) :
  forall page_idx used pi u,
    estimate_lines limits_func lines page_idx used = Ok (pi, u) ->
    (page_idx <= pi)%nat.
Proof.
  induction lines as [|l lines IH]; intros page_idx used pi u H; simpl in H.
  - injection H as <- _. lia.
  - destruct (limits_func page_idx) as [[m c]|e]; simpl in H; [|discriminate].
    destruct (Z.of_nat used >=? m); apply IH in H; lia.
Qed.

Lemma estimate_blocks_advances (blocks : list block) :
  forall page_idx used pi u,
    estimate_blocks limits_func blocks page_idx used = Ok (pi, u) ->
    (page_idx + count_pagebreaks blocks <= pi)%nat.
Proof.
  unfold count_pagebreaks.
  induction blocks as [|blk blocks IH]; intros page_idx used pi u H; simpl in H.
  - injection H as <- _. simpl. lia.
  - simpl. destruct (type blk).
    1:{ apply IH in H. simpl. lia. }
    all: inv_bind H; destruct x as [m c];
      inv_bind H; destruct x as [pi1 u1];
      apply estimate_lines_advances in Hx0; apply IH in H; lia.
Qed.

(** X7. Every page break forces a page: the number of pages
    [_estimate_required_pages] returns is greater than the number of
    page-break blocks. *)
Theorem estimate_counts_pagebreaks (blocks : list block) (n : nat) :
  _estimate_required_pages limits_func blocks = Ok n ->
  (count_pagebreaks blocks + 1 <= n)%nat.
Proof.
  unfold _estimate_required_pages. intros H.
  inv_bind H. destruct x as [pi u]. injection H as <-.
  apply estimate_blocks_advances in Hx. lia.
Qed.

(** *** The order of the placements *)

Lemma commit_lines_rec_trace (ty : block_type) (lines : list str) :
  forall page_idx used st pi u st' placed,
    commit_lines_rec' ty lines page_idx used st = Ok (pi, u, st', placed) ->
    (page_idx <= pi)%nat
    /\ Forall (fun pl => (page_idx <= pl_page pl <= pi)%nat) placed
    /\ StronglySorted le (map pl_page placed)
    /\ map pl_line placed = lines
    /\ Forall (fun pl => pl_type pl = ty) placed.
Proof.
  induction lines as [|l lines IH];
    intros page_idx used st pi u st' placed H; simpl in H.
  - injection H as <- <- <- <-. repeat split; constructor.
  - destruct (limits_func page_idx) as [[m c]|e]; simpl in H; [|discriminate].
    destruct (Z.of_nat used >=? m); simpl in H.
    + destruct (get_page (page_idx + 1)%nat st) as [[h st1]|e]; simpl in H;
        [|discriminate].
      destruct (get_page (page_idx + 1)%nat st1) as [[el st2]|e]; simpl in H;
        [|discriminate].
      inv_bind H. destruct x as [[[a b] c'] d]. injection H as <- <- <- <-.
      destruct (IH _ _ _ _ _ _ _ Hx) as (H1 & H2 & H3 & H4 & H5).
      repeat split; simpl.
      * lia.
      * constructor; [simpl; lia|].
        eapply Forall_impl; [|exact H2]. simpl. intros; lia.
      * constructor; [exact H3|]. apply Forall_map.
        eapply Forall_impl; [|exact H2]. simpl. intros; lia.
      * now rewrite H4.
      * constructor; [reflexivity | exact H5].
    + destruct (get_page page_idx st) as [[el st2]|e]; simpl in H;
        [|discriminate].
      inv_bind H. destruct x as [[[a b] c'] d]. injection H as <- <- <- <-.
      destruct (IH _ _ _ _ _ _ _ Hx) as (H1 & H2 & H3 & H4 & H5).
      repeat split; simpl.
      * lia.
      * constructor; [simpl; lia | exact H2].
      * constructor; [exact H3|]. apply Forall_map.
        eapply Forall_impl; [|exact H2]. simpl. intros; lia.
      * now rewrite H4.
      * constructor; [reflexivity | exact H5].
Qed.

Lemma commit_blocks_rec_trace (blocks : list block) :
  forall page_idx used st pi u st' placed,
    commit_blocks_rec' blocks page_idx used st = Ok (pi, u, st', placed) ->
    (page_idx <= pi)%nat
    /\ Forall (fun pl => (page_idx <= pl_page pl <= pi)%nat) placed
    /\ StronglySorted le (map pl_page placed).
Proof.
  induction blocks as [|blk blocks IH];
    intros page_idx used st pi u st' placed H; simpl in H.
  - injection H as <- <- <- <-. repeat split; constructor.
  - destruct (type blk) eqn:Ety.
    1:{ inv_bind H. destruct x as [h st1].
        destruct (IH _ _ _ _ _ _ _ H) as (H1 & H2 & H3).
        repeat split; [lia | | exact H3].
        eapply Forall_impl; [|exact H2]. simpl. intros; lia. }
    all: inv_bind H; destruct x as [m c];
      inv_bind H; destruct x as [[[pi1 u1] st1] placed1];
      inv_bind H; destruct x as [[[pi2 u2] st2] placed2];
      injection H as <- <- <- <-;
      destruct (commit_lines_rec_trace _ _ _ _ _ _ _ _ _ Hx0)
        as (A1 & A2 & A3 & _);
      destruct (IH _ _ _ _ _ _ _ Hx1) as (B1 & B2 & B3);
      (repeat split;
       [ lia
       | apply Forall_app; split;
         [ eapply Forall_impl; [|exact A2]; simpl; intros; lia
         | eapply Forall_impl; [|exact B2]; simpl; intros; lia ]
       | rewrite map_app; apply StronglySorted_app; [exact A3 | exact B3 |];
         intros x y Hx' Hy';
         apply in_map_iff in Hx' as (p1 & <- & Hp1);
         apply in_map_iff in Hy' as (p2 & <- & Hp2);
         rewrite Forall_forall in A2, B2;
         specialize (A2 _ Hp1); specialize (B2 _ Hp2); simpl in *; lia ]).
Qed.

(** X8. The commit pass never goes back to an earlier page: the page
    indexes of the calls of [add_line_text], in the order of the calls, are
    non-decreasing and none is beyond the page index at which the loop
    ends. *)
Theorem commit_pages_in_order (blocks : list block) (st st' : St) (pi u : nat) :
  commit_blocks limits_func get_page add_line_text indent_fullwidth
    blocks 0 0 st = Ok (pi, u, st') ->
  exists placed,
    commit_blocks_rec' blocks 0 0 st = Ok (pi, u, st', placed)
    /\ StronglySorted le (map pl_page placed)
    /\ Forall (fun pl => (pl_page pl <= pi)%nat) placed.
Proof.
  intros H.
  destruct (commit_blocks_recorded _ _ _ _ _ _ _ _ _ _ _ H) as (placed & Hrec).
  exists placed. split; [exact Hrec|].
  destruct (commit_blocks_rec_trace _ _ _ _ _ _ _ _ Hrec) as (_ & H2 & H3).
  split; [exact H3|].
  eapply Forall_impl; [|exact H2]. simpl. intros; lia.
Qed.

Lemma commit_blocks_rec_lines (cols : Z) (blocks : list block) :
  (forall idx, exists lp, limits_func idx = Ok (lp, cols)) ->
  forall page_idx used st pi u st' placed,
    commit_blocks_rec' blocks page_idx used st = Ok (pi, u, st', placed) ->
    map pl_line placed = flat_map (block_lines indent_fullwidth cols) blocks.
Proof.
  intros Hc.
  induction blocks as [|blk blocks IH];
    intros page_idx used st pi u st' placed H; simpl in H.
  - now injection H as <- <- <- <-.
  - simpl. unfold block_lines at 1. destruct (type blk) eqn:Ety.
    1:{ inv_bind H. destruct x as [h st1]. simpl. eauto. }
    all: inv_bind H; destruct x as [m c];
      destruct (Hc page_idx) as (lp & E); rewrite E in Hx;
      injection Hx as <- <-;
      inv_bind H; destruct x as [[[pi1 u1] st1] placed1];
      inv_bind H; destruct x as [[[pi2 u2] st2] placed2];
      injection H as <- <- <- <-;
      destruct (commit_lines_rec_trace _ _ _ _ _ _ _ _ _ Hx)
        as (_ & _ & _ & A4 & _);
      rewrite map_app, A4, (IH _ _ _ _ _ _ _ Hx0); reflexivity.
Qed.

(** X9. When every page has the same number of columns, the commit pass
    places the lines of the blocks in block order, none lost, repeated or
    reordered: the lines given to [add_line_text], in the order of the
    calls, are the prepared wrapped lines of the first block, then those
    of the second block, and so on. *)
Theorem commit_places_lines_in_block_order (cols : Z) (blocks : list block)
    (st st' : St) (pi u : nat) :
  (forall idx, exists lp, limits_func idx = Ok (lp, cols)) ->
  commit_blocks limits_func get_page add_line_text indent_fullwidth
    blocks 0 0 st = Ok (pi, u, st') ->
  exists placed,
    commit_blocks_rec' blocks 0 0 st = Ok (pi, u, st', placed)
    /\ map pl_line placed = flat_map (block_lines indent_fullwidth cols) blocks.
Proof.
  intros Hc H.
  destruct (commit_blocks_recorded _ _ _ _ _ _ _ _ _ _ _ H) as (placed & Hrec).
  exists placed. split; [exact Hrec|].
  exact (commit_blocks_rec_lines cols blocks Hc _ _ _ _ _ _ _ Hrec).
Qed.

(** *** Pages without room *)

Lemma commit_lines_rec_no_room (ty : block_type) (lines : list str) :
  (forall idx, exists lp cp, limits_func idx = Ok (lp, cp) /\ lp <= 0) ->
  forall page_idx used st pi u st' placed,
    commit_lines_rec' ty lines page_idx used st = Ok (pi, u, st', placed) ->
    pi = (page_idx + List.length placed)%nat
    /\ Forall (fun pl => (page_idx < pl_page pl)%nat /\ pl_used pl = O) placed
    /\ StronglySorted lt (map pl_page placed).
Proof.
  intros Hneg.
  induction lines as [|l lines IH];
    intros page_idx used st pi u st' placed H; simpl in H.
  - injection H as <- <- <- <-. simpl. repeat split; [lia | constructor..].
  - destruct (Hneg page_idx) as (lp & cp & E & Hlp). rewrite E in H. simpl in H.
    destruct (Z.geb_spec (Z.of_nat used) lp) as [_|Hlt]; [|lia]. simpl in H.
    destruct (get_page (page_idx + 1)%nat st) as [[h st1]|e]; simpl in H;
      [|discriminate].
    destruct (get_page (page_idx + 1)%nat st1) as [[el st2]|e]; simpl in H;
      [|discriminate].
    inv_bind H. destruct x as [[[a b] c'] d]. injection H as <- <- <- <-.
    destruct (IH _ _ _ _ _ _ _ Hx) as (H1 & H2 & H3).
    repeat split; simpl.
    + lia.
    + constructor; [simpl; split; [lia | reflexivity]|].
      eapply Forall_impl; [|exact H2]. simpl. intros pl [? ?]. split; [lia | auto].
    + constructor; [exact H3|]. apply Forall_map.
      eapply Forall_impl; [|exact H2]. simpl. intros pl [? ?]. lia.
Qed.

Lemma commit_blocks_rec_no_room (blocks : list block) :
  (forall idx, exists lp cp, limits_func idx = Ok (lp, cp) /\ lp <= 0) ->
  forall page_idx used st pi u st' placed,
    commit_blocks_rec' blocks page_idx used st = Ok (pi, u, st', placed) ->
    pi = (page_idx + count_pagebreaks blocks + List.length placed)%nat
    /\ Forall (fun pl => (page_idx < pl_page pl)%nat /\ pl_used pl = O) placed
    /\ StronglySorted lt (map pl_page placed).
Proof.
  intros Hneg. unfold count_pagebreaks.
  induction blocks as [|blk blocks IH];
    intros page_idx used st pi u st' placed H; simpl in H.
  - injection H as <- <- <- <-. simpl. repeat split; [lia | constructor..].
  - simpl. destruct (type blk) eqn:Ety.
    1:{ inv_bind H. destruct x as [h st1].
        destruct (IH _ _ _ _ _ _ _ H) as (H1 & H2 & H3).
        repeat split; [simpl; lia | | exact H3].
        eapply Forall_impl; [|exact H2]. simpl. intros pl [? ?].
        split; [lia | auto]. }
    all: inv_bind H; destruct x as [m c];
      inv_bind H; destruct x as [[[pi1 u1] st1] placed1];
      inv_bind H; destruct x as [[[pi2 u2] st2] placed2];
      injection H as <- <- <- <-;
      destruct (commit_lines_rec_no_room _ _ Hneg _ _ _ _ _ _ _ Hx0)
        as (A1 & A2 & A3);
      destruct (commit_lines_rec_trace _ _ _ _ _ _ _ _ _ Hx0)
        as (_ & A4 & _);
      destruct (IH _ _ _ _ _ _ _ Hx1) as (B1 & B2 & B3);
      (repeat split;
       [ rewrite length_app; lia
       | apply Forall_app; split;
         [ exact A2
         | eapply Forall_impl; [|exact B2]; simpl; intros pl [? ?];
           split; [lia | auto] ]
       | rewrite map_app; apply StronglySorted_app; [exact A3 | exact B3 |];
         intros x y Hx' Hy';
         apply in_map_iff in Hx' as (p1 & <- & Hp1);
         apply in_map_iff in Hy' as (p2 & <- & Hp2);
         rewrite Forall_forall in A4, B2;
         specialize (A4 _ Hp1); specialize (B2 _ Hp2); simpl in *; lia ]).
Qed.

(** X10. When no page has room (every [lines_per_page] that [limits]
    resolves is zero or negative), the commit pass still ends, and every
    line opens a page of its own: the counter [used] is 0 at every call of
    [add_line_text], the page indexes of the calls are strictly increasing
    and start after the first page, and the loop ends at the page index
    that is the number of page breaks plus the number of lines. *)
Theorem commit_without_room (blocks : list block) (st st' : St) (pi u : nat) :
  (forall idx, exists lp cp, limits_func idx = Ok (lp, cp) /\ lp <= 0) ->
  commit_blocks limits_func get_page add_line_text indent_fullwidth
    blocks 0 0 st = Ok (pi, u, st') ->
  exists placed,
    commit_blocks_rec' blocks 0 0 st = Ok (pi, u, st', placed)
    /\ pi = (count_pagebreaks blocks + List.length placed)%nat
    /\ Forall (fun pl => (1 <= pl_page pl)%nat /\ pl_used pl = O) placed
    /\ StronglySorted lt (map pl_page placed).
Proof.
  intros Hneg H.
  destruct (commit_blocks_recorded _ _ _ _ _ _ _ _ _ _ _ H) as (placed & Hrec).
  exists placed. split; [exact Hrec|].
  destruct (commit_blocks_rec_no_room blocks Hneg _ _ _ _ _ _ _ Hrec)
    as (H1 & H2 & H3).
  repeat split; [lia | | exact H3].
  eapply Forall_impl; [|exact H2]. simpl. intros pl [? ?]. split; [lia | auto].
Qed.

End FlowEngineOrder.

Lemma estimate_counts_pagebreaks_witness :
  (count_pagebreaks
     [Block p (lit "ab"); Block pagebreak []; Block p (lit "cd")] + 1 <= 2)%nat.
Proof.
  apply (estimate_counts_pagebreaks scenario_limits
           [Block p (lit "ab"); Block pagebreak []; Block p (lit "cd")] 2%nat).
  vm_compute. reflexivity.
Defined.

Lemma commit_pages_in_order_witness :
  exists placed,
    commit_blocks_rec scenario_limits sheets_get_page sheets_add_line_text false
      (parse_markdown scenario_src false newpage_marker) 0 0 []
    = Ok (2%nat, 2%nat,
          [(0%nat, lit "Title"); (0%nat, []);
           (1%nat, lit "Body text"); (1%nat, lit "- item one");
           (2%nat, lit "- item two"); (2%nat, [])], placed)
    /\ StronglySorted le (map pl_page placed)
    /\ Forall (fun pl => (pl_page pl <= 2)%nat) placed.
Proof.
  apply (commit_pages_in_order scenario_limits sheets_get_page
           sheets_add_line_text false).
  vm_compute. reflexivity.
Defined.

Lemma commit_places_lines_in_block_order_witness :
  exists placed,
    commit_blocks_rec scenario_limits sheets_get_page sheets_add_line_text false
      (parse_markdown scenario_src false newpage_marker) 0 0 []
    = Ok (2%nat, 2%nat,
          [(0%nat, lit "Title"); (0%nat, []);
           (1%nat, lit "Body text"); (1%nat, lit "- item one");
           (2%nat, lit "- item two"); (2%nat, [])], placed)
    /\ map pl_line placed
       = flat_map (block_lines false 10)
           (parse_markdown scenario_src false newpage_marker).
Proof.
  apply (commit_places_lines_in_block_order scenario_limits sheets_get_page
           sheets_add_line_text false 10).
  - intros idx. exists 2. apply scenario_limits_const.
  - vm_compute. reflexivity.
Defined.

Lemma commit_without_room_witness :
  exists placed,
    commit_blocks_rec (fun _ => Ok (0, 10)) sheets_get_page sheets_add_line_text
      false [Block p (lit "ab"); Block pagebreak []; Block p (lit "cd")] 0 0 []
    = Ok (3%nat, 1%nat, [(1%nat, lit "ab"); (3%nat, lit "cd")], placed)
    /\ 3%nat
       = (count_pagebreaks
            [Block p (lit "ab"); Block pagebreak []; Block p (lit "cd")]
          + List.length placed)%nat
    /\ Forall (fun pl => (1 <= pl_page pl)%nat /\ pl_used pl = O) placed
    /\ StronglySorted lt (map pl_page placed).
Proof.
  apply (commit_without_room (fun _ => Ok (0, 10)) sheets_get_page
           sheets_add_line_text false).
  - intros idx. exists 0, 10. split; [reflexivity | lia].
  - vm_compute. reflexivity.
Defined.

(* ================================================================= *)
(** * Further properties of the settings *)

Lemma page_label_eqb (k idx : nat) :
  str_eqb (lit "p" ++ str_of_nat k) (lit "p" ++ str_of_nat (idx + 1))
  = Nat.eqb (idx + 1) k.
Proof.
  destruct (Nat.eqb_spec (idx + 1) k) as [<-|Hne]; [apply str_eqb_refl|].
  destruct (str_eqb _ _) eqn:E; [|reflexivity].
  apply str_eqb_eq, app_inv_head, str_of_nat_inj in E. congruence.
Qed.

Lemma default_is_no_page_label (idx : nat) :
  str_eqb (lit "default") (lit "p" ++ str_of_nat (idx + 1)) = false.
Proof. reflexivity. Qed.

(** X11. An entry of the settings under the label [p<k>] sets the budget
    of the page with index [k - 1] and of no other page: with such an entry
    and a [default] entry in [lines_per_page] and [cols_per_line], [limits]
    resolves the entries of [p<k>] for the index [k - 1] and the defaults
    for every other index. *)
Theorem limits_page_entry (int_of_str : str -> result Z) (k : nat)
    (a b c d : Z) (idx : nat) :
  limits int_of_str
    (JDict
       [ (lit "lines_per_page",
           JDict [(lit "p" ++ str_of_nat k, JInt a); (lit "default", JInt b)]);
         (lit "cols_per_line",
           JDict [(lit "p" ++ str_of_nat k, JInt c); (lit "default", JInt d)]) ])
    idx
  = Ok (if Nat.eqb (idx + 1) k then (a, c) else (b, d)).
Proof.
  unfold limits.
  cbn [getitem dict_lookup dict_get bind].
  change (str_eqb (lit "lines_per_page") (lit "lines_per_page")) with true.
  change (str_eqb (lit "lines_per_page") (lit "cols_per_line")) with false.
  change (str_eqb (lit "cols_per_line") (lit "cols_per_line")) with true.
  cbn [bind dict_get dict_lookup].
  change (str_eqb (lit "p" ++ str_of_nat k) (lit "default")) with false.
  change (str_eqb (lit "default") (lit "default")) with true.
  cbn [bind dict_get dict_lookup].
  rewrite page_label_eqb, default_is_no_page_label.
  change (str_eqb (lit "default") (lit "default")) with true.
  destruct (Nat.eqb (idx + 1) k); reflexivity.
Qed.

(** X12. [read_settings] falls back to the defaults only when the file
    cannot be read or parsed: a file that parses to an object without the
    key [lines_per_page] is returned as it is, and [limits] then raises
    [KeyError] for every page. *)
Theorem settings_without_lines_per_page
    (json_loads : str -> result json) (int_of_str : str -> result Z)
    (s : str) (d : list (str * json)) (idx : nat) :
  json_loads s = Ok (JDict d) ->
  dict_lookup d (lit "lines_per_page") = None ->
  read_settings json_loads (Content s) = Ok (JDict d)
  /\ limits int_of_str (JDict d) idx = Raise KeyError.
Proof.
  intros Hs Hd. split.
  - unfold read_settings. simpl. now rewrite Hs.
  - unfold limits, getitem. now rewrite Hd.
Qed.

Lemma settings_without_lines_per_page_witness :
  read_settings (fun _ => Ok (JDict [])) (Content (lit "{}")) = Ok (JDict [])
  /\ limits (fun _ => Raise ValueError) (JDict []) 0 = Raise KeyError.
Proof.
  apply (settings_without_lines_per_page (fun _ => Ok (JDict []))
           (fun _ => Raise ValueError) (lit "{}") [] 0%nat); reflexivity.
Defined.

(* ================================================================= *)
(** * Further properties of the identifiers *)

(** Induction on an element with the property for all its children. *)
Lemma element_children_ind (P : element -> Prop) :
  (forall t a cs, Forall P cs -> P (Element t a cs)) -> forall e, P e.
Proof.
  intros H.
  refine (fix IH (e : element) : P e :=
            match e with
            | Element t a cs =>
                H t a cs
                  ((fix go (l : list element) : Forall P l :=
                      match l with
                      | [] => Forall_nil P
                      | c :: l' => Forall_cons c (IH c) (go l')
                      end) cs)
            end).
Qed.

Lemma uint_chars_id (u : Decimal.uint) :
  forallb is_id_char (lit (NilEmpty.string_of_uint u)) = true.
Proof. induction u; simpl; auto. Qed.

Lemma sanitize_id_chars (base : str) :
  forallb is_id_char (sanitize_id base) = true /\ sanitize_id base <> [].
Proof.
  unfold sanitize_id. split.
  - match goal with |- context [map _ ?x] => generalize x end.
    intros b. induction b as [|c s IH]; simpl; [reflexivity|].
    rewrite IH, andb_true_r. destruct (is_id_char c) eqn:E; [exact E | reflexivity].
  - destruct base; discriminate.
Qed.

Lemma id_candidate_chars (base : str) (i : nat) :
  forallb is_id_char base = true -> base <> [] ->
  forallb is_id_char (id_candidate base i) = true /\ id_candidate base i <> [].
Proof.
  intros Hb Hne. destruct i as [|i]; simpl; [auto|]. split.
  - rewrite forallb_app, Hb. simpl. apply uint_chars_id.
  - destruct base; [congruence | discriminate].
Qed.

Lemma gen_loop_candidate (fuel : nat) (used : list str) (base : str) :
  forall i, exists j, gen_loop fuel used base i = id_candidate base j.
Proof.
  induction fuel as [|fuel IH]; intros i; simpl; [eauto|].
  destruct (existsb _ used); eauto.
Qed.

(** X13. [_gen_unique_id] returns an identifier that is not in [used] and
    adds it to [used]; the identifier is not empty and is made of letters,
    digits and the characters [_.:-] only; when the sanitised base is not
    in use it is returned as it is. *)
Theorem gen_unique_id_fresh_and_safe (used : list str) (base : str) :
  ~ In (fst (_gen_unique_id used base)) used
  /\ snd (_gen_unique_id used base) = fst (_gen_unique_id used base) :: used
  /\ fst (_gen_unique_id used base) <> []
  /\ forallb is_id_char (fst (_gen_unique_id used base)) = true
  /\ (~ In (sanitize_id base) used ->
      fst (_gen_unique_id used base) = sanitize_id base).
Proof.
  split; [apply _gen_unique_id_fresh|]. split; [reflexivity|].
  destruct (sanitize_id_chars base) as (Hc & Hne).
  unfold _gen_unique_id. cbn [fst].
  assert (Hfirst : ~ In (sanitize_id base) used ->
            gen_loop (List.length used) used (sanitize_id base) 0
            = sanitize_id base).
  { intros Hfree. destruct used as [|u used']; [reflexivity|].
    cbn [List.length gen_loop].
    destruct (existsb (str_eqb (id_candidate (sanitize_id base) 0)) (u :: used'))
      eqn:Eu; [|reflexivity].
    apply existsb_str_eqb_In in Eu. simpl id_candidate in Eu. contradiction. }
  destruct (gen_loop_candidate (List.length used) used (sanitize_id base) 0)
    as (j & E).
  rewrite E in *.
  destruct (id_candidate_chars _ j Hc Hne) as (H1 & H2).
  repeat split; auto.
Qed.

Lemma gen_unique_id_parts (used : list str) (base : str) :
  ~ In (fst (_gen_unique_id used base)) used
  /\ fst (_gen_unique_id used base) <> [].
Proof.
  split; [apply _gen_unique_id_fresh|].
  destruct (sanitize_id_chars base) as (Hc & Hne).
  unfold _gen_unique_id. cbn [fst].
  destruct (gen_loop_candidate (List.length used) used (sanitize_id base) 0)
    as (j & ->).
  now apply id_candidate_chars.
Qed.

Lemma regen_spec_nil (used : list str) : regen_spec used used [].
Proof. repeat split; [constructor | easy]. Qed.

Lemma regen_spec_app (used used1 used2 : list str) (n1 n2 : list str) :
  regen_spec used used1 n1 -> regen_spec used1 used2 n2 ->
  regen_spec used used2 (n1 ++ n2).
Proof.
  intros (E1 & D1 & F1) (E2 & D2 & F2). subst used1 used2.
  repeat split.
  - now rewrite rev_app_distr, app_assoc.
  - apply NoDup_app; [exact D1 | exact D2 |].
    intros x H1 H2. apply (F2 x H2). apply in_or_app. left.
    now apply in_rev in H1.
  - intros x Hx Hu. apply in_app_or in Hx as [Hx|Hx].
    + now apply (F1 x).
    + apply (F2 x Hx). apply in_or_app. now right.
Qed.

Lemma regen_each_spec (used : list str) (cs : list element) :
  Forall (fun c => forall used,
            regen_spec used (fst (regen_ids used c))
              (_collect_ids (snd (regen_ids used c)))) cs ->
  regen_spec used (fst (regen_each regen_ids used cs))
    (flat_map _collect_ids (snd (regen_each regen_ids used cs))).
Proof.
  intros H. revert used.
  induction H as [|c cs Hc _ IH]; intros used; simpl.
  - apply regen_spec_nil.
  - specialize (Hc used).
    destruct (regen_ids used c) as [used1 c'].
    specialize (IH used1).
    destruct (regen_each regen_ids used1 cs) as [used2 cs'].
    simpl in *. eapply regen_spec_app; eassumption.
Qed.

Lemma regen_ids_spec (e : element) :
  forall used,
    regen_spec used (fst (regen_ids used e))
      (_collect_ids (snd (regen_ids used e))).
Proof.
  induction e as [t a cs IH] using element_children_ind. intros used.
  cbn [regen_ids].
  destruct (attr_get a "id") as [i|] eqn:Ei.
  - destruct (gen_unique_id_parts used i) as (Hfresh & Hne).
    unfold _gen_unique_id in *.
    set (cand := gen_loop (List.length used) used (sanitize_id i) 0) in *.
    cbn [fst] in Hfresh, Hne. cbv zeta.
    pose proof (regen_each_spec (cand :: used) cs IH) as Hcs.
    destruct (regen_each regen_ids (cand :: used) cs) as [used2 cs'].
    cbn [fst snd] in *. cbn [_collect_ids].
    rewrite attr_get_set_same.
    destruct cand as [|x cand']; [congruence|]. cbn [is_empty].
    apply (regen_spec_app used ((x :: cand') :: used) used2 [x :: cand']);
      [|exact Hcs].
    repeat split.
    + constructor; [easy | constructor].
    + intros y [<-|[]]. exact Hfresh.
  - pose proof (regen_each_spec used cs IH) as Hcs.
    destruct (regen_each regen_ids used cs) as [used2 cs'].
    cbn [fst snd] in *. cbn [_collect_ids]. rewrite Ei. exact Hcs.
Qed.

(** X14. [clone_layer_as] keeps the identifiers of the document unique:
    the identifiers of the document after the call are those before,
    followed by the identifiers of the clone, which are pairwise distinct
    and differ from every identifier the document had. *)
Theorem clone_layer_as_unique_ids (root src_layer : element)
    (new_name text_label_old text_label_new : str) :
  let clone :=
    cloned_layer root src_layer new_name text_label_old text_label_new in
  _collect_ids
    (fst (clone_layer_as root src_layer new_name text_label_old text_label_new))
  = _collect_ids root ++ _collect_ids clone
  /\ NoDup (_collect_ids clone)
  /\ (forall x, In x (_collect_ids clone) -> ~ In x (_collect_ids root))
  /\ (NoDup (_collect_ids root) ->
      NoDup
        (_collect_ids
           (fst (clone_layer_as root src_layer new_name
                   text_label_old text_label_new)))).
Proof.
  intros clone.
  assert (E : _collect_ids
                (fst (clone_layer_as root src_layer new_name
                        text_label_old text_label_new))
              = _collect_ids root ++ _collect_ids clone).
  { unfold clone_layer_as. fold clone. cbn [fst].
    destruct root as [t a cs]. unfold el_append. cbn [tag attrib children].
    cbn [_collect_ids]. rewrite flat_map_app. simpl flat_map.
    now rewrite app_nil_r, app_assoc. }
  unfold clone, cloned_layer.
  match goal with
  | |- context [regen_ids (_collect_ids root) ?c] =>
      destruct (regen_ids_spec c (_collect_ids root)) as (_ & Hnd & Hfr)
  end.
  fold (cloned_layer root src_layer new_name text_label_old text_label_new).
  fold clone. fold clone in E, Hnd, Hfr.
  repeat split; try assumption.
  intros Hroot. rewrite E. apply NoDup_app; try assumption.
  intros x H1 H2. exact (Hfr x H2 H1).
Qed.

(* ================================================================= *)
(** * Further properties of the page provisioner *)

Lemma get_at_app (q r : path) :
  forall e x, get_at e q = Some x -> get_at e (q ++ r) = get_at x r.
Proof.
  induction q as [|i q IH]; intros e x H; simpl in *.
  - now injection H as <-.
  - destruct (nth_error (children e) i); [now apply IH | discriminate].
Qed.

(** The text [find_pre_text] finds is a text labelled as asked. *)
Lemma find_pre_text_some (d : element) (label : str) (h : path) :
  find_pre_text d label = Some h ->
  exists x, get_at d h = Some x /\ is_text_labelled label x = true.
Proof.
  unfold find_pre_text, find_layer_by_label, find_text_by_label. intros H.
  destruct (find_desc (is_layer_labelled label) d) as [lp|]; [|discriminate].
  destruct (get_at d lp) as [pre_layer|] eqn:Hl; [|discriminate].
  destruct (find_desc (is_text_labelled label) pre_layer) as [tp|] eqn:Ht;
    [|discriminate].
  injection H as <-.
  destruct (find_desc_some _ _ _ Ht) as (_ & x & Hx & HP).
  exists x. split; [|exact HP]. now rewrite (get_at_app _ _ _ _ Hl).
Qed.

Lemma same_shape_el_append (c e : element) : same_shape e (el_append c e).
Proof. repeat split. Qed.

Section ProvisionerMore.

Variable float : Type.
Variable float_of_str : str -> result float.
Variable str_of_float : float -> str.
Variables fadd fsub fmul : float -> float -> float.
Variables gap_units PX_PER_MM : float.
Variable props : Type.
Variable props_empty : props -> bool.
Variable restyle : str -> props -> str.
Variable label_css : str -> option props.
Variable layer_p2 : path.

(** What [str] prints of a float, [float] reads. *)
Hypothesis float_of_str_of_float :
  forall x, exists y, float_of_str (str_of_float x) = Ok y.

Local Abbreviation get_page' :=
  (get_page float float_of_str str_of_float fadd fsub fmul gap_units PX_PER_MM
     props props_empty restyle label_css layer_p2).
Local Abbreviation ensure_phys' := (ensure_phys float str_of_float fadd gap_units).
Local Abbreviation list_pages' := (_list_pages float float_of_str).

(** The three ways [get_page] returns: with the labelled text that is in
    the document already; with the element listed for the index, after
    physical pages have been added; with the text of a new layer, appended
    to the root as a copy of the pattern. *)
Lemma get_page_cases (idx : nat) (st st1 : run_state) (h : path) :
  let lab := lit "p" ++ str_of_nat (idx + 1) in
  get_page' idx st = Ok (h, st1) ->
  (find_pre_text (doc st) lab = Some h
   /\ doc st1 = doc st
   /\ pages st1
      = if (List.length (pages st) <=? idx)%nat
        then pages st ++ [(lab, h)] else pages st)
  \/ (find_pre_text (doc st) lab = None
      /\ exists nvp nv1 pgs1 doc1,
           grown (doc st) doc1
           /\ _namedview doc1 = Some nvp
           /\ get_at doc1 nvp = Some nv1
           /\ list_pages' nv1 = Ok pgs1
           /\ (idx + 1 <= List.length pgs1)%nat
           /\ ((exists l, nth_error (pages st) idx = Some (l, h))
               /\ doc st1 = doc1 /\ pages st1 = pages st
               \/ nth_error (pages st) idx = None
                  /\ exists src1 c tp,
                       get_at doc1 layer_p2 = Some src1
                       /\ grown (cloned_layer doc1 src1 lab (lit "p2") lab) c
                       /\ find_text_by_label
                            (cloned_layer doc1 src1 lab (lit "p2") lab) lab
                          = Some tp
                       /\ doc st1 = el_append c doc1
                       /\ h = [List.length (children doc1)] ++ tp
                       /\ pages st1 = pages st ++ [(lab, h)])).
Proof.
  intros lab H. unfold get_page in H. fold lab in H.
  destruct (find_pre_text (doc st) lab) as [pt|] eqn:Hpre.
  { left. injection H as <- <-. auto. }
  right. split; [reflexivity|].
  destruct (_namedview (doc st)) as [nvp|] eqn:Hnv; [|discriminate].
  unfold resolve in H.
  destruct (get_at (doc st) nvp) as [nv|] eqn:Hget; [|discriminate].
  cbn [bind] in H.
  destruct (list_pages' nv) as [pgs0|e] eqn:Hlp; [|discriminate].
  cbn [bind] in H.
  destruct pgs0 as [|g0 pgs0']; [discriminate|].
  destruct (ensure_phys_spec float float_of_str str_of_float fadd gap_units
              float_of_str_of_float nvp g0
              (idx + 1 - List.length (g0 :: pgs0'))
              (doc st) (g0 :: pgs0') (g0 :: pgs0') nv Hget Hlp)
    as (nv1 & pgs1 & Hget1 & Hlp1 & Hlen1 & Hgrown).
  destruct (ensure_phys' (idx + 1 - List.length (g0 :: pgs0')) nvp (doc st)
              (g0 :: pgs0') g0) as [doc1 pgsx] eqn:Hens.
  cbn [fst] in Hget1, Hgrown.
  exists nvp, nv1, pgs1, doc1.
  split; [exact Hgrown|].
  split; [now rewrite (grown_namedview _ _ Hgrown)|].
  split; [exact Hget1|]. split; [exact Hlp1|]. split; [lia|].
  destruct (nth_error (pages st) idx) as [[lab' el]|] eqn:Hnth.
  { left. injection H as <- <-. eauto. }
  right. split; [reflexivity|].
  destruct (get_at doc1 layer_p2) as [src1|] eqn:Hsrc1; [|discriminate].
  cbn [bind] in H. unfold clone_layer_as in H.
  set (clone := cloned_layer doc1 src1 lab (lit "p2") lab) in *.
  rewrite (get_at_el_append_new clone doc1) in H. cbn [bind] in H.
  destruct (find_text_by_label clone lab) as [tp|] eqn:Htp; [|discriminate].
  match type of H with
  | context [update_at ?f (el_append clone doc1) [?n]] =>
      assert (Hft : harmless f)
        by (apply (harmless_el_set "transform"); discriminate);
      set (ft := f) in *
  end.
  destruct (label_css lab) as [pr|].
  - destruct (styled_clone doc1 clone tp ft
                (apply_style props props_empty restyle pr) Hft
                (harmless_apply_style props props_empty restyle pr))
      as (c3 & c4 & _ & E4 & _ & Hg4).
    cbv zeta in E4. rewrite E4 in H. injection H as <- <-.
    exists src1, c4, tp. repeat split; auto.
  - destruct (styled_clone doc1 clone tp ft (fun x => x) Hft harmless_id)
      as (c3 & c4 & E3 & _ & Hg3 & _).
    cbv zeta in E3. rewrite E3 in H. injection H as <- <-.
    exists src1, c3, tp. repeat split; auto.
Qed.

(** X15. For an index that is not listed in [pages], the element
    [get_page] returns is, in the document it leaves, a text element
    ([svg:text] or [svg:flowRoot]) labelled [p<idx+1>]; when the index is
    the next one to list, the element is listed under that label at that
    index. *)
Theorem get_page_returns_labelled_text (idx : nat) (st st1 : run_state)
    (h : path) :
  nth_error (pages st) idx = None ->
  get_page' idx st = Ok (h, st1) ->
  (exists x,
      get_at (doc st1) h = Some x
      /\ is_text_labelled (lit "p" ++ str_of_nat (idx + 1)) x = true)
  /\ (idx = List.length (pages st) ->
      nth_error (pages st1) idx = Some (lit "p" ++ str_of_nat (idx + 1), h)).
Proof.
  intros Hnth H.
  destruct (get_page_cases idx st st1 h H)
    as [(Hpre & Hdoc & Hpages)
       |(_ & nvp & nv1 & pgs1 & doc1 & Hg & _ & _ & _ & _ &
         [((l & Hl) & _)
         |(_ & src1 & c & tp & _ & Hc & Htp & Hdoc & Hh & Hpages)])].
  - split.
    + rewrite Hdoc. now apply find_pre_text_some.
    + intros ->. rewrite Hpages, Nat.leb_refl.
      rewrite nth_error_app2 by lia. now rewrite Nat.sub_diag.
  - congruence.
  - split.
    + destruct (find_desc_some _ _ _ Htp) as (_ & x & Hx & HP).
      destruct (grown_get_at _ _ Hc _ _ Hx) as (x' & Hx' & Hgx).
      exists x'. split.
      * rewrite Hdoc, Hh.
        now rewrite (get_at_app _ tp _ _ (get_at_el_append_new c doc1)).
      * now rewrite (shape_pred_same _ _ _ (shape_pred_text _)
                       (grown_same_shape _ _ Hgx)).
    + intros ->. rewrite Hpages.
      rewrite nth_error_app2 by lia. now rewrite Nat.sub_diag.
Qed.

(** X16. When the document holds no text labelled [p<idx+1>] in a layer
    of that label, [get_page] leaves a document whose named view has at
    least [idx + 1] pages that [_list_pages] reads. *)
Theorem get_page_ensures_physical_pages (idx : nat) (st st1 : run_state)
    (h : path) :
  pattern_layer layer_p2 (doc st) ->
  find_pre_text (doc st) (lit "p" ++ str_of_nat (idx + 1)) = None ->
  get_page' idx st = Ok (h, st1) ->
  exists nvp nv pgs,
    _namedview (doc st1) = Some nvp
    /\ get_at (doc st1) nvp = Some nv
    /\ list_pages' nv = Ok pgs
    /\ (idx + 1 <= List.length pgs)%nat.
Proof.
  intros (src & Hsrc & Hlayer) Hnone H.
  destruct (get_page_cases idx st st1 h H)
    as [(Hpre & _)
       |(_ & nvp & nv1 & pgs1 & doc1 & Hg & Hnv & Hget & Hlp & Hlen &
         [(_ & Hdoc & _)
         |(_ & src1 & c & tp & Hsrc1 & Hc & _ & Hdoc & _)])].
  - congruence.
  - rewrite Hdoc. exists nvp, nv1, pgs1. auto.
  - destruct (grown_get_at _ _ Hg _ _ Hsrc) as (src1' & Hsrc1' & Hg1).
    rewrite Hsrc1 in Hsrc1'. injection Hsrc1' as <-.
    assert (Hl1 : is_layer_labelled (lit "p2") src1 = true).
    { now rewrite (shape_pred_same _ _ _ (shape_pred_layer (lit "p2"))
                     (grown_same_shape _ _ Hg1)). }
    pose proof (cloned_layer_is_layer doc1 src1
                  (lit "p" ++ str_of_nat (idx + 1)) (lit "p2")
                  (lit "p" ++ str_of_nat (idx + 1)) Hl1) as Hcl.
    rewrite <- (shape_pred_same _ _ _ (shape_pred_layer _)
                  (grown_same_shape _ _ Hc)) in Hcl.
    assert (Hpg : is_page c = false).
    { unfold is_layer_labelled in Hcl.
      apply andb_true_iff in Hcl as [Hcl _].
      apply andb_true_iff in Hcl as [Ht _].
      apply String.eqb_eq in Ht. unfold is_page. now rewrite Ht. }
    destruct (list_pages_el_append float float_of_str c doc1 nv1 nvp Hpg Hget)
      as (nv' & Hget' & Hlp').
    rewrite Hdoc. exists nvp, nv', pgs1.
    split; [now apply namedview_el_append|].
    split; [exact Hget'|]. split; [now rewrite Hlp' | exact Hlen].
Qed.

(** X17. [get_page] removes and moves nothing: every element of the
    document is, after the call, at the path it had, with its tag, label
    and group mode; and the list [pages] only grows at its end. *)
Theorem get_page_keeps_elements (idx : nat) (st st1 : run_state) (h : path) :
  get_page' idx st = Ok (h, st1) ->
  (exists more, pages st1 = pages st ++ more)
  /\ forall q x,
       get_at (doc st) q = Some x ->
       exists x', get_at (doc st1) q = Some x' /\ same_shape x x'.
Proof.
  intros H.
  destruct (get_page_cases idx st st1 h H)
    as [(Hpre & Hdoc & Hpages)
       |(_ & nvp & nv1 & pgs1 & doc1 & Hg & _ & _ & _ & _ &
         [(_ & Hdoc & Hpages)
         |(_ & src1 & c & tp & _ & _ & _ & Hdoc & _ & Hpages)])].
  - split.
    + rewrite Hpages. destruct (_ <=? _)%nat; [eauto|].
      exists []. now rewrite app_nil_r.
    + intros q x Hx. rewrite Hdoc. exists x. split; [exact Hx|].
      apply same_shape_refl.
  - split; [exists []; now rewrite Hpages, app_nil_r|].
    intros q x Hx. rewrite Hdoc.
    destruct (grown_get_at _ _ Hg _ _ Hx) as (x' & Hx' & Hgx).
    exists x'. split; [exact Hx' | now apply grown_same_shape].
  - split; [eauto|].
    intros q x Hx. rewrite Hdoc.
    destruct (grown_get_at _ _ Hg _ _ Hx) as (x' & Hx' & Hgx).
    destruct q as [|i q].
    + simpl in Hx'. injection Hx' as <-.
      exists (el_append c doc1). split; [reflexivity|].
      eapply same_shape_trans; [apply (grown_same_shape _ _ Hgx)|].
      apply same_shape_el_append.
    + exists x'. split; [|now apply grown_same_shape].
      apply get_at_el_append; [discriminate | exact Hx'].
Qed.

End ProvisionerMore.

Lemma get_page_returns_labelled_text_witness :
  exists h st1,
    small_get_page 2 small_state = Ok (h, st1)
    /\ (exists x,
          get_at (doc st1) h = Some x
          /\ is_text_labelled (lit "p" ++ str_of_nat (2 + 1)) x = true)
    /\ (2%nat = List.length (pages small_state) ->
        nth_error (pages st1) 2 = Some (lit "p" ++ str_of_nat (2 + 1), h)).
Proof.
  destruct (small_get_page 2 small_state) as [[h st1]|e] eqn:E;
    [|vm_compute in E; discriminate].
  exists h, st1. split; [reflexivity|].
  apply (get_page_returns_labelled_text Z nat_float_of_str nat_str_of_float
           Z.add Z.sub Z.mul 10 4 unit (fun _ => true) (fun s _ => s)
           (fun _ => None) [2%nat]
           (fun x => ex_intro _ (leading_digits (nat_str_of_float x) 0) eq_refl)
           2%nat small_state st1 h).
  - reflexivity.
  - exact E.
Defined.

Lemma get_page_ensures_physical_pages_witness :
  exists h st1,
    small_get_page 2 small_state = Ok (h, st1)
    /\ exists nvp nv pgs,
         _namedview (doc st1) = Some nvp
         /\ get_at (doc st1) nvp = Some nv
         /\ _list_pages Z nat_float_of_str nv = Ok pgs
         /\ (2 + 1 <= List.length pgs)%nat.
Proof.
  destruct (small_get_page 2 small_state) as [[h st1]|e] eqn:E;
    [|vm_compute in E; discriminate].
  exists h, st1. split; [reflexivity|].
  apply (get_page_ensures_physical_pages Z nat_float_of_str nat_str_of_float
           Z.add Z.sub Z.mul 10 4 unit (fun _ => true) (fun s _ => s)
           (fun _ => None) [2%nat]
           (fun x => ex_intro _ (leading_digits (nat_str_of_float x) 0) eq_refl)
           2%nat small_state st1 h).
  - exists (layer (lit "p2") [text_box (lit "p2")]). split; reflexivity.
  - reflexivity.
  - exact E.
Defined.

Lemma get_page_keeps_elements_witness :
  exists h st1,
    small_get_page 2 small_state = Ok (h, st1)
    /\ (exists more, pages st1 = pages small_state ++ more)
    /\ forall q x,
         get_at (doc small_state) q = Some x ->
         exists x', get_at (doc st1) q = Some x' /\ same_shape x x'.
Proof.
  destruct (small_get_page 2 small_state) as [[h st1]|e] eqn:E;
    [|vm_compute in E; discriminate].
  exists h, st1. split; [reflexivity|].
  apply (get_page_keeps_elements Z nat_float_of_str nat_str_of_float
           Z.add Z.sub Z.mul 10 4 unit (fun _ => true) (fun s _ => s)
           (fun _ => None) [2%nat]
           (fun x => ex_intro _ (leading_digits (nat_str_of_float x) 0) eq_refl)
           2%nat small_state st1 h).
  exact E.
Defined.

Lemma run_commit_in_range_witness :
  run_commit (fun _ _ _ d => d) scenario_limits false
    (get_page_in_range Z nat_float_of_str nat_str_of_float Z.add Z.sub Z.mul
       10 4 unit (fun _ => true) (fun s _ => s) (fun _ => None) [2%nat])
    (parse_markdown scenario_src false newpage_marker) small_state
  = run_commit (fun _ _ _ d => d) scenario_limits false small_get_page
      (parse_markdown scenario_src false newpage_marker) small_state.
Proof.
  apply (run_commit_in_range Z nat_float_of_str nat_str_of_float Z.add Z.sub
           Z.mul 10 4 unit (fun _ => true) (fun s _ => s) (fun _ => None)
           [2%nat] (fun _ _ _ d => d) scenario_limits false
           (parse_markdown scenario_src false newpage_marker) small_state).
  simpl. lia.
Defined.

(* ================================================================= *)
(** * Inline bold *)

Lemma startswith_inv (p : str) :
  forall s, startswith s p = true -> exists r, s = p ++ r.
Proof.
  induction p as [|x p IH]; intros s H; simpl in H; [now exists s|].
  destruct s as [|y s]; [discriminate|].
  apply andb_true_iff in H as [Hx Hs]. apply Z.eqb_eq in Hx. subst y.
  destruct (IH _ Hs) as (r & ->). now exists r.
Qed.

Lemma bold_body_spec (s g : str) :
  bold_body s = Some g ->
  exists rest,
    s = g ++ [STAR; STAR] ++ rest /\ g <> [] /\ no_line_feed g = true.
Proof.
  revert g. induction s as [|c s IH]; intros g H; cbn [bold_body] in H;
    [discriminate|].
  destruct (c =? NL) eqn:Ec; [discriminate|].
  destruct (startswith s [STAR; STAR]) eqn:Es.
  - injection H as <-. destruct (startswith_inv _ _ Es) as (r & ->).
    exists r. repeat split; [discriminate|]. unfold no_line_feed. simpl.
    now rewrite Ec.
  - destruct (bold_body s) as [g'|]; [|discriminate]. injection H as <-.
    destruct (IH _ eq_refl) as (r & -> & _ & Hn).
    exists r. repeat split; [discriminate|]. unfold no_line_feed in *. simpl.
    now rewrite Ec, Hn.
Qed.

Lemma bold_match_spec (s g : str) :
  bold_match s = Some g ->
  exists rest,
    s = [STAR; STAR] ++ g ++ [STAR; STAR] ++ rest
    /\ g <> [] /\ no_line_feed g = true.
Proof.
  unfold bold_match. destruct s as [|c1 [|c2 r]]; try discriminate.
  destruct (c1 =? STAR) eqn:E1; [|discriminate].
  destruct (c2 =? STAR) eqn:E2; [|discriminate]. simpl.
  apply Z.eqb_eq in E1, E2. subst. intros H.
  destruct (bold_body_spec _ _ H) as (rest & -> & Hg). now exists rest.
Qed.

Lemma flush_source (buf : str) :
  List.concat
    (map segment_source (if is_empty buf then [] else [(buf, false)]))
  = buf.
Proof. destruct buf; simpl; [reflexivity | now rewrite app_nil_r]. Qed.

Lemma bold_scan_source (s : str) :
  forall skip buf,
    List.concat (map segment_source (bold_scan skip buf s))
    = buf ++ skipn skip s.
Proof.
  induction s as [|c s IH]; intros skip buf.
  - cbn [bold_scan]. rewrite flush_source. now rewrite skipn_nil, app_nil_r.
  - destruct skip as [|k]; [|exact (IH k buf)].
    cbn [bold_scan skipn].
    destruct (bold_match (c :: s)) as [g|] eqn:Em.
    + destruct (bold_match_spec _ _ Em) as (rest & E & _).
      simpl in E. injection E as -> ->.
      rewrite map_app, concat_app, flush_source. cbn [map List.concat].
      rewrite IH. cbn [segment_source snd fst].
      replace (List.length g + 3)%nat with (S (List.length g + 2)) by lia.
      cbn [skipn]. rewrite skipn_app.
      rewrite (skipn_all2 g) by lia.
      replace (List.length g + 2 - List.length g)%nat with 2%nat by lia.
      cbn [skipn app]. now rewrite <- !app_assoc.
    + rewrite IH. cbn [skipn]. now rewrite <- app_assoc.
Qed.

(** X19. [split_inline_bold] loses nothing: writing the segments back in
    order, each bold one between two pairs of asterisks, gives the text. *)
Theorem split_inline_bold_round_trip (text : str) :
  List.concat (map segment_source (split_inline_bold text)) = text.
Proof.
  unfold split_inline_bold.
  pose proof (bold_scan_source text O []) as H. simpl in H.
  destruct (bold_scan O [] text) as [|seg parts]; [|exact H].
  simpl in H. now subst.
Qed.

Lemma split_inline_bold_source_nonempty (text : str) :
  text <> [] -> split_inline_bold text = bold_scan O [] text.
Proof.
  intros Hne. unfold split_inline_bold.
  pose proof (bold_scan_source text O []) as H. simpl in H.
  destruct (bold_scan O [] text); [simpl in H; congruence | reflexivity].
Qed.

Lemma bold_scan_segments (s : str) :
  forall skip buf,
    Forall (fun seg =>
              fst seg <> []
              /\ (snd seg = true -> no_line_feed (fst seg) = true))
      (bold_scan skip buf s).
Proof.
  assert (Hflush : forall buf,
             Forall (fun seg : str * bool =>
                       fst seg <> []
                       /\ (snd seg = true -> no_line_feed (fst seg) = true))
               (if is_empty buf then [] else [(buf, false)])).
  { intros [|c buf]; simpl; [constructor|].
    constructor; [|constructor]. split; [discriminate|]. discriminate. }
  induction s as [|c s IH]; intros skip buf.
  - apply Hflush.
  - destruct skip as [|k]; [|exact (IH k buf)].
    cbn [bold_scan].
    destruct (bold_match (c :: s)) as [g|] eqn:Em; [|apply IH].
    destruct (bold_match_spec _ _ Em) as (rest & _ & Hne & Hnl).
    apply Forall_app. split; [apply Hflush|].
    constructor; [|apply IH]. split; auto.
Qed.

(** X20. The segments [split_inline_bold] returns are not empty, except
    the one empty plain segment it returns for the empty text (so the
    check [if not seg: continue] of [add_line_text] skips nothing on a
    non-empty line); and no bold segment contains a line feed. *)
Theorem split_inline_bold_segments (text : str) :
  (text = [] /\ split_inline_bold text = [([], false)])
  \/ (text <> []
      /\ Forall (fun seg =>
                   fst seg <> []
                   /\ (snd seg = true -> no_line_feed (fst seg) = true))
           (split_inline_bold text)).
Proof.
  destruct text as [|c text]; [left; split; reflexivity|].
  right. split; [discriminate|].
  pose proof (split_inline_bold_source_nonempty (c :: text)) as E.
  rewrite E by discriminate. apply bold_scan_segments.
Qed.

Lemma bold_scan_no_star (s : str) :
  forallb (fun c => negb (c =? STAR)) s = true ->
  forall buf,
    bold_scan O buf s = if is_empty (buf ++ s) then [] else [(buf ++ s, false)].
Proof.
  induction s as [|c s IH]; intros H buf.
  - now rewrite app_nil_r.
  - simpl in H. apply andb_true_iff in H as [Hc Hs].
    apply negb_true_iff in Hc.
    cbn [bold_scan]. unfold bold_match.
    assert (Em : match c :: s with
                 | c1 :: c2 :: r =>
                     if (c1 =? STAR) && (c2 =? STAR) then bold_body r else None
                 | _ => None
                 end = None).
    { destruct s as [|c2 r]; [reflexivity|]. now rewrite Hc. }
    rewrite Em, (IH Hs), <- app_assoc. reflexivity.
Qed.

(** X21. A non-empty text without asterisks is one plain segment. *)
Theorem split_inline_bold_plain (text : str) :
  text <> [] ->
  forallb (fun c => negb (c =? STAR)) text = true ->
  split_inline_bold text = [(text, false)].
Proof.
  intros Hne H. unfold split_inline_bold.
  rewrite (bold_scan_no_star _ H []). simpl.
  destruct text; [congruence | reflexivity].
Qed.

Lemma split_inline_bold_plain_witness :
  split_inline_bold (lit "plain text") = [(lit "plain text", false)].
Proof.
  apply (split_inline_bold_plain (lit "plain text")); [discriminate | reflexivity].
Defined.

(* ================================================================= *)
(** * The start of a run *)

Lemma paths_in_nth (cs : list element) :
  forall k i c q,
    nth_error cs i = Some c -> In q (paths c) ->
    In ((k + i)%nat :: q) (paths_in paths cs k).
Proof.
  induction cs as [|c0 cs IH]; intros k i c q Hn Hq.
  - now destruct i.
  - simpl. apply in_or_app. destruct i as [|i]; simpl in Hn.
    + injection Hn as ->. left. rewrite Nat.add_0_r. now apply in_map.
    + right. replace (k + S i)%nat with (S k + i)%nat by lia. eauto.
Qed.

Lemma get_at_in_paths (q : path) :
  forall e x, get_at e q = Some x -> In q (paths e).
Proof.
  induction q as [|i q IH]; intros [t a cs] x H; simpl in *; [now left|].
  right. destruct (nth_error cs i) as [c|] eqn:Hn; [|discriminate].
  apply (paths_in_nth cs 0 i c q Hn). eauto.
Qed.

Lemma NoDup_map_inj_on {A B : Type} (f : A -> B) (l : list A) :
  (forall x y, In x l -> In y l -> f x = f y -> x = y) ->
  NoDup l -> NoDup (map f l).
Proof.
  intros Hf H. induction H as [|x l Hx Hl IH]; simpl; constructor.
  - intros Hin. apply in_map_iff in Hin as (y & E & Hy).
    assert (y = x) by (apply Hf; simpl; auto). now subst.
  - apply IH. intros; apply Hf; simpl; auto.
Qed.

Lemma is_layer_labelled_label (label : str) (g : element) :
  is_layer_labelled label g = true -> el_get g INK_LABEL = Some label.
Proof.
  unfold is_layer_labelled, attr_is. intros H.
  apply andb_true_iff in H as [_ H].
  destruct (el_get g INK_LABEL) as [v|]; [|discriminate].
  apply str_eqb_eq in H. now subst.
Qed.

(** The layers of different page labels are different elements, so a
    document has fewer page labels in a row than elements. *)
Lemma page_layers_bound (d : element) (n m : nat) :
  (forall k, (k < m)%nat ->
             find_layer_by_label d (lit "p" ++ str_of_nat (n + k)) <> None) ->
  (m < List.length (paths d))%nat.
Proof.
  intros Hall.
  set (f := fun k =>
              match find_layer_by_label d (lit "p" ++ str_of_nat (n + k)) with
              | Some q => q
              | None => []
              end).
  assert (Hf : forall k, (k < m)%nat ->
             f k <> []
             /\ exists x, get_at d (f k) = Some x
                          /\ el_get x INK_LABEL
                             = Some (lit "p" ++ str_of_nat (n + k))).
  { intros k Hk. specialize (Hall k Hk). unfold f.
    destruct (find_layer_by_label d _) as [q|] eqn:E; [|congruence].
    destruct (find_desc_some _ _ _ E) as (Hq & x & Hx & HP).
    split; [exact Hq|]. exists x. split; [exact Hx|].
    now apply is_layer_labelled_label. }
  assert (Hnd : NoDup ([] :: map f (seq 0 m))).
  { constructor.
    - intros Hin. apply in_map_iff in Hin as (k & E & Hk).
      apply in_seq in Hk. destruct (Hf k ltac:(lia)) as (Hne & _). congruence.
    - apply NoDup_map_inj_on; [|apply seq_NoDup].
      intros j k Hj Hk E. apply in_seq in Hj, Hk.
      destruct (Hf j ltac:(lia)) as (_ & x & Hx & Lx).
      destruct (Hf k ltac:(lia)) as (_ & y & Hy & Ly).
      rewrite E, Hy in Hx. injection Hx as <-. rewrite Ly in Lx.
      injection Lx as Lx. apply str_of_nat_inj in Lx. lia. }
  assert (Hincl : incl ([] :: map f (seq 0 m)) (paths d)).
  { intros q [<-|Hq].
    - destruct d; now left.
    - apply in_map_iff in Hq as (k & <- & Hk). apply in_seq in Hk.
      destruct (Hf k ltac:(lia)) as (_ & x & Hx & _).
      exact (get_at_in_paths _ _ _ Hx). }
  pose proof (NoDup_incl_length Hnd Hincl) as Hlen.
  cbn [List.length] in Hlen. rewrite length_map, length_seq in Hlen.
  exact Hlen.
Qed.

Lemma find_pre_text_layer (d : element) (label : str) (h : path) :
  find_pre_text d label = Some h -> find_layer_by_label d label <> None.
Proof.
  unfold find_pre_text. now destruct (find_layer_by_label d label).
Qed.

(** The loop lists the labels from [n] on in a row, each with the text
    [find_pre_text] finds, and, given fuel for one label more than it
    lists, stops at a label without text. *)
Lemma scan_pages_spec (d : element) (fuel : nat) :
  forall n pages0,
    exists m,
      (m <= fuel)%nat
      /\ List.length (scan_pages fuel d n pages0)
         = (List.length pages0 + m)%nat
      /\ (forall idx, (idx < List.length pages0)%nat ->
            nth_error (scan_pages fuel d n pages0) idx = nth_error pages0 idx)
      /\ (forall k, (k < m)%nat ->
            exists h,
              nth_error (scan_pages fuel d n pages0) (List.length pages0 + k)
              = Some (lit "p" ++ str_of_nat (n + k), h)
              /\ find_pre_text d (lit "p" ++ str_of_nat (n + k)) = Some h)
      /\ ((m < fuel)%nat ->
          find_pre_text d (lit "p" ++ str_of_nat (n + m)) = None).
Proof.
  induction fuel as [|fuel IH]; intros n pages0; cbn [scan_pages].
  - exists 0%nat. repeat split; try lia; intros; try reflexivity; lia.
  - destruct (find_pre_text d (lit "p" ++ str_of_nat n)) as [t|] eqn:E.
    + destruct (IH (n + 1)%nat (pages0 ++ [(lit "p" ++ str_of_nat n, t)]))
        as (m & Hm & Hlen & Hold & Hnew & Hend).
      rewrite length_app in Hlen, Hold, Hnew.
      cbn [List.length] in Hlen, Hold, Hnew.
      exists (S m). repeat split.
      * lia.
      * lia.
      * intros idx Hidx. rewrite Hold by lia.
        now rewrite nth_error_app1 by lia.
      * intros [|k] Hk.
        -- exists t. rewrite !Nat.add_0_r. split; [|exact E].
           rewrite Hold by lia. rewrite nth_error_app2 by lia.
           now rewrite Nat.sub_diag.
        -- destruct (Hnew k ltac:(lia)) as (h & H1 & H2).
           exists h.
           replace (n + S k)%nat with (n + 1 + k)%nat by lia.
           replace (List.length pages0 + S k)%nat
             with (List.length pages0 + 1 + k)%nat by lia.
           auto.
      * intros Hlt. replace (n + S m)%nat with (n + 1 + m)%nat by lia.
        apply Hend. lia.
    + exists 0%nat. rewrite !Nat.add_0_r.
      repeat split; try lia; intros; try reflexivity; try lia. exact E.
Qed.

Section RunStart.

Variable float : Type.
Variable float_of_str : str -> result float.
Variable str_of_float : float -> str.
Variables fadd fsub fmul : float -> float -> float.
Variables gap_units PX_PER_MM : float.
Variable props : Type.
Variable props_empty : props -> bool.
Variable restyle : str -> props -> str.
Variable label_css : str -> option props.

(** X22. When [effect] gets past its checks of the layers [p1] and [p2],
    the reference [layer_p2] leads to a layer labelled [p2]; the list
    [pages] has at least two entries; its entry at every index [idx] is the
    label [p<idx+1>] with the text of that label in the first layer of that
    label, which is also what [get_page(idx)] returns on this state,
    leaving it unchanged; and the loop has stopped by itself, at the first
    label whose layer or text is missing. *)
Theorem start_pages_lists_pages (d : element) (lp2 : path)
    (pgs : list (str * path)) :
  start_pages d = Ok (lp2, pgs) ->
  pattern_layer lp2 d
  /\ (2 <= List.length pgs)%nat
  /\ (forall idx,
        (idx < List.length pgs)%nat ->
        exists h,
          nth_error pgs idx = Some (lit "p" ++ str_of_nat (idx + 1), h)
          /\ find_pre_text d (lit "p" ++ str_of_nat (idx + 1)) = Some h
          /\ get_page float float_of_str str_of_float fadd fsub fmul gap_units
               PX_PER_MM props props_empty restyle label_css lp2 idx
               (RunState d pgs)
             = Ok (h, RunState d pgs))
  /\ find_pre_text d (lit "p" ++ str_of_nat (List.length pgs + 1)) = None.
Proof.
  unfold start_pages. intros H.
  destruct (find_layer_by_label d (lit "p1")) as [lp1|] eqn:E1; [|discriminate].
  destruct (find_layer_by_label d (lit "p2")) as [lp2'|] eqn:E2; [|discriminate].
  unfold resolve in H.
  destruct (get_at d lp1) as [layer_p1|] eqn:G1; [|discriminate].
  destruct (get_at d lp2') as [layer_p2|] eqn:G2; [|discriminate].
  cbn [bind] in H.
  destruct (find_text_by_label layer_p1 (lit "p1")) as [t1|] eqn:T1;
    [|discriminate].
  destruct (find_text_by_label layer_p2 (lit "p2")) as [t2|] eqn:T2;
    [|discriminate].
  injection H as <- <-.
  assert (P1 : find_pre_text d (lit "p" ++ str_of_nat 1) = Some (lp1 ++ t1)).
  { unfold find_pre_text.
    change (lit "p" ++ str_of_nat 1) with (lit "p1"). now rewrite E1, G1, T1. }
  assert (P2 : find_pre_text d (lit "p" ++ str_of_nat 2) = Some (lp2' ++ t2)).
  { unfold find_pre_text.
    change (lit "p" ++ str_of_nat 2) with (lit "p2"). now rewrite E2, G2, T2. }
  set (pages0 := [(lit "p1", lp1 ++ t1); (lit "p2", lp2' ++ t2)]).
  destruct (scan_pages_spec d (List.length (paths d)) 3 pages0)
    as (m & Hm & Hlen & Hold & Hnew & Hend).
  set (pgs := scan_pages (List.length (paths d)) d 3 pages0) in *.
  cbn [List.length pages0] in Hlen, Hold, Hnew.
  assert (Hlisted : forall idx,
             (idx < List.length pgs)%nat ->
             exists h,
               nth_error pgs idx = Some (lit "p" ++ str_of_nat (idx + 1), h)
               /\ find_pre_text d (lit "p" ++ str_of_nat (idx + 1)) = Some h).
  { intros idx Hidx.
    destruct idx as [|[|k]].
    - exists (lp1 ++ t1). rewrite Hold by lia. split; [reflexivity | exact P1].
    - exists (lp2' ++ t2). rewrite Hold by lia. split; [reflexivity | exact P2].
    - destruct (Hnew k ltac:(lia)) as (h & H1 & H2). exists h.
      replace (S (S k) + 1)%nat with (3 + k)%nat by lia.
      split; [exact H1 | exact H2]. }
  split; [now apply find_layer_by_label_pattern|].
  split; [lia|]. split.
  - intros idx Hidx. destruct (Hlisted idx Hidx) as (h & H1 & H2).
    exists h. split; [exact H1|]. split; [exact H2|].
    unfold get_page. cbn [doc pages]. rewrite H2.
    destruct (Nat.leb_spec (List.length pgs) idx) as [Hle|_]; [lia|].
    reflexivity.
  - assert (Hlt : (m < List.length (paths d))%nat).
    { apply (page_layers_bound d 3 m). intros k Hk.
      destruct (Hnew k Hk) as (h & _ & H2).
      exact (find_pre_text_layer _ _ _ H2). }
    rewrite Hlen. replace (2 + m + 1)%nat with (3 + m)%nat by lia.
    now apply Hend.
Qed.

End RunStart.

Lemma start_pages_lists_pages_witness :
  pattern_layer [2%nat] small_doc
  /\ (2 <= List.length (pages small_state))%nat
  /\ (forall idx,
        (idx < List.length (pages small_state))%nat ->
        exists h,
          nth_error (pages small_state) idx
          = Some (lit "p" ++ str_of_nat (idx + 1), h)
          /\ find_pre_text small_doc (lit "p" ++ str_of_nat (idx + 1)) = Some h
          /\ small_get_page idx small_state = Ok (h, small_state))
  /\ find_pre_text small_doc
       (lit "p" ++ str_of_nat (List.length (pages small_state) + 1)) = None.
Proof.
  apply (start_pages_lists_pages Z nat_float_of_str nat_str_of_float
           Z.add Z.sub Z.mul 10 4 unit (fun _ => true) (fun s _ => s)
           (fun _ => None) small_doc [2%nat] (pages small_state)).
  reflexivity.
Defined.

(* ================================================================= *)
(** * Page layers laid out side by side *)

Lemma update_nth_length {A : Type} (f : A -> A) (l : list A) (i : nat) :
  List.length (update_nth i f l) = List.length l.
Proof. revert i. induction l as [|x l IH]; intros [|i]; simpl; auto. Qed.

Lemma update_nth_app_lt {A : Type} (f : A -> A) (l l' : list A) (i : nat) :
  (i < List.length l)%nat -> update_nth i f (l ++ l') = update_nth i f l ++ l'.
Proof.
  revert i. induction l as [|x l IH]; intros [|i] H; simpl in *; try lia; auto.
  rewrite IH by lia. reflexivity.
Qed.

Lemma update_nth_twice {A : Type} (f g h : A -> A) (l : list A) (i : nat) :
  (forall x, f (g x) = h x) ->
  update_nth i f (update_nth i g l) = update_nth i h l.
Proof.
  intros H. revert i. induction l as [|x l IH]; intros [|i]; simpl; auto.
  - now rewrite H.
  - now rewrite IH.
Qed.

Lemma update_nth_fix {A : Type} (f : A -> A) (l : list A) (i : nat) (x : A) :
  nth_error l i = Some x -> f x = x -> update_nth i f l = l.
Proof.
  revert i. induction l as [|y l IH]; intros [|i] Hn Hf; simpl in *;
    try discriminate.
  - injection Hn as ->. now rewrite Hf.
  - now rewrite (IH i Hn Hf).
Qed.

Lemma element_eta (e : element) : Element (tag e) (attrib e) (children e) = e.
Proof. now destruct e. Qed.

Lemma update_at_el_append_old (f : element -> element) (c e : element)
    (i : nat) (q : path) :
  (i < List.length (children e))%nat ->
  update_at f (el_append c e) (i :: q) = el_append c (update_at f e (i :: q)).
Proof.
  intros H. unfold el_append. simpl. now rewrite update_nth_app_lt.
Qed.

Lemma update_at_twice (f g h : element -> element) :
  (forall x, f (g x) = h x) ->
  forall q e, update_at f (update_at g e q) q = update_at h e q.
Proof.
  intros H. induction q as [|i q IH]; intros e; simpl; [apply H|].
  f_equal. apply update_nth_twice. exact IH.
Qed.

Lemma update_at_fix (f : element -> element) :
  forall q e x, get_at e q = Some x -> f x = x -> update_at f e q = e.
Proof.
  induction q as [|i q IH]; intros e x Hx Hf; simpl in *.
  - injection Hx as ->. exact Hf.
  - destruct (nth_error (children e) i) as [c|] eqn:Hn; [|discriminate].
    rewrite (update_nth_fix _ _ _ c Hn (IH _ _ Hx Hf)). apply element_eta.
Qed.

Lemma get_at_first_index (e x : element) (i : nat) (q : path) :
  get_at e (i :: q) = Some x -> (i < List.length (children e))%nat.
Proof.
  simpl. destruct (nth_error (children e) i) eqn:Hn; [|discriminate].
  intros _. apply nth_error_Some. congruence.
Qed.

Lemma attr_set_restore (a : list (name * str)) (k : name) (v v' : str) :
  attr_get a k = Some v -> attr_set (attr_set a k v') k v = a.
Proof.
  induction a as [|[k0 v0] a IH]; simpl; [discriminate|].
  destruct (String.eqb k0 k) eqn:E; simpl; rewrite E.
  - now intros [= ->].
  - intros H. now rewrite (IH H).
Qed.

(** Unlocking the format layer and locking it again leaves it as it
    was. *)
Lemma relock_same (fmt : element) :
  attr_is (el_get fmt SODO_INSEN) (lit "true") = true ->
  el_set SODO_INSEN (lit "true") (el_set SODO_INSEN (lit "false") fmt) = fmt.
Proof.
  unfold attr_is, el_get. intros H.
  destruct (attr_get (attrib fmt) SODO_INSEN) as [v|] eqn:E; [|discriminate].
  apply str_eqb_eq in H. subst v.
  unfold el_set. cbn [tag attrib children].
  rewrite (attr_set_restore _ _ _ _ E). apply element_eta.
Qed.

Lemma find_layer_by_labels_el_append (c e : element) (labels : list str) :
  Forall (fun lb => is_layer_labelled lb c = false) labels ->
  children c = [] ->
  _find_layer_by_labels (el_append c e) labels = _find_layer_by_labels e labels.
Proof.
  intros H Hc. induction H as [|lb labels Hlb _ IH]; [reflexivity|].
  cbn [_find_layer_by_labels]. unfold find_layer_by_label in *.
  rewrite find_desc_el_append, Hlb, (find_desc_leaf _ c Hc), IH.
  now destruct (find_desc (is_layer_labelled lb) e).
Qed.

Lemma find_layer_by_labels_some (e : element) (labels : list str) (q : path) :
  _find_layer_by_labels e labels = Some q ->
  q <> [] /\ exists x, get_at e q = Some x.
Proof.
  induction labels as [|lb labels IH]; simpl; [discriminate|].
  destruct (find_layer_by_label e lb) as [r|] eqn:E; [|exact IH].
  intros [= <-]. destruct (find_desc_some _ _ _ E) as (Hq & x & Hx & _). eauto.
Qed.

Lemma find_in_none_inv (below : element -> option path) (P : element -> bool)
    (cs : list element) :
  forall k,
    find_in below P cs k = None ->
    Forall (fun c => P c = false /\ below c = None) cs.
Proof.
  induction cs as [|c cs IH]; intros k H; simpl in H; [constructor|].
  destruct (P c) eqn:HP; [discriminate|].
  destruct (below c) eqn:Hb; [discriminate|].
  constructor; [auto | eauto].
Qed.

Lemma Forall_remove_nth {A : Type} (R : A -> Prop) (l : list A) (i : nat) :
  Forall R l -> Forall R (remove_nth i l).
Proof.
  intros H. revert i. induction H as [|x l Hx Hl IH]; intros [|i]; simpl;
    auto.
Qed.

Lemma Forall_update_nth {A : Type} (R : A -> Prop) (f : A -> A) (l : list A)
    (i : nat) :
  (forall x, R x -> R (f x)) -> Forall R l -> Forall R (update_nth i f l).
Proof.
  intros Hf H. revert i. induction H as [|x l Hx Hl IH]; intros [|i]; simpl;
    auto.
Qed.

(** Removing an element below the root leaves the tag and the attributes
    of the root. *)
Lemma remove_at_root (e : element) (q : path) :
  tag (remove_at e q) = tag e /\ attrib (remove_at e q) = attrib e.
Proof. destruct q as [|i [|j q]]; simpl; auto. Qed.

Lemma remove_at_children_one (e : element) (i : nat) :
  children (remove_at e [i]) = remove_nth i (children e).
Proof. reflexivity. Qed.

Lemma remove_at_children_more (e : element) (i j : nat) (q : path) :
  children (remove_at e (i :: j :: q))
  = update_nth i (fun c => remove_at c (j :: q)) (children e).
Proof. reflexivity. Qed.

Lemma shape_pred_remove_at (P : element -> bool) (e : element) (q : path) :
  shape_pred P -> P (remove_at e q) = P e.
Proof.
  intros HP. destruct (remove_at_root e q) as (Ht & Ha).
  apply HP; [exact Ht | |]; unfold el_get; now rewrite Ha.
Qed.

(** A search that finds nothing finds nothing after a removal. *)
Lemma find_desc_remove_at_none (P : element -> bool) :
  shape_pred P ->
  forall q e, find_desc P e = None -> find_desc P (remove_at e q) = None.
Proof.
  intros HP. induction q as [|i q IH]; intros e H; [exact H|].
  rewrite find_desc_children in H.
  apply find_in_none_inv in H.
  rewrite find_desc_children. apply find_in_none.
  destruct q as [|j q].
  - rewrite remove_at_children_one. now apply Forall_remove_nth.
  - rewrite remove_at_children_more.
    apply Forall_update_nth; [|exact H].
    intros c [H1 H2]. split; [|now apply IH].
    now rewrite shape_pred_remove_at.
Qed.

Lemma delete_layer_keeps_none (root : element) (label lb : str) :
  find_layer_by_label root lb = None ->
  find_layer_by_label (_delete_layer_if_exists root label) lb = None.
Proof.
  intros H. unfold _delete_layer_if_exists.
  destruct (find_layer_by_label root label) as [q|]; [|exact H].
  apply find_desc_remove_at_none; [apply shape_pred_layer | exact H].
Qed.

(** A child of the root that satisfies the predicate makes the search
    succeed. *)
Lemma find_in_child (below : element -> option path) (P : element -> bool)
    (cs : list element) (c : element) :
  In c cs -> P c = true -> forall k, find_in below P cs k <> None.
Proof.
  induction cs as [|c0 cs IH]; intros Hin HP k; [contradiction|]. simpl.
  destruct (P c0) eqn:E0; [discriminate|].
  destruct (below c0); [discriminate|].
  destruct Hin as [->|Hin]; [congruence | now apply IH].
Qed.

Lemma find_desc_child (P : element -> bool) (e c : element) :
  In c (children e) -> P c = true -> exists q, find_desc P e = Some q.
Proof.
  intros Hin HP. rewrite find_desc_children.
  pose proof (find_in_child (find_desc P) P _ c Hin HP 0%nat) as H.
  destruct (find_in _ _ _ _) as [q|]; [eauto | congruence].
Qed.

Lemma In_remove_nth {A : Type} (l : list A) (i : nat) (x c : A) :
  nth_error l i = Some x -> c <> x -> In c l -> In c (remove_nth i l).
Proof.
  revert i. induction l as [|y l IH]; intros [|i] Hn Hne Hin; simpl in *;
    try contradiction.
  - injection Hn as ->. destruct Hin as [->|Hin]; [congruence | exact Hin].
  - destruct Hin as [->|Hin]; [now left | right; eauto].
Qed.

Lemma In_update_nth {A : Type} (f : A -> A) (l : list A) (i : nat) (c : A) :
  In c l -> In c (update_nth i f l) \/ In (f c) (update_nth i f l).
Proof.
  revert i. induction l as [|y l IH]; intros [|i] Hin; simpl in *;
    try contradiction.
  - destruct Hin as [->|Hin]; auto.
  - destruct Hin as [->|Hin]; [auto|].
    destruct (IH i Hin); auto.
Qed.

(** Removing an element that the predicate rejects leaves the root a
    child that satisfies it, when it had one. *)
Lemma remove_at_keeps_child (P : element -> bool) (e x : element) (q : path) :
  shape_pred P -> q <> [] -> get_at e q = Some x -> P x = false ->
  (exists c, In c (children e) /\ P c = true) ->
  exists c, In c (children (remove_at e q)) /\ P c = true.
Proof.
  intros HP Hq Hx Hrej (c & Hin & Hc).
  destruct q as [|i [|j q]]; [congruence| |];
    [rewrite remove_at_children_one | rewrite remove_at_children_more].
  - simpl in Hx. destruct (nth_error (children e) i) as [y|] eqn:Hn;
      [|discriminate].
    injection Hx as ->. exists c. split; [|exact Hc].
    apply (In_remove_nth _ i x c Hn); [congruence | exact Hin].
  - destruct (In_update_nth (fun c => remove_at c (j :: q)) _ i c Hin) as [H|H].
    + now exists c.
    + exists (remove_at c (j :: q)). split; [exact H|].
      now rewrite shape_pred_remove_at.
Qed.





Section HorizontalProps.

Variable get_unique_id : element -> str -> str.
Variable transform_text : nat -> str.

Local Abbreviation ensure_page_horizontal' :=
  (ensure_page_horizontal get_unique_id transform_text).
Local Abbreviation horizontal_layer' :=
  (horizontal_layer get_unique_id transform_text).

(** What [ensure_page_horizontal] comes to for a page from the third on:
    the first layer of the label goes, and a layer with a copy of the
    children of [f2] is appended; the new layer does not change what the
    searches for the format layer find, and the lock of the format layer
    is as before. *)
Lemma ensure_page_horizontal_eq (n : nat) (root : element) :
  (3 <= n)%nat ->
  let root0 := _delete_layer_if_exists root (lit "p" ++ str_of_nat n) in
  ensure_page_horizontal' n root
  = match _find_layer_by_labels root0 [FORMAT_LABEL; FORMAT_LABEL_BARE] with
    | None => Raise (AbortExtension FORMAT_LABEL)
    | Some fp =>
        fmt_root <- resolve root0 fp ;;
        match find_layer_by_label fmt_root (lit "f2") with
        | None => Raise (AbortExtension (lit "f2"))
        | Some f2p =>
            f2 <- resolve fmt_root f2p ;;
            Ok (el_append (horizontal_layer' root0 n (children f2)) root0)
        end
    end.
Proof.
  intros Hn root0. unfold ensure_page_horizontal.
  destruct (Nat.ltb_spec n 3) as [Hlt|_]; [lia|].
  fold root0. unfold _new_layer. cbv zeta.
  set (g := el_set "id" _ _).
  assert (Eg : forall content,
             Element (tag g)
               (attrib (el_set "transform" (transform_text n) g)) content
             = horizontal_layer' root0 n content) by reflexivity.
  rewrite (update_at_el_append_new _ g root0 []).
  match goal with
  | |- context [update_at ?f g []] => change (update_at f g []) with (f g)
  end.
  set (g1 := el_set "transform" _ g).
  assert (Hlab : Forall (fun lb => is_layer_labelled lb g1 = false)
                   [FORMAT_LABEL; FORMAT_LABEL_BARE])
    by (repeat constructor).
  rewrite (find_layer_by_labels_el_append g1 root0 _ Hlab eq_refl).
  destruct (_find_layer_by_labels root0 [FORMAT_LABEL; FORMAT_LABEL_BARE])
    as [fp|] eqn:Ef; [|reflexivity].
  destruct (find_layer_by_labels_some _ _ _ Ef) as (Hfp & fmt & Hfmt).
  unfold resolve at 1 3.
  rewrite (get_at_el_append g1 root0 fmt fp Hfp Hfmt), Hfmt. cbn [bind].
  destruct (find_layer_by_label fmt (lit "f2")) as [f2p|]; [|reflexivity].
  destruct (resolve fmt f2p) as [f2|e]; [|reflexivity]. cbn [bind].
  f_equal.
  destruct fp as [|i q]; [congruence|].
  pose proof (get_at_first_index _ _ _ _ Hfmt) as Hi.
  assert (Hclone : forall r,
             List.length (children r) = List.length (children root0) ->
             update_at (_clone_children f2) (el_append g1 r)
               [List.length (children root0)]
             = el_append (horizontal_layer' root0 n (children f2)) r).
  { intros r Hr. rewrite <- Hr.
    rewrite (update_at_el_append_new _ g1 r []). reflexivity. }
  destruct (attr_is (el_get fmt SODO_INSEN) (lit "true")) eqn:Hlock.
  - rewrite (update_at_el_append_old _ g1 root0 i q Hi).
    rewrite Hclone by (simpl; apply update_nth_length).
    rewrite update_at_el_append_old
      by (simpl; now rewrite update_nth_length).
    rewrite (update_at_twice _ _ (fun x =>
               el_set SODO_INSEN (lit "true")
                 (el_set SODO_INSEN (lit "false") x)))
      by reflexivity.
    now rewrite (update_at_fix _ _ _ _ Hfmt (relock_same fmt Hlock)).
  - now apply Hclone.
Qed.


(** X24. In a document without a layer labelled with the format label,
    with or without brackets, [ensure_page_horizontal] does nothing for the
    pages 1 and 2 and raises [AbortExtension] for every later page. *)
Theorem ensure_page_horizontal_needs_format (n : nat) (root : element) :
  find_layer_by_label root FORMAT_LABEL = None ->
  find_layer_by_label root FORMAT_LABEL_BARE = None ->
  ensure_page_horizontal' n root
  = if (n <? 3)%nat then Ok root else Raise (AbortExtension FORMAT_LABEL).
Proof.
  intros H1 H2. destruct (Nat.ltb_spec n 3) as [Hlt|Hge].
  - unfold ensure_page_horizontal.
    now destruct (Nat.ltb_spec n 3) as [_|Hge]; [|lia].
  - rewrite (ensure_page_horizontal_eq n root Hge).
    cbn [_find_layer_by_labels].
    now rewrite !delete_layer_keeps_none.
Qed.

Lemma horizontal_layer_is_layer (root0 : element) (n : nat)
    (content : list element) :
  is_layer_labelled (lit "p" ++ str_of_nat n)
    (horizontal_layer' root0 n content) = true.
Proof.
  unfold is_layer_labelled, horizontal_layer, el_get, attr_is.
  cbn [tag attrib attr_get].
  change (String.eqb INK_GROUPMODE INK_GROUPMODE) with true.
  change (String.eqb INK_GROUPMODE INK_LABEL) with false.
  change (String.eqb INK_LABEL INK_LABEL) with true.
  cbv iota. now rewrite !str_eqb_refl.
Qed.

(** The root has a child that is a layer labelled [p<j>]. *)
Local Abbreviation has_page_layer j e :=
  (exists c,
      In c (children e)
      /\ is_layer_labelled (lit "p" ++ str_of_nat j) c = true).

Lemma ensure_page_horizontal_layers (n : nat) (root root' : element) :
  (3 <= n)%nat ->
  ensure_page_horizontal' n root = Ok root' ->
  has_page_layer n root'
  /\ forall j, j <> n -> has_page_layer j root -> has_page_layer j root'.
Proof.
  intros Hn H.
  rewrite (ensure_page_horizontal_eq n root Hn) in H.
  destruct (_find_layer_by_labels _ _) as [fp|]; [|discriminate].
  destruct (resolve _ fp) as [fmt|]; [|discriminate]. cbn [bind] in H.
  destruct (find_layer_by_label fmt (lit "f2")) as [f2p|]; [|discriminate].
  destruct (resolve fmt f2p) as [f2|]; [|discriminate]. cbn [bind] in H.
  injection H as <-. split.
  - eexists. split; [|apply horizontal_layer_is_layer].
    simpl. apply in_or_app. right. now left.
  - intros j Hj Hroot.
    assert (H0 : has_page_layer j
                   (_delete_layer_if_exists root (lit "p" ++ str_of_nat n))).
    { unfold _delete_layer_if_exists.
      destruct (find_layer_by_label root (lit "p" ++ str_of_nat n)) as [q|] eqn:E;
        [|exact Hroot].
      destruct (find_desc_some _ _ _ E) as (Hq & x & Hx & HP).
      apply (remove_at_keeps_child _ root x q (shape_pred_layer _) Hq Hx);
        [|exact Hroot].
      apply is_layer_labelled_label in HP.
      unfold is_layer_labelled, attr_is. rewrite HP.
      destruct (str_eqb _ _) eqn:Es; [|now rewrite andb_false_r].
      apply str_eqb_eq in Es. injection Es as Es.
      apply str_of_nat_inj in Es. congruence. }
    destruct H0 as (c & Hin & Hc). exists c. split; [|exact Hc].
    simpl. apply in_or_app. now left.
Qed.

Lemma ensure_pages_from_layers (count : nat) :
  forall n root root',
    (3 <= n)%nat ->
    ensure_pages_from get_unique_id transform_text n count root = Ok root' ->
    (forall k, (n <= k < n + count)%nat -> has_page_layer k root')
    /\ (forall j, (j < n)%nat -> has_page_layer j root -> has_page_layer j root').
Proof.
  induction count as [|count IH]; intros n root root' Hn H; simpl in H.
  - injection H as <-. split; [intros k Hk; lia | auto].
  - inv_bind H.
    destruct (ensure_page_horizontal_layers n root x Hn Hx) as (Hnew & Hold).
    destruct (IH (n + 1)%nat x root' ltac:(lia) H) as (H1 & H2).
    split.
    + intros k Hk. destruct (Nat.eq_dec k n) as [->|Hne].
      * apply H2; [lia | exact Hnew].
      * apply H1. lia.
    + intros j Hj Hroot. apply H2; [lia|]. apply Hold; [lia | exact Hroot].
Qed.

(** X25. [ensure_pages_horizontal_from_p3] leaves the document as it is
    when at most two pages are asked for; when it returns, every page from
    the third to the last one asked for has a layer of its label. *)
Theorem ensure_pages_horizontal_from_p3_layers (total_pages : nat)
    (root root' : element) :
  ensure_pages_horizontal_from_p3 get_unique_id transform_text total_pages root
  = Ok root' ->
  ((total_pages <= 2)%nat -> root' = root)
  /\ forall n,
       (3 <= n <= total_pages)%nat ->
       exists q, find_layer_by_label root' (lit "p" ++ str_of_nat n) = Some q.
Proof.
  unfold ensure_pages_horizontal_from_p3. intros H. split.
  - intros Hle.
    replace (Nat.max 3 (total_pages + 1) - 3)%nat with 0%nat in H by lia.
    simpl in H. now injection H as <-.
  - intros n Hn.
    destruct (ensure_pages_from_layers _ 3 root root' ltac:(lia) H) as (H1 & _).
    destruct (H1 n ltac:(lia)) as (c & Hin & Hc).
    exact (find_desc_child _ _ c Hin Hc).
Qed.


End HorizontalProps.


Lemma ensure_page_horizontal_needs_format_witness :
  ensure_page_horizontal sample_unique_id sample_transform_text 3 small_doc
  = if (3 <? 3)%nat then Ok small_doc else Raise (AbortExtension FORMAT_LABEL).
Proof.
  apply (ensure_page_horizontal_needs_format sample_unique_id
           sample_transform_text 3 small_doc); reflexivity.
Defined.

Lemma ensure_pages_horizontal_from_p3_layers_witness :
  exists root',
    ensure_pages_horizontal_from_p3 sample_unique_id sample_transform_text 4
      format_doc = Ok root'
    /\ ((4 <= 2)%nat -> root' = format_doc)
    /\ forall n,
         (3 <= n <= 4)%nat ->
         exists q,
           find_layer_by_label root' (lit "p" ++ str_of_nat n) = Some q.
Proof.
  destruct (ensure_pages_horizontal_from_p3 sample_unique_id
              sample_transform_text 4 format_doc) as [root'|e] eqn:E;
    [|vm_compute in E; discriminate].
  exists root'. split; [reflexivity|].
  apply (ensure_pages_horizontal_from_p3_layers sample_unique_id
           sample_transform_text 4 format_doc root'). exact E.
Defined.


(* ================================================================= *)
(** * The first physical page *)

Lemma harmless_append_page_like (pg : element) :
  page_like pg -> harmless (el_append pg).
Proof.
  intros Hpg x. split; [repeat split|].
  exists [pg]. split; [reflexivity|]. now constructor.
Qed.

Section FirstPageProps.

Variable float : Type.
Variable float_of_str : str -> result float.
Variable str_of_float : float -> str.

(** What [str] prints of a float, [float] reads; and [float] reads
    ["0"]. *)
Hypothesis float_of_str_of_float :
  forall x, exists y, float_of_str (str_of_float x) = Ok y.
Hypothesis float_of_zero : exists z, float_of_str (lit "0") = Ok z.

Local Abbreviation _ensure_pages' :=
  (_ensure_pages float float_of_str str_of_float).
Local Abbreviation list_pages' := (_list_pages float float_of_str).

Lemma list_pages_first_page (nv : element) (w h : float) :
  list_pages' nv = Ok [] ->
  exists g,
    list_pages' (el_append (first_page float str_of_float w h) nv) = Ok [g].
Proof.
  unfold _list_pages. intros H. cbn [el_append children].
  rewrite list_pages_of_app, H. cbn [bind list_pages_of].
  change (is_page (first_page float str_of_float w h)) with true. cbv iota.
  unfold page_floats, first_page, el_get_or.
  cbn [attrib attr_get String.eqb Ascii.eqb Bool.eqb].
  destruct float_of_zero as (z & ->).
  destruct (float_of_str_of_float w) as (w' & ->).
  destruct (float_of_str_of_float h) as (h' & ->).
  simpl. eauto.
Qed.

(** The document with its first page added to the named view at [nvp]. *)
Lemma first_page_added (d nv : element) (nvp : path) (w h : float) :
  _namedview d = Some nvp ->
  get_at d nvp = Some nv ->
  list_pages' nv = Ok [] ->
  let d' := update_at (el_append (first_page float str_of_float w h)) d nvp in
  exists nv' g,
    _namedview d' = Some nvp
    /\ get_at d' nvp = Some nv'
    /\ list_pages' nv' = Ok [g].
Proof.
  intros Hnv Hget Hlp d'.
  assert (Hh : harmless (el_append (first_page float str_of_float w h)))
    by (apply harmless_append_page_like; split; reflexivity).
  destruct (list_pages_first_page nv w h Hlp) as (g & Hg).
  exists (el_append (first_page float str_of_float w h) nv), g.
  split; [|split; [|exact Hg]].
  - unfold d'. now rewrite (grown_namedview _ _ (grown_one _ nvp d Hh)).
  - unfold d'. now apply get_at_update_at_same.
Qed.

(** The document, or the document with an empty named view put first. *)
Lemma ensure_namedview (d : element) :
  exists d1 nvp nv,
    (match _namedview d with
     | Some nvp => (d, nvp)
     | None =>
         (Element (tag d) (attrib d)
            (Element SODI_NAMEDVIEW [] [] :: children d), [0%nat])
     end) = (d1, nvp)
    /\ _namedview d1 = Some nvp
    /\ get_at d1 nvp = Some nv
    /\ el_get d1 "viewBox" = el_get d "viewBox"
    /\ (_namedview d = None -> list_pages' nv = Ok []).
Proof.
  destruct (_namedview d) as [nvp|] eqn:E.
  - assert (Hget : exists nv, get_at d nvp = Some nv).
    { unfold _namedview in E.
      destruct (String.eqb (tag d) SODI_NAMEDVIEW).
      - injection E as <-. now exists d.
      - destruct (find_desc_some _ _ _ E) as (_ & x & Hx & _). eauto. }
    destruct Hget as (nv & Hget).
    exists d, nvp, nv. repeat split; auto. discriminate.
  - exists (Element (tag d) (attrib d)
              (Element SODI_NAMEDVIEW [] [] :: children d)),
      [0%nat], (Element SODI_NAMEDVIEW [] []).
    repeat split.
    unfold _namedview in *. cbn [tag].
    destruct (String.eqb (tag d) SODI_NAMEDVIEW); [discriminate|].
    reflexivity.
Qed.

(** X27. When [_ensure_pages] returns, the document has a named view with
    at least one page that [_list_pages] reads, so that neither of the two
    checks of [get_page] for a missing named view or page fails on it; a
    document that had such a page already is left as it is. *)
Theorem ensure_pages_gives_a_page (d d' : element) :
  _ensure_pages' d = Ok d' ->
  (exists nvp nv g pgs,
      _namedview d' = Some nvp
      /\ get_at d' nvp = Some nv
      /\ list_pages' nv = Ok (g :: pgs))
  /\ (forall nvp nv g pgs,
        _namedview d = Some nvp -> get_at d nvp = Some nv ->
        list_pages' nv = Ok (g :: pgs) -> d' = d).
Proof.
  unfold _ensure_pages. intros H. split.
  - destruct (ensure_namedview d) as (d1 & nvp & nv & E & Hnv & Hget & _ & _).
    rewrite E in H. unfold resolve in H. rewrite Hget in H. cbn [bind] in H.
    destruct (list_pages' nv) as [[|g pgs]|e] eqn:Hlp; [| |discriminate];
      cbn [bind] in H.
    + inv_bind H. inv_bind H. inv_bind H. inv_bind H. injection H as <-.
      destruct (first_page_added d1 nv nvp x0 x2 Hnv Hget Hlp)
        as (nv' & g & H1 & H2 & H3).
      exists nvp, nv', g, []. auto.
    + injection H as <-. exists nvp, nv, g, pgs. auto.
  - intros nvp nv g pgs Hnv Hget Hlp.
    rewrite Hnv in H. unfold resolve in H. rewrite Hget in H. cbn [bind] in H.
    rewrite Hlp in H. cbn [bind] in H. now injection H as <-.
Qed.

(** X28. When a page has to be made and the [viewBox] of the root has
    fewer than three words, [_ensure_pages] raises [IndexError] whether
    the root has a [width] and a [height] or not: the default [vb[2]] of
    [docroot.get("width", vb[2])] is evaluated first. *)
Theorem ensure_pages_short_viewbox (d : element) (v : str) :
  match _namedview d with
  | Some nvp => exists nv, get_at d nvp = Some nv /\ list_pages' nv = Ok []
  | None => True
  end ->
  el_get d "viewBox" = Some v -> v <> [] ->
  (List.length (split_ws v) <= 2)%nat ->
  _ensure_pages' d = Raise IndexError.
Proof.
  intros Hpages Hv Hne Hlen. unfold _ensure_pages.
  destruct (ensure_namedview d) as (d1 & nvp & nv & E & Hnv & Hget & Hvb & Hnew).
  rewrite E. unfold resolve. rewrite Hget. cbn [bind].
  assert (Hlp : list_pages' nv = Ok []).
  { destruct (_namedview d) as [nvp0|] eqn:E0; [|now apply Hnew].
    injection E as <- <-. destruct Hpages as (nv0 & H0 & H1). congruence. }
  rewrite Hlp. cbn [bind]. rewrite Hvb, Hv.
  destruct v as [|c v]; [congruence|]. cbn [is_empty].
  unfold index.
  destruct (nth_error (split_ws (c :: v)) 2) eqn:En; [|reflexivity].
  assert (Hlt : (2 < List.length (split_ws (c :: v)))%nat)
    by (apply nth_error_Some; congruence).
  lia.
Qed.

End FirstPageProps.

Lemma ensure_pages_gives_a_page_witness :
  exists d',
    _ensure_pages Z nat_float_of_str nat_str_of_float
      (bare_doc (lit "0 0 210 297")) = Ok d'
    /\ (exists nvp nv g pgs,
          _namedview d' = Some nvp
          /\ get_at d' nvp = Some nv
          /\ _list_pages Z nat_float_of_str nv = Ok (g :: pgs))
    /\ (forall nvp nv g pgs,
          _namedview (bare_doc (lit "0 0 210 297")) = Some nvp ->
          get_at (bare_doc (lit "0 0 210 297")) nvp = Some nv ->
          _list_pages Z nat_float_of_str nv = Ok (g :: pgs) ->
          d' = bare_doc (lit "0 0 210 297")).
Proof.
  destruct (_ensure_pages Z nat_float_of_str nat_str_of_float
              (bare_doc (lit "0 0 210 297"))) as [d'|e] eqn:E;
    [|vm_compute in E; discriminate].
  exists d'. split; [reflexivity|].
  apply (ensure_pages_gives_a_page Z nat_float_of_str nat_str_of_float
           (fun x => ex_intro _ (leading_digits (nat_str_of_float x) 0) eq_refl)
           (ex_intro _ 0 eq_refl)
           (bare_doc (lit "0 0 210 297")) d').
  exact E.
Defined.

Lemma ensure_pages_short_viewbox_witness :
  _ensure_pages Z nat_float_of_str nat_str_of_float (bare_doc (lit "0 0"))
  = Raise IndexError.
Proof.
  apply (ensure_pages_short_viewbox Z nat_float_of_str nat_str_of_float
           (bare_doc (lit "0 0")) (lit "0 0")).
  - exact I.
  - reflexivity.
  - discriminate.
  - vm_compute. lia.
Defined.

(* ================================================================= *)
(** * Style attributes *)









(** *** Dictionaries *)













(** *** Reading a style attribute *)










(** *** The font specification *)






Lemma props_ok_wf (props : style_dict) : props_ok props -> style_wf props.
Proof.
  intros [H1 H2]. split; [exact H1|].
  eapply Forall_impl; [|exact H2]. intros kv [Hk [Hv _]]. auto.
Qed.








(** *** Resetting the style of a text box *)






Section ResetBoxStyleProps.

Variable format_json : json -> str.






End ResetBoxStyleProps.

